(** * CowData: a copy-on-write buffer handle (godot-cpp, templates/cowdata.hpp)

    A shallow embedding of [CowData<T>] and the proofs of its contract.
    The heap is a finite map from block base addresses to blocks made of
    the two header words (reference count, element count) and the payload
    slots.  A handle is the value of its [_ptr] member: the address of the
    first payload slot, [ALLOC_PAD] bytes above the block base, or 0 for
    [nullptr].  Methods are computations in a state-and-fault monad over
    the handle and the heap. *)

From stdpp Require Import base numbers option list gmap.
From Stdlib Require Import ZArith Lia.

Local Open Scope Z_scope.

(** ** Machine integers *)

(** [USize] is [uint64_t], [Size] is [int64_t]. *)
Definition USIZE_MOD : Z := 2 ^ 64.
Definition MAX_INT : Z := 2 ^ 63 - 1.

(** Arithmetic on [USize] wraps around. *)
Definition wrap (x : Z) : Z := x mod USIZE_MOD.

(** Conversion of a [USize] value to [Size] (two's complement). *)
Definition to_Size (x : Z) : Z := if x <=? MAX_INT then x else x - USIZE_MOD.

(** [next_po2]: the smallest power of two that is not below [x], by bit
    smearing; [sizeof(USize) == 8], so the last shift is always taken. *)
Definition smear (x : Z) (k : Z) : Z := Z.lor x (Z.shiftr x k).

Definition next_po2 (x : Z) : Z :=
  if x =? 0 then 0
  else
    let x := wrap (x - 1) in
    let x := smear x 1 in
    let x := smear x 2 in
    let x := smear x 4 in
    let x := smear x 8 in
    let x := smear x 16 in
    let x := smear x 32 in
    wrap (x + 1).

(** The invariant of the bit smearing: [r] has its highest set bit at [n]
    and the [w] bits from [n] downwards are all set. *)
Definition smeared (n w r : Z) : Prop :=
  0 < r ∧ Z.log2 r = n ∧ ∀ i, 0 ≤ i → n - w < i ≤ n → Z.testbit r i = true.

(** [ALLOC_PAD = sizeof(USize) * 2]: room for the size and the refcount. *)
Definition ALLOC_PAD : Z := 16.

(** The result codes [Error] that the class uses. *)
Inductive Error : Set := OK | ERR_INVALID_PARAMETER | ERR_OUT_OF_MEMORY.

Global Instance Error_eq_dec : EqDecision Error.
Proof. solve_decision. Defined.

(** ** The raw allocator's verdicts

    Modelled from the spec: [Memory::alloc_static], [Memory::realloc_static]
    and [Memory::free_static] are declared in core/memory.hpp, which is
    not part of the sources at hand: "allocate(bytes) -> pointer|null,
    reallocate(pointer,bytes) -> pointer|null, free(pointer)".  Whether a
    request is served is the allocator's business: the heap carries a
    script with one verdict per request, and a request that finds the
    script empty is served ([Moved], for a reallocation). *)
Inductive verdict : Set :=
  | Deny      (* the allocator returns null *)
  | InPlace   (* served; a reallocation keeps the block where it is *)
  | Moved.    (* served; a reallocation moves the block to a fresh base *)

Definition served (v : verdict) : bool :=
  match v with Deny => false | _ => true end.

(** ** The element type

    What the class template asks of its parameter [T]: its size, its
    comparison, the three type traits it dispatches on, and the values that
    construction, zero filling and destruction leave in a slot. *)
Class ElemType (T : Type) : Type := {
  T_eqb : T → T → bool;             (* operator== *)
  sizeof_T : positive;              (* sizeof(T) *)
  trivially_constructible : bool;   (* std::is_trivially_constructible<T> *)
  trivially_copyable : bool;        (* std::is_trivially_copyable<T> *)
  trivially_destructible : bool;    (* std::is_trivially_destructible<T> *)
  T_default : T;                    (* the value built by T() *)
  T_zero : T;                       (* the value whose bytes are all zero *)
  T_dead : T → T;                   (* what ~T() leaves in the slot *)
  uninit : nat → T                  (* what a slot never written holds *)
}.

(** ** The build

    [checked_arith] is [defined(__GNUC__) && defined(IS_32_BIT)]: it selects
    the overflow-checked branch of [_get_alloc_size_checked]. *)
Class Build : Type := { checked_arith : bool }.

Section CowData.

Context {T : Type} {E : ElemType T} {B : Build}.

Definition elem_bytes : Z := Z.pos sizeof_T.

(** ** The heap *)

(** One allocation: the header words and the payload slots.  The number of
    slots is the capacity of the payload region in elements. *)
Record block : Type := Block {
  b_refcount : Z;
  b_size : Z;
  b_slots : list T
}.

Definition with_refcount (v : Z) (b : block) : block :=
  Block v (b_size b) (b_slots b).
Definition with_size (v : Z) (b : block) : block :=
  Block (b_refcount b) v (b_slots b).
Definition with_slots (l : list T) (b : block) : block :=
  Block (b_refcount b) (b_size b) l.

Record Memory : Type := Mem {
  blocks : gmap Z block;
  script : list verdict
}.

Definition with_blocks (bs : gmap Z block) (m : Memory) : Memory :=
  Mem bs (script m).

(** The heap with the block at base [a] set to [b], and with it freed. *)
Definition put_block (a : Z) (b : block) (m : Memory) : Memory :=
  with_blocks (<[a := b]> (blocks m)) m.
Definition drop_block (a : Z) (m : Memory) : Memory :=
  with_blocks (delete a (blocks m)) m.

(** Bytes taken by a block, and the first address above all live blocks:
    fresh blocks are carved there. *)
Definition footprint (b : block) : Z :=
  ALLOC_PAD + elem_bytes * Z.of_nat (length (b_slots b)).

Definition heap_top (bs : gmap Z block) : Z :=
  map_fold (λ a b acc, Z.max acc (a + footprint b)) 1 bs.

(** Whole elements that fit in a block of [bytes] bytes after the header. *)
Definition slots_of_bytes (bytes : Z) : nat :=
  Z.to_nat ((bytes - ALLOC_PAD) / elem_bytes).

(** Payload of [n] slots that keeps what [l] held and leaves the rest
    unwritten. *)
Definition fit_slots (n : nat) (l : list T) : list T :=
  take n l ++ map uninit (seq (length l) (n - length l)).

(** ** Computations

    A computation runs on the handle ([_ptr]) and the heap; it ends with a
    value and the new handle and heap, or in a fault: a trap raised by
    [CRASH_BAD_INDEX], or an access through a pointer that is not inside
    a live block. *)
Inductive outcome (A : Type) : Type :=
  | Done (a : A) (p : Z) (m : Memory)
  | Fault.
Arguments Done {A} a p m.
Arguments Fault {A}.

Definition M (A : Type) : Type := Z → Memory → outcome A.

Definition ret {A} (a : A) : M A := λ p m, Done a p m.
Definition bind {A B} (c : M A) (k : A → M B) : M B :=
  λ p m, match c p m with
         | Done a p' m' => k a p' m'
         | Fault => Fault
         end.
Definition trap {A} : M A := λ _ _, Fault.

Notation "'let!' x ':=' c 'in' k" := (bind c (λ x, k))
  (at level 10, x name, c at level 100, k at level 200).

Definition this_ptr : M Z := λ p m, Done p p m.
Definition set_this_ptr (q : Z) : M unit := λ _ m, Done tt q m.

(** Access to the block with base [a]. *)
Definition read_block {A} (a : Z) (f : block → A) : M A :=
  λ p m, match blocks m !! a with
         | Some b => Done (f b) p m
         | None => Fault
         end.
Definition write_block (a : Z) (f : block → block) : M unit :=
  λ p m, match blocks m !! a with
         | Some b => Done tt p (put_block a (f b) m)
         | None => Fault
         end.

(** The header: the refcount word is at the base, the size word 8 bytes
    above it, the payload [ALLOC_PAD] bytes above it. *)
Definition load_refcount (addr : Z) : M Z := read_block addr b_refcount.
Definition store_refcount (addr v : Z) : M unit := write_block addr (with_refcount v).
Definition load_size (addr : Z) : M Z := read_block (addr - 8) b_size.
Definition store_size (addr v : Z) : M unit := write_block (addr - 8) (with_size v).

(** [q[i]] for a payload pointer [q]. *)
Definition load_elem (q i : Z) : M T :=
  λ p m, match blocks m !! (q - ALLOC_PAD) with
         | Some b =>
             if 0 <=? i then
               match b_slots b !! Z.to_nat i with
               | Some x => Done x p m
               | None => Fault
               end
             else Fault
         | None => Fault
         end.
Definition store_elem (q i : Z) (x : T) : M unit :=
  λ p m, match blocks m !! (q - ALLOC_PAD) with
         | Some b =>
             if (0 <=? i) && (i <? Z.of_nat (length (b_slots b))) then
               Done tt p
                 (put_block (q - ALLOC_PAD) (with_slots (<[Z.to_nat i := x]> (b_slots b)) b) m)
             else Fault
         | None => Fault
         end.

(** A counted loop [for (i = from; ...; i++) body(i)] that runs [n] times. *)
Fixpoint for_up (n : nat) (i : Z) (body : Z → M unit) : M unit :=
  match n with
  | O => ret tt
  | S k => let! _ := body i in for_up k (i + 1) body
  end.

(** ** The allocator

    Modelled from the spec: the raw allocator (core/memory.hpp is not among
    the sources).  A served request yields a block at the top of the heap,
    with nothing written in it; a denied one yields null and leaves the
    heap as it is.  Reallocation keeps the header and the slots that fit
    the new size.  Passing a pointer that is not the base of a live block
    is a fault. *)
Definition pop_verdict (m : Memory) : verdict * Memory :=
  match script m with
  | [] => (Moved, m)
  | v :: s => (v, Mem (blocks m) s)
  end.

Definition alloc_static (bytes : Z) : M Z :=
  λ p m,
    let '(v, m1) := pop_verdict m in
    if served v then
      let a := heap_top (blocks m1) in
      let b := Block 0 0 (fit_slots (slots_of_bytes bytes) []) in
      Done a p (put_block a b m1)
    else Done 0 p m1.

Definition realloc_static (ptr bytes : Z) : M Z :=
  λ p m,
    match blocks m !! ptr with
    | None => Fault
    | Some b =>
        let '(v, m1) := pop_verdict m in
        let b' := with_slots (fit_slots (slots_of_bytes bytes) (b_slots b)) b in
        match v with
        | Deny => Done 0 p m1
        | InPlace => Done ptr p (put_block ptr b' m1)
        | Moved =>
            let a := heap_top (blocks m1) in
            Done a p (put_block a b' (drop_block ptr m1))
        end
    end.

Definition free_static (ptr : Z) : M unit :=
  λ p m,
    match blocks m !! ptr with
    | None => Fault
    | Some _ => Done tt p (drop_block ptr m)
    end.

(** [memcpy] and [memset] on payload pointers; the byte count is turned
    into whole elements (all counts the class passes are multiples of
    [sizeof(T)] unless the multiplication wrapped). *)
Definition memcpy (dst src nbytes : Z) : M unit :=
  λ p m,
    match blocks m !! (dst - ALLOC_PAD), blocks m !! (src - ALLOC_PAD) with
    | Some bd, Some bs =>
        let n := Z.to_nat (nbytes / elem_bytes) in
        if (n <=? length (b_slots bd))%nat && (n <=? length (b_slots bs))%nat then
          Done tt p
            (put_block (dst - ALLOC_PAD)
               (with_slots (take n (b_slots bs) ++ drop n (b_slots bd)) bd) m)
        else Fault
    | _, _ => Fault
    end.

Definition memset_zero (dst from nbytes : Z) : M unit :=
  λ p m,
    match blocks m !! (dst - ALLOC_PAD) with
    | Some b =>
        let n := Z.to_nat (nbytes / elem_bytes) in
        let k := Z.to_nat from in
        if (0 <=? from) && (k + n <=? length (b_slots b))%nat then
          Done tt p
            (put_block (dst - ALLOC_PAD)
               (with_slots (take k (b_slots b) ++ replicate n T_zero ++ drop (k + n) (b_slots b)) b)
               m)
        else Fault
    | None => Fault
    end.

(** ** The atomic counter

    Modelled from the spec: [SafeNumeric<USize>] (templates/safe_refcount.hpp
    is not among the sources): "get(), increment, decrement (returns
    post-decrement value), conditional-increment-if-positive".  One thread
    runs, so each operation is a read followed by a write. *)
Definition SafeNumeric_get (addr : Z) : M Z := load_refcount addr.

Definition SafeNumeric_decrement (addr : Z) : M Z :=
  let! c := load_refcount addr in
  let! _ := store_refcount addr (wrap (c - 1)) in
  ret (wrap (c - 1)).

Definition SafeNumeric_conditional_increment (addr : Z) : M Z :=
  let! c := load_refcount addr in
  if c =? 0 then ret 0
  else
    let! _ := store_refcount addr (wrap (c + 1)) in
    ret (wrap (c + 1)).

(** ** The error macros

    Modelled from the spec: [ERR_FAIL_INDEX], [ERR_FAIL_INDEX_V] and
    [CRASH_BAD_INDEX] (core/error_macros.hpp is not among the sources) test
    [index < 0 || index >= size]; the first two leave the function (with
    the given value), the last one traps. *)
Definition bad_index (i size : Z) : bool := (i <? 0) || (i >=? size).

(** ** The class [CowData<T>] *)

(** [_get_refcount] and [_get_size], for the handle [q]. *)
Definition refcount_addr (q : Z) : Z := if q =? 0 then 0 else q - 16.
Definition size_addr (q : Z) : Z := if q =? 0 then 0 else q - 8.

Definition _get_refcount : M Z := let! p := this_ptr in ret (refcount_addr p).
Definition _get_size : M Z := let! p := this_ptr in ret (size_addr p).

Definition _get_alloc_size (p_elements : Z) : Z :=
  next_po2 (wrap (p_elements * elem_bytes)).

(** The pair is the returned flag and [*out]. *)
Definition _get_alloc_size_checked (p_elements : Z) : bool * Z :=
  if p_elements =? 0 then (true, 0)
  else if checked_arith then
    let o := p_elements * elem_bytes in
    if USIZE_MOD <=? o then (false, 0)
    else
      let out := next_po2 o in
      if USIZE_MOD <=? o + 32 then (false, out)
      else (negb (out =? 0), out)
  else
    let out := _get_alloc_size p_elements in
    (negb (out =? 0), out).

Definition ptr : M Z := this_ptr.

Definition size : M Z :=
  let! sz := _get_size in
  if sz =? 0 then ret 0
  else let! v := load_size sz in ret (to_Size v).

Definition is_empty : M bool := let! p := this_ptr in ret (p =? 0).

Definition _unref (p_data : Z) : M unit :=
  if p_data =? 0 then ret tt
  else
    let! refc := _get_refcount in
    let! c := SafeNumeric_decrement refc in
    if c >? 0 then ret tt (* still in use *)
    else
      let! _ :=
        (if negb trivially_destructible then
           let! count := _get_size in
           let! n := load_size count in
           let data := count + 8 in
           for_up (Z.to_nat n) 0
             (λ i, let! x := load_elem data i in store_elem data i (T_dead x))
         else ret tt) in
      free_static (p_data - ALLOC_PAD).

Definition _copy_on_write : M Z :=
  let! p := this_ptr in
  if p =? 0 then ret 0
  else
    let! refc := _get_refcount in
    let! rc := SafeNumeric_get refc in
    if rc >? 1 then
      (* in use by more than me *)
      let! sz := _get_size in
      let! current_size := load_size sz in
      let! raw := alloc_static (wrap (_get_alloc_size current_size + ALLOC_PAD)) in
      let mem_new := raw + 16 in
      let! _ := store_refcount (mem_new - 16) 1 in
      let! _ := store_size (mem_new - 8) current_size in
      let _data := mem_new in
      let! _ :=
        (if trivially_copyable then
           memcpy mem_new p (wrap (current_size * elem_bytes))
         else
           for_up (Z.to_nat current_size) 0
             (λ i, let! x := load_elem p i in store_elem _data i x)) in
      let! _ := _unref p in
      let! _ := set_this_ptr _data in
      ret 1
    else ret rc.

Definition ptrw : M Z := let! _ := _copy_on_write in this_ptr.

Definition set (p_index : Z) (p_elem : T) : M unit :=
  let! s := size in
  if bad_index p_index s then ret tt
  else
    let! _ := _copy_on_write in
    let! p := this_ptr in
    store_elem p p_index p_elem.

Definition get (p_index : Z) : M T :=
  let! s := size in
  if bad_index p_index s then trap
  else
    let! p := this_ptr in
    load_elem p p_index.

(** The end of the growing branch of [resize]: build the new elements,
    then store the size. *)
Definition resize_construct (p_ensure_zero : bool) (p_size current_size : Z) : M Error :=
  let! _ :=
    (if negb trivially_constructible then
       let! sz := _get_size in
       let! from := load_size sz in
       let! p := this_ptr in
       for_up (Z.to_nat (p_size - to_Size from)) (to_Size from)
         (λ i, store_elem p i T_default)
     else if p_ensure_zero then
       let! p := this_ptr in
       memset_zero p current_size (wrap ((p_size - current_size) * elem_bytes))
     else ret tt) in
  let! sz := _get_size in
  let! _ := store_size sz p_size in
  ret OK.

(** The branch [if (p_size > current_size)] of [resize]. *)
Definition resize_grow (p_ensure_zero : bool) (p_size current_size rc : Z)
    (alloc_size current_alloc_size : Z) : M Error :=
  if negb (alloc_size =? current_alloc_size) then
    if current_size =? 0 then
      (* alloc from scratch *)
      let! raw := alloc_static (wrap (alloc_size + ALLOC_PAD)) in
      let ptr := raw + 16 in
      if ptr =? 0 then ret ERR_OUT_OF_MEMORY
      else
        let! _ := store_size (ptr - 8) 0 in
        let! _ := store_refcount (ptr - 16) 1 in
        let! _ := set_this_ptr ptr in
        resize_construct p_ensure_zero p_size current_size
    else
      let! p := this_ptr in
      let! _ptrnew := realloc_static (p - ALLOC_PAD) (wrap (alloc_size + ALLOC_PAD)) in
      if _ptrnew =? 0 then ret ERR_OUT_OF_MEMORY
      else
        let _ptrnew := _ptrnew + 16 in
        let! _ := store_refcount (_ptrnew - 16) rc in
        let! _ := set_this_ptr _ptrnew in
        resize_construct p_ensure_zero p_size current_size
  else resize_construct p_ensure_zero p_size current_size.

(** The branch [else if (p_size < current_size)] of [resize]. *)
Definition resize_shrink (p_size rc : Z) (alloc_size current_alloc_size : Z) : M Error :=
  let! _ :=
    (if negb trivially_destructible then
       (* deinitialize no longer needed elements *)
       let! sz := _get_size in
       let! n := load_size sz in
       let! p := this_ptr in
       for_up (Z.to_nat (n - p_size)) p_size
         (λ i, let! x := load_elem p i in store_elem p i (T_dead x))
     else ret tt) in
  if negb (alloc_size =? current_alloc_size) then
    let! p := this_ptr in
    let! _ptrnew := realloc_static (p - ALLOC_PAD) (wrap (alloc_size + ALLOC_PAD)) in
    if _ptrnew =? 0 then ret ERR_OUT_OF_MEMORY
    else
      let _ptrnew := _ptrnew + 16 in
      let! _ := store_refcount (_ptrnew - 16) rc in
      let! _ := set_this_ptr _ptrnew in
      let! sz := _get_size in
      let! _ := store_size sz p_size in
      ret OK
  else
    let! sz := _get_size in
    let! _ := store_size sz p_size in
    ret OK.

(** [resize] from the computation of the allocation sizes on, once the
    storage is not shared any more; [rc] is what [_copy_on_write]
    returned. *)
Definition resize_sized (p_ensure_zero : bool) (p_size current_size rc : Z) : M Error :=
  let current_alloc_size := _get_alloc_size (wrap current_size) in
  let '(ok, alloc_size) := _get_alloc_size_checked (wrap p_size) in
  if negb ok then ret ERR_OUT_OF_MEMORY
  else if p_size >? current_size then
    resize_grow p_ensure_zero p_size current_size rc alloc_size current_alloc_size
  else if p_size <? current_size then
    resize_shrink p_size rc alloc_size current_alloc_size
  else ret OK.

Definition resize (p_ensure_zero : bool) (p_size : Z) : M Error :=
  if p_size <? 0 then ret ERR_INVALID_PARAMETER
  else
    let! current_size := size in
    if p_size =? current_size then ret OK
    else if p_size =? 0 then
      (* wants to clean up *)
      let! p := this_ptr in
      let! _ := _unref p in
      let! _ := set_this_ptr 0 in
      ret OK
    else
      (* possibly changing size, copy on write *)
      let! rc := _copy_on_write in
      resize_sized p_ensure_zero p_size current_size rc.


(** [for (Size i = p_index; i < len - 1; i++) p[i] = p[i + 1];] *)
Definition remove_at (p_index : Z) : M unit :=
  let! s := size in
  if bad_index p_index s then ret tt
  else
    let! p := ptrw in
    let! len := size in
    let! _ := for_up (Z.to_nat (len - 1 - p_index)) p_index
                (λ i, let! x := load_elem p (i + 1) in store_elem p i x) in
    let! _ := resize false (len - 1) in
    ret tt.

(** [for (Size i = size() - 1; i > p_pos; i--) set(i, get(i - 1));] with
    as much fuel as the loop has rounds. *)
Fixpoint insert_loop (fuel : nat) (i p_pos : Z) : M unit :=
  match fuel with
  | O => ret tt
  | S k =>
      if i >? p_pos then
        let! x := get (i - 1) in
        let! _ := set i x in
        insert_loop k (i - 1) p_pos
      else ret tt
  end.

(** [insert] after its call of [resize]: the loop and the final write. *)
Definition insert_tail (p_pos : Z) (p_val : T) : M Error :=
  let! s1 := size in
  let! _ := insert_loop (Z.to_nat (s1 - 1 - p_pos)) (s1 - 1) p_pos in
  let! _ := set p_pos p_val in
  ret OK.

(** The result of [resize] is dropped. *)
Definition insert (p_pos : Z) (p_val : T) : M Error :=
  let! s := size in
  if bad_index p_pos (to_Size (wrap (s + 1))) then ret ERR_INVALID_PARAMETER
  else
    let! s0 := size in
    let! _ := resize false (to_Size (wrap (s0 + 1))) in
    insert_tail p_pos p_val.

(** [for (Size i = p_from; i < size(); i++)] *)
Fixpoint find_loop (fuel : nat) (p_val : T) (i : Z) : M Z :=
  match fuel with
  | O => ret (-1)
  | S k =>
      let! s := size in
      if i <? s then
        let! x := get i in
        if T_eqb x p_val then ret i
        else find_loop k p_val (i + 1)
      else ret (-1)
  end.

Definition find (p_val : T) (p_from : Z) : M Z :=
  let! s := size in
  if (p_from <? 0) || (s =? 0) then ret (-1)
  else find_loop (Z.to_nat (s - p_from)) p_val p_from.

(** [for (Size i = p_from; i >= 0; i--)] *)
Fixpoint rfind_loop (fuel : nat) (p_val : T) (i : Z) : M Z :=
  match fuel with
  | O => ret (-1)
  | S k =>
      if i >=? 0 then
        let! x := get i in
        if T_eqb x p_val then ret i
        else rfind_loop k p_val (i - 1)
      else ret (-1)
  end.

Definition rfind (p_val : T) (p_from : Z) : M Z :=
  let! s := size in
  let p_from := if p_from <? 0 then s + p_from else p_from in
  let p_from := if (p_from <? 0) || (p_from >=? s) then s - 1 else p_from in
  rfind_loop (Z.to_nat (p_from + 1)) p_val p_from.

Fixpoint count_loop (fuel : nat) (p_val : T) (i amount : Z) : M Z :=
  match fuel with
  | O => ret amount
  | S k =>
      let! s := size in
      if i <? s then
        let! x := get i in
        count_loop k p_val (i + 1) (if T_eqb x p_val then amount + 1 else amount)
      else ret amount
  end.

Definition count (p_val : T) : M Z :=
  let! s := size in
  count_loop (Z.to_nat s) p_val 0 0.

(** [_ref(p_from)], with [p_from._ptr = from]; [operator=] and the copy
    constructor are this function. *)
Definition _ref (from : Z) : M unit :=
  let! p := this_ptr in
  if p =? from then ret tt (* self assign, do nothing *)
  else
    let! _ := _unref p in
    let! _ := set_this_ptr 0 in
    if from =? 0 then ret tt (* nothing to do *)
    else
      let! c := SafeNumeric_conditional_increment (refcount_addr from) in
      if c >? 0 then set_this_ptr from (* could reference *)
      else ret tt.

Definition assign (from : Z) : M unit := _ref from.

(** The destructor. *)
Definition destroy : M unit := let! p := this_ptr in _unref p.

(** ** The loops over the slots of one block

    What the element-wise loops of [_unref], [_copy_on_write] and [resize]
    make of the slots [l] when they run [n] rounds from index [i] on:
    destruction, construction with a value, and copy from other slots. *)
Fixpoint kill_from (l : list T) (i n : nat) : list T :=
  match n with
  | O => l
  | S k =>
      match l !! i with
      | Some x => kill_from (<[i := T_dead x]> l) (S i) k
      | None => l
      end
  end.

Fixpoint fill_from (x : T) (l : list T) (i n : nat) : list T :=
  match n with
  | O => l
  | S k => fill_from x (<[i := x]> l) (S i) k
  end.

Fixpoint copy_from (src dst : list T) (i n : nat) : list T :=
  match n with
  | O => dst
  | S k =>
      match src !! i with
      | Some x => copy_from src (<[i := x]> dst) (S i) k
      | None => dst
      end
  end.

(** The loop of [insert] on the slots [l]: [k] rounds from index [i]
    downwards, each one copying slot [i - 1] into slot [i]. *)
Fixpoint shift_up (l : list T) (i k : nat) : list T :=
  match k with
  | O => l
  | S k' =>
      match l !! (i - 1)%nat with
      | Some x => shift_up (<[i := x]> l) (i - 1) k'
      | None => l
      end
  end.

(** The slots of the clone that [_copy_on_write] fills from the block [b]:
    by [memcpy] or by the copy-construction loop. *)
Definition clone_slots (b : block) : list T :=
  let fresh := fit_slots (slots_of_bytes (_get_alloc_size (b_size b) + ALLOC_PAD)) [] in
  if trivially_copyable
  then take (Z.to_nat (b_size b)) (b_slots b) ++ drop (Z.to_nat (b_size b)) fresh
  else copy_from (b_slots b) fresh 0 (Z.to_nat (b_size b)).

(** The slots [l] once [resize] has built the elements from [L] up to
    [n]: by the construction loop, by [memset], or not at all. *)
Definition built (p_ensure_zero : bool) (n L : Z) (l : list T) : list T :=
  if negb trivially_constructible then
    fill_from T_default l (Z.to_nat L) (Z.to_nat (n - L))
  else if p_ensure_zero then
    take (Z.to_nat L) l ++ replicate (Z.to_nat (n - L)) T_zero ++
    drop (Z.to_nat L + Z.to_nat (n - L)) l
  else l.

(** The slots [l] once [resize] has destroyed the elements from [n] up
    to [L]. *)
Definition killed (n L : Z) (l : list T) : list T :=
  if negb trivially_destructible then kill_from l (Z.to_nat n) (Z.to_nat (L - n))
  else l.

(** The heap once the head of the script is consumed. *)
Definition pop (m : Memory) : Memory := snd (pop_verdict m).

(** ** Well-formed storage, and what a handle shows *)

(** The handle [p] points into the live block [b]. *)
Definition owns (p : Z) (m : Memory) (b : block) : Prop :=
  0 < p - ALLOC_PAD ∧ blocks m !! (p - ALLOC_PAD) = Some b.

(** The header of a block that handles refer to: a positive refcount, a
    positive length whose byte size did not overflow, and room for the
    power-of-two bucket of that length. *)
Definition block_ok (b : block) : Prop :=
  1 ≤ b_refcount b < USIZE_MOD ∧
  0 < b_size b ≤ MAX_INT ∧
  b_size b * elem_bytes ≤ 2 ^ 63 ∧
  (slots_of_bytes (_get_alloc_size (b_size b) + ALLOC_PAD) ≤ length (b_slots b))%nat.

(** A handle is empty or points to a well-formed block. *)
Definition handle_ok (p : Z) (m : Memory) : Prop :=
  p = 0 ∨ ∃ b, owns p m b ∧ block_ok b.

Definition result_of {A} (o : outcome A) : option A :=
  match o with
  | Done a _ _ => Some a
  | Fault => None
  end.

(** What the public readers answer through the handle [p]. *)
Definition seen_size (p : Z) (m : Memory) : option Z := result_of (size p m).
Definition seen_elem (p : Z) (m : Memory) (i : Z) : option T := result_of (get i p m).

(** The handle [p'] in [m'] shows the sequence that [p] shows in [m]. *)
Definition same_view (p : Z) (m : Memory) (p' : Z) (m' : Memory) : Prop :=
  seen_size p' m' = seen_size p m ∧ ∀ i, seen_elem p' m' i = seen_elem p m i.

(** The element that the handle shows at index [i] equals [v]. *)
Definition matches (v : T) (p : Z) (m : Memory) (i : Z) : Prop :=
  ∃ x, seen_elem p m i = Some x ∧ T_eqb x v = true.

(** [r] is the lowest index from [from] on that matches, or -1 when there
    is none. *)
Definition lowest_match (v : T) (p : Z) (m : Memory) (from r : Z) : Prop :=
  (r = -1 ∧ ∀ i, from ≤ i → ¬ matches v p m i) ∨
  (from ≤ r ∧ matches v p m r ∧ ∀ i, from ≤ i < r → ¬ matches v p m i).

(** [r] is the greatest index up to [start] that matches, or -1 when
    there is none. *)
Definition highest_match (v : T) (p : Z) (m : Memory) (start r : Z) : Prop :=
  (r = -1 ∧ ∀ i, i ≤ start → ¬ matches v p m i) ∨
  (r ≤ start ∧ matches v p m r ∧ ∀ i, r < i ≤ start → ¬ matches v p m i).

(** Where [rfind] starts in a buffer of [s] elements: a negative [from]
    counts from the end, and an index that is then still outside the
    buffer is replaced by the last one. *)
Definition rfind_start (s from : Z) : Z :=
  let from := if from <? 0 then s + from else from in
  if (from <? 0) || (from >=? s) then s - 1 else from.

(** The start of [rfind] in the words of the specification: the index
    relative to the end when negative, then clamped into [0, s - 1]. *)
Definition clamp (lo hi x : Z) : Z := Z.max lo (Z.min x hi).
Definition rfind_start_clamped (s from : Z) : Z :=
  clamp 0 (s - 1) (if from <? 0 then s + from else from).

(** The first [k] elements that [p'] shows in [m'] are those that [p]
    shows in [m]. *)
Definition prefix_kept (k : Z) (p : Z) (m : Memory) (p' : Z) (m' : Memory) : Prop :=
  ∀ i, 0 ≤ i < k → seen_elem p' m' i = seen_elem p m i.

(** The mutating operations of the isolation property. *)
Inductive mutation : Type :=
  | Mset (i : Z) (x : T)
  | Mresize (p_ensure_zero : bool) (n : Z)
  | Minsert (pos : Z) (x : T).

Definition mutate (mu : mutation) : M unit :=
  match mu with
  | Mset i x => set i x
  | Mresize ez n => let! _ := resize ez n in ret tt
  | Minsert pos x => let! _ := insert pos x in ret tt
  end.

(** A length that [Size] can hold and whose bucket [USize] can hold. *)
Definition fits (n : Z) : Prop := n ≤ MAX_INT ∧ n * elem_bytes ≤ 2 ^ 63.

(** The capacity arithmetic for [n] elements, done on unbounded integers,
    leaves the range of [USize]: in the product, in its rounding up to a
    power of two, or when the header pad is added. *)
Definition capacity_overflows (n : Z) : Prop :=
  USIZE_MOD ≤ n * elem_bytes ∨
  USIZE_MOD ≤ 2 ^ Z.log2_up (n * elem_bytes) ∨
  USIZE_MOD ≤ 2 ^ Z.log2_up (n * elem_bytes) + ALLOC_PAD.

(** The overflows that [_get_alloc_size_checked] reports: all of them in
    a build with the checked branch, and elsewhere those in which the
    product itself still fits [USize]. *)
Definition overflow_reported (n : Z) : Prop :=
  checked_arith = true ∨ n * elem_bytes < USIZE_MOD.

(** The lengths that a mutation of a buffer of [L] elements asks for are
    in range. *)
Definition mutation_fits (L : Z) (mu : mutation) : Prop :=
  match mu with
  | Mset _ _ => True
  | Mresize _ n => n ≤ MAX_INT ∧ overflow_reported n
  | Minsert _ _ => fits (L + 1)
  end.

(** The heap as [resize] finds it when it asks for the reallocation: a
    shared block has been cloned before, which took one verdict. *)
Definition after_clone (b : block) (m : Memory) : Memory :=
  if 1 <? b_refcount b then pop m else m.

(** The live elements of a block. *)
Definition contents (b : block) : list T :=
  take (Z.to_nat (b_size b)) (b_slots b).

(** The handle [p] is the only one that refers to the well-formed block
    [b]. *)
Definition holds (p : Z) (m : Memory) (b : block) : Prop :=
  owns p m b ∧ block_ok b ∧ b_refcount b = 1.

(** Every block of [m] other than the one at base [k] is in [m'] as it was,
    and is not the block of the handle [p']. *)
Definition others_kept (k : Z) (m : Memory) (p' : Z) (m' : Memory) : Prop :=
  ∀ a ba, blocks m !! a = Some ba → a ≠ k → blocks m' !! a = Some ba ∧ a ≠ p' - 16.

(** The head of the script serves the next request. *)
Definition next_served (m : Memory) : bool :=
  match script m with
  | v :: _ => served v
  | [] => true
  end.

(** No request will be denied. *)
Definition all_served (m : Memory) : bool := forallb served (script m).

(** What [resize] to [n] elements leaves, when it started from a buffer of
    [L] elements held in the slots [l0]: the handle holds a block of its
    own whose first [min L n] slots are those of [l0]; the block has [n]
    elements when the call returned [OK], and still [L] when it returned
    [ERR_OUT_OF_MEMORY], which is what a denied request for another
    bucket gives. *)
Definition resized (l0 : list T) (L n : Z) (m : Memory)
    (r : Error) (p' : Z) (m' : Memory) : Prop :=
  (all_served m = true → all_served m' = true) ∧
  (next_served m = true → r = OK) ∧
  (next_served m = false → _get_alloc_size n ≠ _get_alloc_size L →
   r = ERR_OUT_OF_MEMORY) ∧
  ∃ b', holds p' m' b' ∧
    (∀ j : nat, (j < Z.to_nat (Z.min L n))%nat → b_slots b' !! j = l0 !! j) ∧
    ((r = OK ∧ b_size b' = n) ∨
     (r = ERR_OUT_OF_MEMORY ∧ b_size b' = L ∧
      (L < n ∨ trivially_destructible = true →
       ∀ j : nat, (j < Z.to_nat L)%nat → b_slots b' !! j = l0 !! j))).

(** ** The rest of the class: what its other members are measured against *)

(** The loop of [remove_at] on the slots [l]: [k] rounds from index [i]
    upwards, each one copying slot [i + 1] into slot [i]. *)
Fixpoint shift_down (l : list T) (i k : nat) : list T :=
  match k with
  | O => l
  | S k' =>
      match l !! S i with
      | Some x => shift_down (<[i := x]> l) (S i) k'
      | None => l
      end
  end.

(** The sequence of elements of the buffer behind the handle [p]. *)
Definition shown (p : Z) (m : Memory) : list T :=
  if p =? 0 then []
  else
    match blocks m !! (p - ALLOC_PAD) with
    | Some b => contents b
    | None => []
    end.

(** How many elements of [l] equal [v]. *)
Fixpoint occurrences (v : T) (l : list T) : Z :=
  match l with
  | [] => 0
  | x :: l' => (if T_eqb x v then 1 else 0) + occurrences v l'
  end.

(** The destructors of [k] handles that all have the same [_ptr], one
    after the other. *)
Fixpoint destroy_each (k : nat) : M unit :=
  match k with
  | O => ret tt
  | S k' => let! _ := destroy in destroy_each k'
  end.

End CowData.

Arguments block T : clear implicits.
Arguments Memory T : clear implicits.
Arguments outcome T A : clear implicits.
Arguments M T A : clear implicits.
Arguments Done {T A} a p m.
Arguments Fault {T A}.

Notation "'let!' x ':=' c 'in' k" := (bind c (λ x, k))
  (at level 10, x name, c at level 100, k at level 200).

(** ** A concrete element type, build and heaps

    [int32_t] elements in a build without the checked branch (any 64-bit
    build), and heaps with the buffer [10, 11, 12] in a block of four
    slots at base 1: a handle to it has [_ptr = 17]. *)
Global Instance int32 : ElemType Z := {|
  T_eqb := Z.eqb;
  sizeof_T := 4;
  trivially_constructible := true;
  trivially_copyable := true;
  trivially_destructible := true;
  T_default := 0;
  T_zero := 0;
  T_dead := λ x, x;
  uninit := λ i, - Z.of_nat i - 1
|}.

Global Instance build64 : Build := {| checked_arith := false |}.

Definition heap_empty (sc : list verdict) : Memory Z := Mem ∅ sc.

Definition abc (rc : Z) : block Z := Block rc 3 [10; 11; 12; -4].

Definition heap_abc (rc : Z) (sc : list verdict) : Memory Z :=
  Mem {[ 1 := abc rc ]} sc.

(** The buffer [10, 11, 12, 13], which fills its bucket. *)
Definition abcd : block Z := Block 1 4 [10; 11; 12; 13].

Definition heap_abcd (sc : list verdict) : Memory Z :=
  Mem {[ 1 := abcd ]} sc.

(** A second buffer, [7], in a block of one slot at base 33: a handle
    to it has [_ptr = 49]. *)
Definition seven (rc : Z) : block Z := Block rc 1 [7].

Definition heap_two (rc rc' : Z) (sc : list verdict) : Memory Z :=
  Mem {[ 1 := abc rc; 33 := seven rc' ]} sc.

(** A build that compiles the checked branch (GCC, 32 bit). *)
Definition gcc32 : Build := {| checked_arith := true |}.

(** A length whose byte size wraps around to 4, and one whose byte size
    is above [2 ^ 63] and below [2 ^ 64]. *)
Definition wrapping_length : Z := 2 ^ 62 + 1.
Definition oversized_length : Z := 2 ^ 61 + 1.

(** The handle and the heap that a computation ends with. *)
Definition ptr_of {A} (o : outcome Z A) : Z :=
  match o with
  | Done _ p _ => p
  | Fault => 0
  end.
Definition heap_of {A} (o : outcome Z A) : Memory Z :=
  match o with
  | Done _ _ m => m
  | Fault => heap_empty []
  end.

(** * Proofs *)


Lemma wrap_small x : 0 ≤ x < USIZE_MOD → wrap x = x.
Proof. intros. unfold wrap. apply Z.mod_small; lia. Qed.

Lemma to_Size_small x : x ≤ MAX_INT → to_Size x = x.
Proof. intros. unfold to_Size. destruct (Z.leb_spec x MAX_INT); lia. Qed.

Lemma smear_step n w w' r :
  0 < w → w' = 2 * w → smeared n w r → smeared n w' (smear r w).
Proof.
  intros Hw -> (Hr & Hlog & Hbits). unfold smear.
  assert (0 ≤ Z.shiftr r w) by (apply Z.shiftr_nonneg; lia).
  assert (Hl : Z.log2 (Z.lor r (Z.shiftr r w)) = n).
  { rewrite Z.log2_lor by lia. rewrite Z.log2_shiftr by lia.
    pose proof (Z.log2_nonneg r). lia. }
  split; [|split; [exact Hl|]].
  - assert (0 ≤ Z.lor r (Z.shiftr r w)) by (apply Z.lor_nonneg; lia).
    destruct (Z.eq_dec (Z.lor r (Z.shiftr r w)) 0) as [E|]; [|lia].
    apply Z.lor_eq_0_iff in E. lia.
  - intros i Hi Hrange. rewrite Z.lor_spec, Z.shiftr_spec by lia.
    destruct (Z_lt_le_dec (n - w) i).
    + rewrite Hbits by lia. reflexivity.
    + rewrite (Hbits (i + w)) by lia. apply orb_true_r.
Qed.

Lemma smeared_ones n w r : 0 ≤ n < w → smeared n w r → r = Z.ones (n + 1).
Proof.
  intros Hn (Hr & Hlog & Hbits). apply Z.bits_inj'. intros i Hi.
  rewrite Z.testbit_ones_nonneg by lia.
  destruct (Z.ltb_spec i (n + 1)).
  - apply Hbits; lia.
  - apply Z.bits_above_log2; lia.
Qed.

Lemma next_po2_pow2 x : 0 < x ≤ 2 ^ 63 → next_po2 x = 2 ^ Z.log2_up x.
Proof.
  intros Hx. unfold next_po2.
  destruct (Z.eqb_spec x 0) as [|_]; [lia|].
  destruct (Z.eq_dec x 1) as [->|Hx1]; [reflexivity|].
  rewrite (wrap_small (x - 1)) by (unfold USIZE_MOD; lia).
  set (n := Z.log2 (x - 1)).
  assert (Hn : 0 ≤ n < 63).
  { split; [apply Z.log2_nonneg|]. apply Z.log2_lt_pow2; lia. }
  assert (H0 : smeared n 1 (x - 1)).
  { split; [lia|]. split; [reflexivity|]. intros i _ Hi.
    replace i with n by lia. apply Z.bit_log2. lia. }
  apply (smear_step _ 1 2) in H0; [|lia..].
  apply (smear_step _ 2 4) in H0; [|lia..].
  apply (smear_step _ 4 8) in H0; [|lia..].
  apply (smear_step _ 8 16) in H0; [|lia..].
  apply (smear_step _ 16 32) in H0; [|lia..].
  apply (smear_step _ 32 64) in H0; [|lia..].
  apply smeared_ones in H0; [|lia]. rewrite H0.
  rewrite Z.ones_equiv.
  replace (Z.pred (2 ^ (n + 1)) + 1) with (2 ^ (n + 1)) by lia.
  assert (2 ^ (n + 1) ≤ 2 ^ 63) by (apply Z.pow_le_mono_r; lia).
  assert (0 < 2 ^ (n + 1)) by (apply Z.pow_pos_nonneg; lia).
  assert (Hup : Z.log2_up x = n + 1).
  { unfold Z.log2_up. destruct (Z.compare_spec 1 x); try lia.
    subst n. replace (Z.pred x) with (x - 1) by lia. lia. }
  clearbody n. rewrite wrap_small by (unfold USIZE_MOD; lia).
  congruence.
Qed.

Lemma next_po2_overflow x : 2 ^ 63 < x < 2 ^ 64 → next_po2 x = 0.
Proof.
  intros Hx. unfold next_po2.
  destruct (Z.eqb_spec x 0) as [|_]; [lia|].
  rewrite (wrap_small (x - 1)) by (unfold USIZE_MOD; lia).
  assert (Hn : Z.log2 (x - 1) = 63).
  { apply Z.log2_unique; lia. }
  assert (H0 : smeared 63 1 (x - 1)).
  { split; [lia|]. split; [exact Hn|]. intros i _ Hi.
    replace i with (Z.log2 (x - 1)) by lia. apply Z.bit_log2. lia. }
  apply (smear_step _ 1 2) in H0; [|lia..].
  apply (smear_step _ 2 4) in H0; [|lia..].
  apply (smear_step _ 4 8) in H0; [|lia..].
  apply (smear_step _ 8 16) in H0; [|lia..].
  apply (smear_step _ 16 32) in H0; [|lia..].
  apply (smear_step _ 32 64) in H0; [|lia..].
  apply smeared_ones in H0; [|lia]. rewrite H0. reflexivity.
Qed.

Lemma next_po2_bounds x : 0 < x ≤ 2 ^ 63 → x ≤ next_po2 x ≤ 2 ^ 63.
Proof.
  intros Hx. rewrite next_po2_pow2 by exact Hx. split.
  - apply Z.log2_log2_up_spec. lia.
  - apply Z.pow_le_mono_r; [lia|]. apply Z.log2_up_le_pow2; lia.
Qed.

Section Proofs.
Context {T : Type} {E : ElemType T} {B : Build}.
Implicit Types (p q a i : Z) (m : Memory T) (b : block T) (l : list T).

Lemma elem_bytes_pos : 0 < elem_bytes.
Proof. unfold elem_bytes. lia. Qed.

Lemma footprint_pos b : 0 < footprint b.
Proof. unfold footprint, ALLOC_PAD. pose proof elem_bytes_pos. nia. Qed.

Lemma heap_top_above (bs : gmap Z (block T)) :
  1 ≤ heap_top bs ∧ ∀ a b, bs !! a = Some b → a + footprint b ≤ heap_top bs.
Proof.
  unfold heap_top.
  apply (map_fold_weak_ind
    (λ r (bs : gmap Z (block T)), 1 ≤ r ∧ ∀ a b, bs !! a = Some b → a + footprint b ≤ r)).
  - split; [lia|]. intros a b Hab. rewrite lookup_empty in Hab. discriminate.
  - intros k x bs' r Hk [Hr IH]. split; [lia|].
    intros a b Hab. destruct (decide (k = a)) as [->|Hne].
    + rewrite lookup_insert_eq in Hab. injection Hab as ->. lia.
    + rewrite lookup_insert_ne in Hab by exact Hne. apply IH in Hab. lia.
Qed.

Lemma heap_top_fresh (bs : gmap Z (block T)) : bs !! heap_top bs = None.
Proof.
  destruct (bs !! heap_top bs) as [b|] eqn:Hb; [|reflexivity].
  apply heap_top_above in Hb. pose proof (footprint_pos b). lia.
Qed.

Lemma heap_top_pos (bs : gmap Z (block T)) : 0 < heap_top bs.
Proof. pose proof (heap_top_above bs). lia. Qed.

(** *** Stepping through a computation *)

Lemma bind_Done {A C} (c : M T A) (k : A → M T C) p m (r : A) p' m' :
  c p m = Done r p' m' → bind c k p m = k r p' m'.
Proof. intros H. unfold bind. rewrite H. reflexivity. Qed.

Lemma size_null m : size 0 m = Done 0 0 m.
Proof. reflexivity. Qed.

Lemma owns_nonnull p m b : owns p m b → (p =? 0) = false.
Proof. intros [Hp _]. unfold ALLOC_PAD in Hp. apply Z.eqb_neq. lia. Qed.

Lemma size_owns p m b : owns p m b → size p m = Done (to_Size (b_size b)) p m.
Proof.
  intros Ho. pose proof (owns_nonnull _ _ _ Ho) as Hnz. destruct Ho as [Hp Hb].
  unfold size, _get_size, bind, this_ptr, ret, size_addr, load_size, read_block.
  rewrite Hnz. unfold ALLOC_PAD in *.
  destruct (Z.eqb_spec (p - 8) 0); [lia|].
  replace (p - 8 - 8) with (p - 16) by lia. rewrite Hb. reflexivity.
Qed.

Lemma get_owns p m b i x :
  owns p m b → 0 ≤ i < to_Size (b_size b) → b_slots b !! Z.to_nat i = Some x →
  get i p m = Done x p m.
Proof.
  intros Ho Hi Hx. unfold get. rewrite (bind_Done _ _ _ _ _ _ _ (size_owns _ _ _ Ho)).
  unfold bad_index. destruct (Z.ltb_spec i 0); [lia|].
  destruct (Z.geb_spec i (to_Size (b_size b))); [lia|]. simpl.
  unfold bind, this_ptr, load_elem. destruct Ho as [_ ->].
  destruct (Z.leb_spec 0 i); [|lia]. rewrite Hx. reflexivity.
Qed.

Lemma get_bad_index p m i s : size p m = Done s p m → bad_index i s = true → get i p m = Fault.
Proof. intros Hs Hbad. unfold get. rewrite (bind_Done _ _ _ _ _ _ _ Hs), Hbad. reflexivity. Qed.

(** *** The heap under updates *)

Lemma lookup_put_eq a b m : blocks (put_block a b m) !! a = Some b.
Proof. unfold put_block, with_blocks. simpl. apply lookup_insert_eq. Qed.

Lemma lookup_put_ne a a' b m : a ≠ a' → blocks (put_block a b m) !! a' = blocks m !! a'.
Proof. intros. unfold put_block, with_blocks. simpl. apply lookup_insert_ne. assumption. Qed.

Lemma put_put a b1 b2 m : put_block a b2 (put_block a b1 m) = put_block a b2 m.
Proof. unfold put_block, with_blocks. simpl. f_equal. apply insert_insert_eq. Qed.

Lemma script_put a b m : script (put_block a b m) = script m.
Proof. reflexivity. Qed.

Lemma lookup_drop_eq a m : blocks (drop_block a m) !! a = None.
Proof. unfold drop_block, with_blocks. simpl. apply lookup_delete_eq. Qed.

Lemma lookup_drop_ne a a' m : a ≠ a' → blocks (drop_block a m) !! a' = blocks m !! a'.
Proof. intros. unfold drop_block, with_blocks. simpl. apply lookup_delete_ne. assumption. Qed.

Lemma drop_put a b m : drop_block a (put_block a b m) = drop_block a m.
Proof. unfold drop_block, put_block, with_blocks. simpl. f_equal. apply delete_insert_eq. Qed.

(** *** The header and the slots of the block of a handle *)

Section Block.
Variables (q : Z) (m : Memory T) (b : block T).
Hypothesis Hb : blocks m !! (q - 16) = Some b.

Lemma load_refcount_at p : load_refcount (q - 16) p m = Done (b_refcount b) p m.
Proof. unfold load_refcount, read_block. rewrite Hb. reflexivity. Qed.

Lemma store_refcount_at v p :
  store_refcount (q - 16) v p m = Done tt p (put_block (q - 16) (with_refcount v b) m).
Proof. unfold store_refcount, write_block. rewrite Hb. reflexivity. Qed.

Lemma load_size_at p : load_size (q - 8) p m = Done (b_size b) p m.
Proof.
  unfold load_size, read_block. replace (q - 8 - 8) with (q - 16) by lia.
  rewrite Hb. reflexivity.
Qed.

Lemma store_size_at v p :
  store_size (q - 8) v p m = Done tt p (put_block (q - 16) (with_size v b) m).
Proof.
  unfold store_size, write_block. replace (q - 8 - 8) with (q - 16) by lia.
  rewrite Hb. reflexivity.
Qed.

Lemma load_elem_at i x p :
  0 ≤ i → b_slots b !! Z.to_nat i = Some x → load_elem q i p m = Done x p m.
Proof.
  intros Hi Hx. unfold load_elem, ALLOC_PAD. rewrite Hb.
  destruct (Z.leb_spec 0 i); [|lia]. rewrite Hx. reflexivity.
Qed.

Lemma store_elem_at i x p :
  0 ≤ i < Z.of_nat (length (b_slots b)) →
  store_elem q i x p m =
    Done tt p (put_block (q - 16) (with_slots (<[Z.to_nat i := x]> (b_slots b)) b) m).
Proof.
  intros Hi. unfold store_elem, ALLOC_PAD. rewrite Hb.
  destruct (Z.leb_spec 0 i); [|lia].
  destruct (Z.ltb_spec i (Z.of_nat (length (b_slots b)))); [|lia]. reflexivity.
Qed.

Lemma SafeNumeric_get_at p : SafeNumeric_get (q - 16) p m = Done (b_refcount b) p m.
Proof. apply load_refcount_at. Qed.

Lemma SafeNumeric_decrement_at p :
  SafeNumeric_decrement (q - 16) p m =
    Done (wrap (b_refcount b - 1)) p
      (put_block (q - 16) (with_refcount (wrap (b_refcount b - 1)) b) m).
Proof.
  unfold SafeNumeric_decrement.
  rewrite (bind_Done _ _ _ _ _ _ _ (load_refcount_at p)).
  rewrite (bind_Done _ _ _ _ _ _ _ (store_refcount_at _ p)). reflexivity.
Qed.

Lemma SafeNumeric_conditional_increment_at p :
  b_refcount b ≠ 0 →
  SafeNumeric_conditional_increment (q - 16) p m =
    Done (wrap (b_refcount b + 1)) p
      (put_block (q - 16) (with_refcount (wrap (b_refcount b + 1)) b) m).
Proof.
  intros Hnz. unfold SafeNumeric_conditional_increment.
  rewrite (bind_Done _ _ _ _ _ _ _ (load_refcount_at p)).
  destruct (Z.eqb_spec (b_refcount b) 0); [contradiction|].
  rewrite (bind_Done _ _ _ _ _ _ _ (store_refcount_at _ p)). reflexivity.
Qed.

End Block.

(** *** The loops over slots *)

Lemma length_kill_from l (i n : nat) : length (kill_from l i n) = length l.
Proof.
  revert l i. induction n as [|n IH]; intros l i; simpl; [reflexivity|].
  destruct (l !! i); [|reflexivity]. rewrite IH. apply length_insert.
Qed.

Lemma lookup_kill_from_lt l (i n j : nat) : (j < i)%nat → kill_from l i n !! j = l !! j.
Proof.
  revert l i. induction n as [|n IH]; intros l i Hj; simpl; [reflexivity|].
  destruct (l !! i); [|reflexivity].
  rewrite IH by lia. apply list_lookup_insert_ne. lia.
Qed.

Lemma length_fill_from x l (i n : nat) : length (fill_from x l i n) = length l.
Proof.
  revert l i. induction n as [|n IH]; intros l i; simpl; [reflexivity|].
  rewrite IH. apply length_insert.
Qed.

Lemma lookup_fill_from_lt x l (i n j : nat) : (j < i)%nat → fill_from x l i n !! j = l !! j.
Proof.
  revert l i. induction n as [|n IH]; intros l i Hj; simpl; [reflexivity|].
  rewrite IH by lia. apply list_lookup_insert_ne. lia.
Qed.

Lemma lookup_fill_from_in x l (i n j : nat) :
  (i ≤ j < i + n)%nat → (j < length l)%nat → fill_from x l i n !! j = Some x.
Proof.
  revert l i. induction n as [|n IH]; intros l i Hj Hl; simpl; [lia|].
  destruct (decide (j = i)) as [->|Hne].
  - rewrite lookup_fill_from_lt by lia. apply list_lookup_insert_eq. exact Hl.
  - apply IH; [lia|]. rewrite length_insert. exact Hl.
Qed.

Lemma length_copy_from (src dst : list T) (i n : nat) : length (copy_from src dst i n) = length dst.
Proof.
  revert dst i. induction n as [|n IH]; intros dst i; simpl; [reflexivity|].
  destruct (src !! i); [|reflexivity]. rewrite IH. apply length_insert.
Qed.

Lemma lookup_copy_from_lt (src dst : list T) (i n j : nat) :
  (j < i)%nat → copy_from src dst i n !! j = dst !! j.
Proof.
  revert dst i. induction n as [|n IH]; intros dst i Hj; simpl; [reflexivity|].
  destruct (src !! i); [|reflexivity].
  rewrite IH by lia. apply list_lookup_insert_ne. lia.
Qed.

Lemma lookup_copy_from_in (src dst : list T) (i n j : nat) :
  (i ≤ j < i + n)%nat → (i + n ≤ length src)%nat → (i + n ≤ length dst)%nat →
  copy_from src dst i n !! j = src !! j.
Proof.
  revert dst i. induction n as [|n IH]; intros dst i Hj Hs Hd; simpl; [lia|].
  destruct (lookup_lt_is_Some_2 src i) as [x Hx]; [lia|]. rewrite Hx.
  destruct (decide (j = i)) as [->|Hne].
  - rewrite lookup_copy_from_lt by lia. rewrite Hx.
    apply list_lookup_insert_eq. lia.
  - apply IH; [lia|lia|]. rewrite length_insert. lia.
Qed.

Lemma with_slots_id b : with_slots (b_slots b) b = b.
Proof. destruct b. reflexivity. Qed.

Lemma put_id a b m : blocks m !! a = Some b → put_block a b m = m.
Proof.
  intros H. destruct m as [bs sc]. unfold put_block, with_blocks. simpl in *.
  f_equal. apply insert_id. exact H.
Qed.

Lemma for_up_kill q p (n : nat) : ∀ (i : nat) m b,
  blocks m !! (q - 16) = Some b →
  (i + n ≤ length (b_slots b))%nat →
  for_up n (Z.of_nat i)
    (λ j, let! x := load_elem q j in store_elem q j (T_dead x)) p m =
  Done tt p (put_block (q - 16) (with_slots (kill_from (b_slots b) i n) b) m).
Proof.
  induction n as [|n IH]; intros i m b Hb Hn; simpl.
  - rewrite with_slots_id, (put_id _ _ _ Hb). reflexivity.
  - destruct (lookup_lt_is_Some_2 (b_slots b) i) as [x Hx]; [lia|]. rewrite Hx.
    assert (Hload : load_elem q (Z.of_nat i) p m = Done x p m).
    { apply (load_elem_at q m b Hb); [lia|]. rewrite Nat2Z.id. exact Hx. }
    assert (Hbody : (let! x := load_elem q (Z.of_nat i) in
                     store_elem q (Z.of_nat i) (T_dead x)) p m =
              Done tt p (put_block (q - 16) (with_slots (<[i := T_dead x]> (b_slots b)) b) m)).
    { rewrite (bind_Done _ _ _ _ _ _ _ Hload).
      rewrite (store_elem_at q m b Hb) by lia. rewrite Nat2Z.id. reflexivity. }
    rewrite (bind_Done _ _ _ _ _ _ _ Hbody).
    replace (Z.of_nat i + 1) with (Z.of_nat (S i)) by lia.
    rewrite (IH (S i) _ _ (lookup_put_eq _ _ _)) by (simpl; rewrite length_insert; lia).
    rewrite put_put. reflexivity.
Qed.

Lemma for_up_fill q p x (n : nat) : ∀ (i : nat) m b,
  blocks m !! (q - 16) = Some b →
  (i + n ≤ length (b_slots b))%nat →
  for_up n (Z.of_nat i) (λ j, store_elem q j x) p m =
  Done tt p (put_block (q - 16) (with_slots (fill_from x (b_slots b) i n) b) m).
Proof.
  induction n as [|n IH]; intros i m b Hb Hn; simpl.
  - rewrite with_slots_id, (put_id _ _ _ Hb). reflexivity.
  - assert (Hst := store_elem_at q m b Hb (Z.of_nat i) x p ltac:(lia)).
    rewrite Nat2Z.id in Hst. rewrite (bind_Done _ _ _ _ _ _ _ Hst).
    replace (Z.of_nat i + 1) with (Z.of_nat (S i)) by lia.
    rewrite (IH (S i) _ _ (lookup_put_eq _ _ _)) by (simpl; rewrite length_insert; lia).
    rewrite put_put. reflexivity.
Qed.

Lemma for_up_copy q q' p src (n : nat) : ∀ (i : nat) m b,
  q - 16 ≠ q' - 16 →
  blocks m !! (q - 16) = Some src →
  blocks m !! (q' - 16) = Some b →
  (i + n ≤ length (b_slots src))%nat →
  (i + n ≤ length (b_slots b))%nat →
  for_up n (Z.of_nat i)
    (λ j, let! x := load_elem q j in store_elem q' j x) p m =
  Done tt p
    (put_block (q' - 16) (with_slots (copy_from (b_slots src) (b_slots b) i n) b) m).
Proof.
  induction n as [|n IH]; intros i m b Hne Hs Hb Hns Hnb; simpl.
  - rewrite with_slots_id, (put_id _ _ _ Hb). reflexivity.
  - destruct (lookup_lt_is_Some_2 (b_slots src) i) as [x Hx]; [lia|]. rewrite Hx.
    assert (Hload : load_elem q (Z.of_nat i) p m = Done x p m).
    { apply (load_elem_at q m src Hs); [lia|]. rewrite Nat2Z.id. exact Hx. }
    assert (Hbody : (let! x := load_elem q (Z.of_nat i) in
                     store_elem q' (Z.of_nat i) x) p m =
              Done tt p (put_block (q' - 16) (with_slots (<[i := x]> (b_slots b)) b) m)).
    { rewrite (bind_Done _ _ _ _ _ _ _ Hload).
      rewrite (store_elem_at q' m b Hb) by lia. rewrite Nat2Z.id. reflexivity. }
    rewrite (bind_Done _ _ _ _ _ _ _ Hbody).
    replace (Z.of_nat i + 1) with (Z.of_nat (S i)) by lia.
    rewrite (IH (S i) _ (with_slots (<[i:=x]> (b_slots b)) b) Hne).
    + rewrite put_put. reflexivity.
    + rewrite lookup_put_ne by (intros Heq; apply Hne; symmetry; exact Heq). exact Hs.
    + apply lookup_put_eq.
    + lia.
    + simpl. rewrite length_insert. lia.
Qed.

(** *** The allocator *)

Lemma blocks_pop m : blocks (pop m) = blocks m.
Proof. unfold pop, pop_verdict. destruct (script m); reflexivity. Qed.

Lemma pop_verdict_pop m : pop_verdict m = (fst (pop_verdict m), pop m).
Proof. unfold pop. destruct (pop_verdict m). reflexivity. Qed.

Lemma next_served_verdict m : next_served m = served (fst (pop_verdict m)).
Proof. unfold next_served, pop_verdict. destruct (script m); reflexivity. Qed.

Lemma alloc_static_served bytes p m :
  next_served m = true →
  alloc_static bytes p m =
    Done (heap_top (blocks m)) p
      (put_block (heap_top (blocks m)) (Block 0 0 (fit_slots (slots_of_bytes bytes) [])) (pop m)).
Proof.
  intros Hs. unfold alloc_static. rewrite pop_verdict_pop.
  rewrite <- next_served_verdict, Hs, blocks_pop. reflexivity.
Qed.

Lemma alloc_static_denied bytes p m :
  next_served m = false → alloc_static bytes p m = Done 0 p (pop m).
Proof.
  intros Hs. unfold alloc_static. rewrite pop_verdict_pop.
  rewrite <- next_served_verdict, Hs. reflexivity.
Qed.

Lemma realloc_static_at ptr bytes p m b :
  blocks m !! ptr = Some b →
  realloc_static ptr bytes p m =
    let b' := with_slots (fit_slots (slots_of_bytes bytes) (b_slots b)) b in
    match fst (pop_verdict m) with
    | Deny => Done 0 p (pop m)
    | InPlace => Done ptr p (put_block ptr b' (pop m))
    | Moved =>
        Done (heap_top (blocks m)) p
          (put_block (heap_top (blocks m)) b' (drop_block ptr (pop m)))
    end.
Proof.
  intros Hb. unfold realloc_static. rewrite Hb, pop_verdict_pop. simpl.
  rewrite blocks_pop. reflexivity.
Qed.

Lemma free_static_at ptr p m b :
  blocks m !! ptr = Some b → free_static ptr p m = Done tt p (drop_block ptr m).
Proof. intros Hb. unfold free_static. rewrite Hb. reflexivity. Qed.

Lemma length_fit_slots (n : nat) l : length (fit_slots n l) = n.
Proof.
  unfold fit_slots. rewrite length_app, length_take, length_map, length_seq. lia.
Qed.

Lemma lookup_fit_slots (n j : nat) l :
  (j < n)%nat → (j < length l)%nat → fit_slots n l !! j = l !! j.
Proof.
  intros Hn Hl. unfold fit_slots.
  rewrite lookup_app_l by (rewrite length_take; lia).
  apply lookup_take_lt. exact Hn.
Qed.

(** *** Well-formed blocks *)

Lemma alloc_size_bounds n :
  0 < n → n * elem_bytes ≤ 2 ^ 63 →
  n * elem_bytes ≤ _get_alloc_size n ≤ 2 ^ 63.
Proof.
  intros Hn Hb. unfold _get_alloc_size. pose proof elem_bytes_pos.
  rewrite wrap_small by (unfold USIZE_MOD; nia).
  apply next_po2_bounds. nia.
Qed.

Lemma slots_of_bytes_pad x : slots_of_bytes (x + ALLOC_PAD) = Z.to_nat (x / elem_bytes).
Proof. unfold slots_of_bytes. f_equal. f_equal. lia. Qed.

Lemma room_for n :
  0 < n → n * elem_bytes ≤ 2 ^ 63 →
  n ≤ Z.of_nat (slots_of_bytes (_get_alloc_size n + ALLOC_PAD)).
Proof.
  intros Hn Hb. pose proof (alloc_size_bounds n Hn Hb). pose proof elem_bytes_pos.
  rewrite slots_of_bytes_pad.
  assert (n ≤ _get_alloc_size n / elem_bytes) by (apply Z.div_le_lower_bound; lia).
  lia.
Qed.

Lemma block_ok_room b : block_ok b → b_size b ≤ Z.of_nat (length (b_slots b)).
Proof.
  intros (_ & Hs & Hb & Hc). pose proof (room_for (b_size b)). lia.
Qed.

Lemma block_ok_size b : block_ok b → to_Size (b_size b) = b_size b.
Proof. intros (_ & Hs & _). apply to_Size_small. lia. Qed.

Lemma block_ok_slot b i :
  block_ok b → 0 ≤ i < b_size b → ∃ x, b_slots b !! Z.to_nat i = Some x.
Proof.
  intros Hok Hi. pose proof (block_ok_room b Hok).
  destruct (lookup_lt_is_Some_2 (b_slots b) (Z.to_nat i)) as [x Hx]; [lia|eauto].
Qed.

(** *** What a handle shows *)

Lemma seen_size_null m : seen_size 0 m = Some 0.
Proof. reflexivity. Qed.

Lemma seen_elem_null m i : seen_elem 0 m i = None.
Proof.
  unfold seen_elem, get. rewrite (bind_Done _ _ _ _ _ _ _ (size_null m)).
  unfold bad_index. destruct (Z.ltb_spec i 0); [reflexivity|].
  destruct (Z.geb_spec i 0); [reflexivity|lia].
Qed.

Lemma seen_size_owns p m b : owns p m b → seen_size p m = Some (to_Size (b_size b)).
Proof. intros Ho. unfold seen_size. rewrite (size_owns _ _ _ Ho). reflexivity. Qed.

Lemma seen_elem_owns p m b i :
  owns p m b →
  seen_elem p m i =
    if (0 <=? i) && (i <? to_Size (b_size b)) then b_slots b !! Z.to_nat i else None.
Proof.
  intros Ho. unfold seen_elem.
  destruct (Z.leb_spec 0 i); destruct (Z.ltb_spec i (to_Size (b_size b))); simpl.
  - destruct (b_slots b !! Z.to_nat i) as [x|] eqn:Hx.
    + rewrite (get_owns _ _ _ _ _ Ho) by (lia || exact Hx). reflexivity.
    + unfold get. rewrite (bind_Done _ _ _ _ _ _ _ (size_owns _ _ _ Ho)).
      unfold bad_index. destruct (Z.ltb_spec i 0); [lia|].
      destruct (Z.geb_spec i (to_Size (b_size b))); [lia|]. simpl.
      unfold bind, this_ptr, load_elem. destruct Ho as [_ ->].
      destruct (Z.leb_spec 0 i); [|lia]. rewrite Hx. reflexivity.
  - rewrite (get_bad_index _ _ _ _ (size_owns _ _ _ Ho)); [reflexivity|].
    unfold bad_index. destruct (Z.geb_spec i (to_Size (b_size b))); [|lia].
    apply orb_true_r.
  - rewrite (get_bad_index _ _ _ _ (size_owns _ _ _ Ho)); [reflexivity|].
    unfold bad_index. destruct (Z.ltb_spec i 0); [reflexivity|lia].
  - rewrite (get_bad_index _ _ _ _ (size_owns _ _ _ Ho)); [reflexivity|].
    unfold bad_index. destruct (Z.ltb_spec i 0); [reflexivity|lia].
Qed.

(** *** Linear search *)

Lemma matches_owns v p m b i :
  owns p m b → block_ok b →
  matches v p m i ↔
    0 ≤ i < b_size b ∧ ∃ x, b_slots b !! Z.to_nat i = Some x ∧ T_eqb x v = true.
Proof.
  intros Ho Hok. unfold matches. rewrite (seen_elem_owns _ _ _ _ Ho).
  rewrite (block_ok_size _ Hok).
  destruct (Z.leb_spec 0 i); destruct (Z.ltb_spec i (b_size b)); simpl;
    split; try (intros (x & Hx & _); discriminate); try (intros [? _]; lia).
  - intros (x & Hx & Hv). split; [lia|eauto].
  - intros (_ & x & Hx & Hv). eauto.
Qed.

Lemma matches_null v m i : ¬ matches v 0 m i.
Proof. intros (x & Hx & _). rewrite seen_elem_null in Hx. discriminate. Qed.

Lemma find_loop_spec v p m b (fuel : nat) i :
  owns p m b → block_ok b → 0 ≤ i → Z.of_nat fuel = Z.max 0 (b_size b - i) →
  ∃ r, find_loop fuel v i p m = Done r p m ∧ lowest_match v p m i r.
Proof.
  intros Ho Hok. revert i. induction fuel as [|fuel IH]; intros i Hi Hfuel.
  - exists (-1). split; [reflexivity|]. left. split; [reflexivity|].
    intros j Hj Hm. apply (matches_owns _ _ _ _ _ Ho Hok) in Hm. lia.
  - simpl. rewrite (bind_Done _ _ _ _ _ _ _ (size_owns _ _ _ Ho)).
    rewrite (block_ok_size _ Hok).
    destruct (Z.ltb_spec i (b_size b)); [|lia].
    destruct (block_ok_slot b i Hok) as [x Hx]; [lia|].
    assert (Hget : get i p m = Done x p m).
    { apply (get_owns _ _ b); [exact Ho| |exact Hx].
      rewrite (block_ok_size _ Hok). lia. }
    rewrite (bind_Done _ _ _ _ _ _ _ Hget).
    destruct (T_eqb x v) eqn:Hv.
    + exists i. split; [reflexivity|]. right. split; [lia|]. split.
      * apply (matches_owns _ _ _ _ _ Ho Hok). split; [lia|eauto].
      * intros j Hj. lia.
    + destruct (IH (i + 1)) as (r & Hr & Hpost); [lia|lia|].
      exists r. split; [exact Hr|].
      assert (Hni : ¬ matches v p m i).
      { intros Hm. apply (matches_owns _ _ _ _ _ Ho Hok) in Hm.
        destruct Hm as (_ & y & Hy & Hyv). congruence. }
      destruct Hpost as [[-> Hnone]|(Hle & Hm & Hless)].
      * left. split; [reflexivity|]. intros j Hj.
        destruct (Z.eq_dec j i) as [->|]; [exact Hni|]. apply Hnone. lia.
      * right. split; [lia|]. split; [exact Hm|]. intros j Hj.
        destruct (Z.eq_dec j i) as [->|]; [exact Hni|]. apply Hless. lia.
Qed.

Lemma rfind_loop_spec v p m b (fuel : nat) i :
  owns p m b → block_ok b → -1 ≤ i < b_size b → Z.of_nat fuel = i + 1 →
  ∃ r, rfind_loop fuel v i p m = Done r p m ∧ highest_match v p m i r.
Proof.
  intros Ho Hok. revert i. induction fuel as [|fuel IH]; intros i Hi Hfuel.
  - exists (-1). split; [reflexivity|]. left. split; [reflexivity|].
    intros j Hj Hm. apply (matches_owns _ _ _ _ _ Ho Hok) in Hm. lia.
  - simpl. destruct (Z.geb_spec i 0); [|lia].
    destruct (block_ok_slot b i Hok) as [x Hx]; [lia|].
    assert (Hget : get i p m = Done x p m).
    { apply (get_owns _ _ b); [exact Ho| |exact Hx].
      rewrite (block_ok_size _ Hok). lia. }
    rewrite (bind_Done _ _ _ _ _ _ _ Hget).
    destruct (T_eqb x v) eqn:Hv.
    + exists i. split; [reflexivity|]. right. split; [lia|]. split.
      * apply (matches_owns _ _ _ _ _ Ho Hok). split; [lia|eauto].
      * intros j Hj. lia.
    + destruct (IH (i - 1)) as (r & Hr & Hpost); [lia|lia|].
      exists r. split; [exact Hr|].
      assert (Hni : ¬ matches v p m i).
      { intros Hm. apply (matches_owns _ _ _ _ _ Ho Hok) in Hm.
        destruct Hm as (_ & y & Hy & Hyv). congruence. }
      destruct Hpost as [[-> Hnone]|(Hle & Hm & Hless)].
      * left. split; [reflexivity|]. intros j Hj.
        destruct (Z.eq_dec j i) as [->|]; [exact Hni|]. apply Hnone. lia.
      * right. split; [lia|]. split; [exact Hm|]. intros j Hj.
        destruct (Z.eq_dec j i) as [->|]; [exact Hni|]. apply Hless. lia.
Qed.

Lemma rfind_start_range s from : 0 ≤ s → -1 ≤ rfind_start s from < s ∨ s = 0.
Proof.
  intros Hs. unfold rfind_start.
  destruct (from <? 0);
  repeat match goal with |- context [?a <? ?c] => destruct (Z.ltb_spec a c) end;
  repeat match goal with |- context [?a >=? ?c] => destruct (Z.geb_spec a c) end;
  simpl; lia.
Qed.

(** C7, amended. On a well-formed handle, [find(v, from)] with [from >= 0]
    returns the lowest index from [from] on whose element equals [v], and
    -1 when there is none; with a negative [from] it returns -1 whatever
    the buffer holds. *)
Theorem find_lowest_match v from p m :
  handle_ok p m →
  (from < 0 → find v from p m = Done (-1) p m) ∧
  (0 ≤ from → ∃ r, find v from p m = Done r p m ∧ lowest_match v p m from r).
Proof.
  intros [->|(b & Ho & Hok)].
  - split.
    + intros Hneg. unfold find. rewrite (bind_Done _ _ _ _ _ _ _ (size_null m)).
      destruct (Z.ltb_spec from 0); [reflexivity|lia].
    + intros Hfrom. exists (-1). split.
      * unfold find. rewrite (bind_Done _ _ _ _ _ _ _ (size_null m)).
        simpl. rewrite orb_true_r. reflexivity.
      * left. split; [reflexivity|]. intros i _. apply matches_null.
  - pose proof Hok as (_ & Hs & _). split.
    + intros Hneg. unfold find. rewrite (bind_Done _ _ _ _ _ _ _ (size_owns _ _ _ Ho)).
      destruct (Z.ltb_spec from 0); [reflexivity|lia].
    + intros Hfrom. unfold find. rewrite (bind_Done _ _ _ _ _ _ _ (size_owns _ _ _ Ho)).
      rewrite (block_ok_size _ Hok).
      destruct (Z.ltb_spec from 0); [lia|].
      destruct (Z.eqb_spec (b_size b) 0); [lia|]. simpl.
      apply (find_loop_spec _ _ _ b); [assumption..|lia].
Qed.

(** C8, amended. On a well-formed handle of size [s], [rfind(v, from)]
    scans backward from [rfind_start s from]: a negative [from] is taken
    relative to the end ([s + from]), and a start that is then still
    outside [0, s - 1] is replaced by [s - 1], the last index (not clamped
    to the nearer bound).  It returns the greatest index up to that start
    whose element equals [v], and -1 when there is none; on an empty
    handle the start is -1 and so is the result. *)
Theorem rfind_highest_match v from p m :
  handle_ok p m →
  ∃ s r, seen_size p m = Some s ∧ rfind v from p m = Done r p m ∧
         highest_match v p m (rfind_start s from) r ∧
         (p = 0 → r = -1).
Proof.
  intros [->|(b & Ho & Hok)].
  - exists 0, (-1). split; [reflexivity|].
    assert (Hst : rfind_start 0 from = -1).
    { unfold rfind_start. destruct (from <? 0);
      repeat match goal with |- context [?a <? ?c] => destruct (Z.ltb_spec a c) end;
      repeat match goal with |- context [?a >=? ?c] => destruct (Z.geb_spec a c) end;
      simpl; lia. }
    split; [|split; [|reflexivity]].
    + unfold rfind. rewrite (bind_Done _ _ _ _ _ _ _ (size_null m)).
      fold (rfind_start 0 from). rewrite Hst. reflexivity.
    + left. split; [reflexivity|]. intros i _. apply matches_null.
  - pose proof Hok as (_ & Hs & _).
    exists (b_size b).
    assert (Hr : -1 ≤ rfind_start (b_size b) from < b_size b).
    { destruct (rfind_start_range (b_size b) from); lia. }
    destruct (rfind_loop_spec v p m b (Z.to_nat (rfind_start (b_size b) from + 1))
                (rfind_start (b_size b) from) Ho Hok Hr) as (r & Hrun & Hpost); [lia|].
    exists r. split; [|split; [|split; [exact Hpost|]]].
    + rewrite (seen_size_owns _ _ _ Ho), (block_ok_size _ Hok). reflexivity.
    + unfold rfind. rewrite (bind_Done _ _ _ _ _ _ _ (size_owns _ _ _ Ho)).
      rewrite (block_ok_size _ Hok). exact Hrun.
    + intros ->. destruct Ho as [Hp _]. unfold ALLOC_PAD in Hp. lia.
Qed.

(** *** Releasing a reference *)

Lemma this_ptr_eq p m : this_ptr p m = Done p p m.
Proof. reflexivity. Qed.

Lemma _get_refcount_owns p m b : owns p m b → _get_refcount p m = Done (p - 16) p m.
Proof.
  intros Ho. unfold _get_refcount, bind, this_ptr, ret, refcount_addr.
  rewrite (owns_nonnull _ _ _ Ho). reflexivity.
Qed.

Lemma _get_size_owns p m b : owns p m b → _get_size p m = Done (p - 8) p m.
Proof.
  intros Ho. unfold _get_size, bind, this_ptr, ret, size_addr.
  rewrite (owns_nonnull _ _ _ Ho). reflexivity.
Qed.

Lemma owns_put p m b b' : owns p m b → owns p (put_block (p - 16) b' m) b'.
Proof. intros [Hp _]. split; [exact Hp|]. apply lookup_put_eq. Qed.

Lemma _unref_owns p m b :
  owns p m b → block_ok b →
  _unref p p m =
    Done tt p
      (if b_refcount b =? 1 then drop_block (p - 16) m
       else put_block (p - 16) (with_refcount (b_refcount b - 1) b) m).
Proof.
  intros Ho Hok. pose proof Ho as [Hp Hb]. unfold ALLOC_PAD in Hb.
  pose proof Hok as (Hrc & Hsz & _ & _). pose proof (block_ok_room _ Hok) as Hroom.
  unfold _unref. rewrite (owns_nonnull _ _ _ Ho).
  rewrite (bind_Done _ _ _ _ _ _ _ (_get_refcount_owns _ _ _ Ho)).
  rewrite (bind_Done _ _ _ _ _ _ _ (SafeNumeric_decrement_at p m b Hb p)).
  rewrite wrap_small by (unfold USIZE_MOD in *; lia).
  set (b1 := with_refcount (b_refcount b - 1) b).
  set (m1 := put_block (p - 16) b1 m).
  assert (Ho1 : owns p m1 b1) by (apply (owns_put _ _ b); exact Ho).
  destruct (Z.gtb_spec (b_refcount b - 1) 0) as [Hgt|Hle].
  - destruct (Z.eqb_spec (b_refcount b) 1); [lia|]. reflexivity.
  - destruct (Z.eqb_spec (b_refcount b) 1); [|lia].
    assert (Hkill : ∃ m2, blocks m2 !! (p - 16) = Some (with_slots
                (if trivially_destructible then b_slots b1
                 else kill_from (b_slots b1) 0 (Z.to_nat (b_size b1))) b1) ∧
              m2 = put_block (p - 16) (with_slots
                (if trivially_destructible then b_slots b1
                 else kill_from (b_slots b1) 0 (Z.to_nat (b_size b1))) b1) m ∧
              (if negb trivially_destructible
               then let! count := _get_size in
                    let! n := load_size count in
                    let data := count + 8 in
                    for_up (Z.to_nat n) 0
                      (λ i, let! x := load_elem data i in store_elem data i (T_dead x))
               else ret tt) p m1 = Done tt p m2).
    { eexists. split; [|split; [reflexivity|]]; [apply lookup_put_eq|].
      destruct trivially_destructible; cbn [negb].
      - unfold ret. rewrite with_slots_id. reflexivity.
      - rewrite (bind_Done _ _ _ _ _ _ _ (_get_size_owns _ _ _ Ho1)).
        rewrite (bind_Done _ _ _ _ _ _ _ (load_size_at p m1 b1 (proj2 Ho1) p)).
        replace (p - 8 + 8) with p by lia.
        change 0 with (Z.of_nat 0).
        rewrite (for_up_kill p p _ 0 m1 b1 (proj2 Ho1)) by (simpl; lia).
        unfold m1. rewrite put_put. reflexivity. }
    destruct Hkill as (m2 & Hm2 & -> & Hrun).
    rewrite (bind_Done _ _ _ _ _ _ _ Hrun).
    unfold ALLOC_PAD. rewrite (free_static_at _ _ _ _ Hm2).
    rewrite drop_put. reflexivity.
Qed.

Lemma _unref_null p m : _unref 0 p m = Done tt p m.
Proof. reflexivity. Qed.

(** *** The copy-on-write trigger *)

Lemma memcpy_at dst src nbytes p m bd bs :
  blocks m !! (dst - 16) = Some bd →
  blocks m !! (src - 16) = Some bs →
  (Z.to_nat (nbytes / elem_bytes) ≤ length (b_slots bd))%nat →
  (Z.to_nat (nbytes / elem_bytes) ≤ length (b_slots bs))%nat →
  memcpy dst src nbytes p m =
    Done tt p
      (put_block (dst - 16)
         (with_slots (take (Z.to_nat (nbytes / elem_bytes)) (b_slots bs) ++
                      drop (Z.to_nat (nbytes / elem_bytes)) (b_slots bd)) bd) m).
Proof.
  intros Hd Hs Hnd Hns. unfold memcpy, ALLOC_PAD. rewrite Hd, Hs.
  destruct (Nat.leb_spec (Z.to_nat (nbytes / elem_bytes)) (length (b_slots bd))); [|lia].
  destruct (Nat.leb_spec (Z.to_nat (nbytes / elem_bytes)) (length (b_slots bs))); [|lia].
  reflexivity.
Qed.

Lemma _copy_on_write_null m : _copy_on_write 0 m = Done 0 0 m.
Proof. reflexivity. Qed.

Lemma _copy_on_write_exclusive p m b :
  owns p m b → b_refcount b ≤ 1 → _copy_on_write p m = Done (b_refcount b) p m.
Proof.
  intros Ho Hrc. pose proof Ho as [Hp Hb]. unfold ALLOC_PAD in Hb.
  unfold _copy_on_write. rewrite (bind_Done _ _ _ _ _ _ _ (this_ptr_eq p m)).
  rewrite (owns_nonnull _ _ _ Ho).
  rewrite (bind_Done _ _ _ _ _ _ _ (_get_refcount_owns _ _ _ Ho)).
  rewrite (bind_Done _ _ _ _ _ _ _ (SafeNumeric_get_at p m b Hb p)).
  destruct (Z.gtb_spec (b_refcount b) 1); [lia|]. reflexivity.
Qed.

Lemma length_clone_slots b :
  block_ok b →
  length (clone_slots b) = slots_of_bytes (_get_alloc_size (b_size b) + ALLOC_PAD).
Proof.
  intros Hok. pose proof (block_ok_room _ Hok) as Hroom.
  pose proof Hok as (_ & Hsz & Hbytes & Hcap).
  pose proof (room_for (b_size b) ltac:(lia) Hbytes) as Hfit.
  unfold clone_slots. destruct trivially_copyable.
  - rewrite length_app, length_take, length_drop, length_fit_slots. lia.
  - rewrite length_copy_from, length_fit_slots. reflexivity.
Qed.

Lemma lookup_clone_slots b (j : nat) :
  block_ok b → (j < Z.to_nat (b_size b))%nat → clone_slots b !! j = b_slots b !! j.
Proof.
  intros Hok Hj. pose proof (block_ok_room _ Hok) as Hroom.
  pose proof Hok as (_ & Hsz & Hbytes & Hcap).
  pose proof (room_for (b_size b) ltac:(lia) Hbytes) as Hfit.
  unfold clone_slots. destruct trivially_copyable.
  - rewrite lookup_app_l by (rewrite length_take; lia).
    apply lookup_take_lt. exact Hj.
  - apply lookup_copy_from_in; [lia|lia|]. rewrite length_fit_slots. lia.
Qed.

Lemma owns_fresh_ne p m b : owns p m b → heap_top (blocks m) ≠ p - 16.
Proof.
  intros [_ Hb] Heq. unfold ALLOC_PAD in Hb. rewrite <- Heq, heap_top_fresh in Hb.
  discriminate.
Qed.

Lemma _copy_on_write_shared p m b :
  owns p m b → block_ok b → 1 < b_refcount b → next_served m = true →
  _copy_on_write p m =
    Done 1 (heap_top (blocks m) + 16)
      (put_block (p - 16) (with_refcount (b_refcount b - 1) b)
         (put_block (heap_top (blocks m)) (Block 1 (b_size b) (clone_slots b)) (pop m))).
Proof.
  intros Ho Hok Hrc Hserved. pose proof Ho as [Hp Hb]. unfold ALLOC_PAD in Hb.
  pose proof (block_ok_room _ Hok) as Hroom.
  pose proof Hok as (Hrcb & Hsz & Hbytes & Hcap).
  pose proof (room_for (b_size b) ltac:(lia) Hbytes) as Hfit.
  pose proof (alloc_size_bounds (b_size b) ltac:(lia) Hbytes) as Hal.
  pose proof elem_bytes_pos as Hpos.
  pose proof (owns_fresh_ne _ _ _ Ho) as Hfresh.
  unfold _copy_on_write. rewrite (bind_Done _ _ _ _ _ _ _ (this_ptr_eq p m)).
  rewrite (owns_nonnull _ _ _ Ho).
  rewrite (bind_Done _ _ _ _ _ _ _ (_get_refcount_owns _ _ _ Ho)).
  rewrite (bind_Done _ _ _ _ _ _ _ (SafeNumeric_get_at p m b Hb p)).
  destruct (Z.gtb_spec (b_refcount b) 1); [|lia].
  rewrite (bind_Done _ _ _ _ _ _ _ (_get_size_owns _ _ _ Ho)).
  rewrite (bind_Done _ _ _ _ _ _ _ (load_size_at p m b Hb p)).
  rewrite (wrap_small (_ + ALLOC_PAD)) by (unfold USIZE_MOD, ALLOC_PAD; lia).
  rewrite (bind_Done _ _ _ _ _ _ _ (alloc_static_served _ p m Hserved)).
  set (a := heap_top (blocks m)) in *.
  set (fresh := fit_slots (slots_of_bytes (_get_alloc_size (b_size b) + ALLOC_PAD)) []).
  set (m1 := put_block a (Block 0 0 fresh) (pop m)).
  assert (H1 : blocks m1 !! (a + 16 - 16) = Some (Block 0 0 fresh)).
  { replace (a + 16 - 16) with a by lia. apply lookup_put_eq. }
  rewrite (bind_Done _ _ _ _ _ _ _ (store_refcount_at (a + 16) m1 _ H1 1 p)).
  set (m2 := put_block (a + 16 - 16) _ m1).
  assert (H2 : blocks m2 !! (a + 16 - 16) = Some (Block 1 0 fresh)) by apply lookup_put_eq.
  rewrite (bind_Done _ _ _ _ _ _ _ (store_size_at (a + 16) m2 _ H2 (b_size b) p)).
  set (m3 := put_block (a + 16 - 16) _ m2).
  assert (H3 : blocks m3 !! (a + 16 - 16) = Some (Block 1 (b_size b) fresh))
    by apply lookup_put_eq.
  assert (Hb3 : blocks m3 !! (p - 16) = Some b).
  { unfold m3, m2, m1. replace (a + 16 - 16) with a by lia.
    rewrite !lookup_put_ne by exact Hfresh. rewrite blocks_pop. exact Hb. }
  assert (Hcopy :
    (if trivially_copyable
     then memcpy (a + 16) p (wrap (b_size b * elem_bytes))
     else for_up (Z.to_nat (b_size b)) 0
            (λ i, let! x := load_elem p i in store_elem (a + 16) i x)) p m3 =
    Done tt p (put_block (a + 16 - 16) (Block 1 (b_size b) (clone_slots b)) m3)).
  { unfold clone_slots. fold fresh. destruct trivially_copyable.
    - rewrite wrap_small by (unfold USIZE_MOD; nia).
      rewrite (memcpy_at _ _ _ _ _ _ _ H3 Hb3);
        rewrite Z.div_mul by lia; simpl; [reflexivity|..].
      + unfold fresh. rewrite length_fit_slots. lia.
      + lia.
    - change 0 with (Z.of_nat 0).
      rewrite (for_up_copy p (a + 16) p b _ 0 m3 _ ltac:(lia) Hb3 H3); simpl.
      + reflexivity.
      + lia.
      + unfold fresh. rewrite length_fit_slots. lia. }
  rewrite (bind_Done _ _ _ _ _ _ _ Hcopy).
  set (m4 := put_block (a + 16 - 16) _ m3).
  assert (Ho4 : owns p m4 b).
  { split; [exact Hp|]. unfold m4, ALLOC_PAD. rewrite lookup_put_ne by lia. exact Hb3. }
  rewrite (bind_Done _ _ _ _ _ _ _ (_unref_owns _ _ _ Ho4 Hok)).
  destruct (Z.eqb_spec (b_refcount b) 1); [lia|].
  unfold bind, set_this_ptr, ret. f_equal. f_equal.
  unfold m4, m3, m2, m1. replace (a + 16 - 16) with a by lia.
  rewrite !put_put. reflexivity.
Qed.

(** *** Writing an element *)

Lemma set_null i x m : set i x 0 m = Done tt 0 m.
Proof.
  unfold set. rewrite (bind_Done _ _ _ _ _ _ _ (size_null m)).
  unfold bad_index. destruct (Z.ltb_spec i 0); [reflexivity|].
  destruct (Z.geb_spec i 0); [reflexivity|lia].
Qed.

Lemma bad_index_false i s : 0 ≤ i < s → bad_index i s = false.
Proof.
  intros Hi. unfold bad_index. destruct (Z.ltb_spec i 0); [lia|].
  destruct (Z.geb_spec i s); [lia|reflexivity].
Qed.

Lemma bad_index_true i s : i < 0 ∨ s ≤ i → bad_index i s = true.
Proof.
  intros Hi. unfold bad_index. destruct (Z.ltb_spec i 0); [reflexivity|].
  destruct (Z.geb_spec i s); [reflexivity|lia].
Qed.

Lemma set_bad_index p m b i x :
  owns p m b → block_ok b → i < 0 ∨ b_size b ≤ i → set i x p m = Done tt p m.
Proof.
  intros Ho Hok Hi. unfold set. rewrite (bind_Done _ _ _ _ _ _ _ (size_owns _ _ _ Ho)).
  rewrite (block_ok_size _ Hok), bad_index_true by exact Hi. reflexivity.
Qed.

Lemma set_exclusive p m b i x :
  owns p m b → block_ok b → b_refcount b = 1 → 0 ≤ i < b_size b →
  set i x p m =
    Done tt p (put_block (p - 16) (with_slots (<[Z.to_nat i := x]> (b_slots b)) b) m).
Proof.
  intros Ho Hok Hrc Hi. pose proof Ho as [Hp Hb]. unfold ALLOC_PAD in Hb.
  pose proof (block_ok_room _ Hok) as Hroom.
  unfold set. rewrite (bind_Done _ _ _ _ _ _ _ (size_owns _ _ _ Ho)).
  rewrite (block_ok_size _ Hok), bad_index_false by exact Hi.
  rewrite (bind_Done _ _ _ _ _ _ _ (_copy_on_write_exclusive _ _ _ Ho ltac:(lia))).
  rewrite (bind_Done _ _ _ _ _ _ _ (this_ptr_eq p m)).
  apply (store_elem_at p m b Hb). lia.
Qed.

Lemma set_shared p m b i x :
  owns p m b → block_ok b → 1 < b_refcount b → next_served m = true →
  0 ≤ i < b_size b →
  set i x p m =
    Done tt (heap_top (blocks m) + 16)
      (put_block (heap_top (blocks m))
         (Block 1 (b_size b) (<[Z.to_nat i := x]> (clone_slots b)))
         (put_block (p - 16) (with_refcount (b_refcount b - 1) b)
            (put_block (heap_top (blocks m)) (Block 1 (b_size b) (clone_slots b)) (pop m)))).
Proof.
  intros Ho Hok Hrc Hserved Hi. pose proof Ho as [Hp Hb]. unfold ALLOC_PAD in Hb.
  pose proof Hok as (_ & Hsz & Hbytes & _).
  pose proof (room_for (b_size b) ltac:(lia) Hbytes) as Hfit.
  pose proof (owns_fresh_ne _ _ _ Ho) as Hfresh.
  unfold set. rewrite (bind_Done _ _ _ _ _ _ _ (size_owns _ _ _ Ho)).
  rewrite (block_ok_size _ Hok), bad_index_false by exact Hi.
  rewrite (bind_Done _ _ _ _ _ _ _ (_copy_on_write_shared _ _ _ Ho Hok Hrc Hserved)).
  set (a := heap_top (blocks m)) in *.
  set (m1 := put_block (p - 16) _ _).
  rewrite (bind_Done _ _ _ _ _ _ _ (this_ptr_eq _ m1)).
  assert (H1 : blocks m1 !! (a + 16 - 16) = Some (Block 1 (b_size b) (clone_slots b))).
  { unfold m1. replace (a + 16 - 16) with a by lia.
    rewrite lookup_put_ne by (intros Heq; apply Hfresh; symmetry; exact Heq).
    apply lookup_put_eq. }
  rewrite (store_elem_at (a + 16) m1 _ H1)
    by (simpl; rewrite (length_clone_slots _ Hok); lia).
  replace (a + 16 - 16) with a by lia. reflexivity.
Qed.

(** *** Building and destroying elements in [resize] *)

Lemma for_up_fill_Z q p x (n : nat) i m b :
  blocks m !! (q - 16) = Some b → 0 ≤ i →
  (Z.to_nat i + n ≤ length (b_slots b))%nat →
  for_up n i (λ j, store_elem q j x) p m =
  Done tt p (put_block (q - 16) (with_slots (fill_from x (b_slots b) (Z.to_nat i) n) b) m).
Proof.
  intros Hb Hi Hn. rewrite <- (Z2Nat.id i) at 1 by exact Hi.
  apply for_up_fill; assumption.
Qed.

Lemma for_up_kill_Z q p (n : nat) i m b :
  blocks m !! (q - 16) = Some b → 0 ≤ i →
  (Z.to_nat i + n ≤ length (b_slots b))%nat →
  for_up n i (λ j, let! x := load_elem q j in store_elem q j (T_dead x)) p m =
  Done tt p (put_block (q - 16) (with_slots (kill_from (b_slots b) (Z.to_nat i) n) b) m).
Proof.
  intros Hb Hi Hn. rewrite <- (Z2Nat.id i) at 1 by exact Hi.
  apply for_up_kill; assumption.
Qed.

Lemma memset_zero_at dst from nbytes p m b :
  blocks m !! (dst - 16) = Some b → 0 ≤ from →
  (Z.to_nat from + Z.to_nat (nbytes / elem_bytes) ≤ length (b_slots b))%nat →
  memset_zero dst from nbytes p m =
    Done tt p
      (put_block (dst - 16)
         (with_slots (take (Z.to_nat from) (b_slots b) ++
                      replicate (Z.to_nat (nbytes / elem_bytes)) T_zero ++
                      drop (Z.to_nat from + Z.to_nat (nbytes / elem_bytes)) (b_slots b)) b) m).
Proof.
  intros Hb Hfrom Hn. unfold memset_zero, ALLOC_PAD. rewrite Hb.
  destruct (Z.leb_spec 0 from); [|lia].
  destruct (Nat.leb_spec (Z.to_nat from + Z.to_nat (nbytes / elem_bytes))
              (length (b_slots b))); [|lia].
  reflexivity.
Qed.

Lemma length_built ez n L l :
  0 ≤ L ≤ n → n ≤ Z.of_nat (length l) → length (built ez n L l) = length l.
Proof.
  intros HL Hn. unfold built. destruct trivially_constructible; simpl.
  - destruct ez; [|reflexivity].
    rewrite !length_app, length_take, length_replicate, length_drop. lia.
  - apply length_fill_from.
Qed.

Lemma lookup_built_lt ez n L l (j : nat) :
  0 ≤ L ≤ n → n ≤ Z.of_nat (length l) → (j < Z.to_nat L)%nat →
  built ez n L l !! j = l !! j.
Proof.
  intros HL Hn Hj. unfold built. destruct trivially_constructible; simpl.
  - destruct ez; [|reflexivity].
    rewrite lookup_app_l by (rewrite length_take; lia).
    apply lookup_take_lt. exact Hj.
  - apply lookup_fill_from_lt. exact Hj.
Qed.

Lemma length_killed n L l : length (killed n L l) = length l.
Proof.
  unfold killed. destruct trivially_destructible; simpl; [reflexivity|].
  apply length_kill_from.
Qed.

Lemma lookup_killed_lt n L l (j : nat) :
  (j < Z.to_nat n)%nat → killed n L l !! j = l !! j.
Proof.
  intros Hj. unfold killed. destruct trivially_destructible; simpl; [reflexivity|].
  apply lookup_kill_from_lt. exact Hj.
Qed.

Lemma with_size_with_slots v l b :
  with_size v (with_slots l b) = Block (b_refcount b) v l.
Proof. reflexivity. Qed.

Lemma resize_construct_at ez n L p m b :
  owns p m b → b_size b = L → 0 ≤ L ≤ n → L ≤ MAX_INT →
  n ≤ Z.of_nat (length (b_slots b)) → n * elem_bytes < USIZE_MOD →
  resize_construct ez n L p m =
    Done OK p (put_block (p - 16) (Block (b_refcount b) n (built ez n L (b_slots b))) m).
Proof.
  intros Ho Hsz HL Hmax Hn Hbytes. pose proof Ho as [Hp Hb]. unfold ALLOC_PAD in Hb.
  pose proof elem_bytes_pos as Hpos.
  unfold resize_construct.
  assert (Hbuild :
    (if negb trivially_constructible
     then let! sz := _get_size in
          let! from := load_size sz in
          let! p0 := this_ptr in
          for_up (Z.to_nat (n - to_Size from)) (to_Size from)
            (λ i, store_elem p0 i T_default)
     else if ez
          then let! p0 := this_ptr in
               memset_zero p0 L (wrap ((n - L) * elem_bytes))
          else ret tt) p m =
    Done tt p (put_block (p - 16) (with_slots (built ez n L (b_slots b)) b) m)).
  { unfold built. destruct trivially_constructible; cbn [negb].
    - destruct ez.
      + rewrite (bind_Done _ _ _ _ _ _ _ (this_ptr_eq p m)).
        rewrite wrap_small by (unfold USIZE_MOD in *; nia).
        rewrite (memset_zero_at _ _ _ _ _ _ Hb) by (rewrite ?Z.div_mul; lia).
        rewrite Z.div_mul by lia. reflexivity.
      + unfold ret. rewrite with_slots_id, (put_id _ _ _ Hb). reflexivity.
    - rewrite (bind_Done _ _ _ _ _ _ _ (_get_size_owns _ _ _ Ho)).
      rewrite (bind_Done _ _ _ _ _ _ _ (load_size_at p m b Hb p)).
      rewrite (bind_Done _ _ _ _ _ _ _ (this_ptr_eq p m)).
      rewrite Hsz, (to_Size_small L) by lia.
      apply for_up_fill_Z; [exact Hb|lia|lia]. }
  rewrite (bind_Done _ _ _ _ _ _ _ Hbuild).
  set (m1 := put_block (p - 16) _ m).
  assert (Ho1 : owns p m1 (with_slots (built ez n L (b_slots b)) b))
    by (apply (owns_put _ _ b); exact Ho).
  rewrite (bind_Done _ _ _ _ _ _ _ (_get_size_owns _ _ _ Ho1)).
  rewrite (bind_Done _ _ _ _ _ _ _ (store_size_at p m1 _ (proj2 Ho1) n p)).
  unfold m1. rewrite put_put. reflexivity.
Qed.

Lemma alloc_size_checked_in_range n :
  0 < n → n * elem_bytes ≤ 2 ^ 63 →
  _get_alloc_size_checked (wrap n) = (true, _get_alloc_size n).
Proof.
  intros Hn Hb. pose proof elem_bytes_pos as Hpos.
  pose proof (alloc_size_bounds n Hn Hb) as Hal.
  rewrite wrap_small by (unfold USIZE_MOD; nia).
  unfold _get_alloc_size_checked.
  destruct (Z.eqb_spec n 0); [lia|].
  assert (Hw : wrap (n * elem_bytes) = n * elem_bytes)
    by (apply wrap_small; unfold USIZE_MOD; nia).
  assert (Hne : (_get_alloc_size n =? 0) = false) by (apply Z.eqb_neq; nia).
  destruct checked_arith.
  - destruct (Z.leb_spec USIZE_MOD (n * elem_bytes)); [unfold USIZE_MOD in *; lia|].
    destruct (Z.leb_spec USIZE_MOD (n * elem_bytes + 32)); [unfold USIZE_MOD in *; lia|].
    unfold _get_alloc_size in Hne. rewrite Hw in Hne. rewrite Hne.
    unfold _get_alloc_size. rewrite Hw. reflexivity.
  - rewrite Hne. reflexivity.
Qed.

(** *** The growing branch of [resize] *)

Lemma resize_grow_scratch ez n rc A A0 m :
  A ≠ A0 → 0 ≤ A ≤ 2 ^ 63 → next_served m = true →
  0 < n → n ≤ Z.of_nat (slots_of_bytes (A + ALLOC_PAD)) → n * elem_bytes < USIZE_MOD →
  resize_grow ez n 0 rc A A0 0 m =
    Done OK (heap_top (blocks m) + 16)
      (put_block (heap_top (blocks m))
         (Block 1 n (built ez n 0 (fit_slots (slots_of_bytes (A + ALLOC_PAD)) [])))
         (pop m)).
Proof.
  intros Hne HA Hserved Hn Hcap Hbytes.
  unfold resize_grow. destruct (Z.eqb_spec A A0); [contradiction|]. cbn [negb].
  destruct (Z.eqb_spec 0 0); [|lia].
  rewrite (wrap_small (A + ALLOC_PAD)) by (unfold USIZE_MOD, ALLOC_PAD; lia).
  rewrite (bind_Done _ _ _ _ _ _ _ (alloc_static_served _ 0 m Hserved)).
  pose proof (heap_top_pos (blocks m)) as Hpos.
  set (a := heap_top (blocks m)) in *.
  set (fresh := fit_slots (slots_of_bytes (A + ALLOC_PAD)) []).
  destruct (Z.eqb_spec (a + 16) 0); [lia|].
  set (m1 := put_block a (Block 0 0 fresh) (pop m)).
  assert (H1 : blocks m1 !! (a + 16 - 16) = Some (Block 0 0 fresh)).
  { replace (a + 16 - 16) with a by lia. apply lookup_put_eq. }
  rewrite (bind_Done _ _ _ _ _ _ _ (store_size_at (a + 16) m1 _ H1 0 0)).
  set (m2 := put_block (a + 16 - 16) _ m1).
  assert (H2 : blocks m2 !! (a + 16 - 16) = Some (Block 0 0 fresh)) by apply lookup_put_eq.
  rewrite (bind_Done _ _ _ _ _ _ _ (store_refcount_at (a + 16) m2 _ H2 1 0)).
  set (m3 := put_block (a + 16 - 16) _ m2).
  assert (Ho3 : owns (a + 16) m3 (Block 1 0 fresh)).
  { split; [unfold ALLOC_PAD; lia|]. apply lookup_put_eq. }
  unfold bind at 1. unfold set_this_ptr.
  rewrite (resize_construct_at ez n 0 _ _ _ Ho3); simpl;
    [|reflexivity|lia|unfold MAX_INT; lia|unfold fresh; rewrite length_fit_slots; lia|lia].
  unfold m3, m2, m1. replace (a + 16 - 16) with a by lia.
  rewrite !put_put. reflexivity.
Qed.

Lemma resize_grow_scratch_denied ez n rc A A0 m :
  A ≠ A0 → next_served m = false → blocks m !! 0 = None →
  resize_grow ez n 0 rc A A0 0 m = Fault.
Proof.
  intros Hne Hdenied H0.
  unfold resize_grow. destruct (Z.eqb_spec A A0); [contradiction|]. cbn [negb].
  destruct (Z.eqb_spec 0 0); [|lia].
  rewrite (bind_Done _ _ _ _ _ _ _ (alloc_static_denied _ 0 m Hdenied)).
  change (0 + 16 =? 0) with false. cbv iota.
  unfold bind at 1. unfold store_size, write_block.
  change (0 + 16 - 8 - 8) with 0. rewrite blocks_pop, H0. reflexivity.
Qed.

Lemma resize_grow_realloc ez n L rc A A0 p m b :
  owns p m b → b_size b = L → 0 < L < n → L ≤ MAX_INT →
  A ≠ A0 → 0 ≤ A ≤ 2 ^ 63 →
  n ≤ Z.of_nat (slots_of_bytes (A + ALLOC_PAD)) → n * elem_bytes < USIZE_MOD →
  resize_grow ez n L rc A A0 p m =
    let b' := Block rc n (built ez n L (fit_slots (slots_of_bytes (A + ALLOC_PAD)) (b_slots b))) in
    match fst (pop_verdict m) with
    | Deny => Done ERR_OUT_OF_MEMORY p (pop m)
    | InPlace => Done OK p (put_block (p - 16) b' (pop m))
    | Moved =>
        Done OK (heap_top (blocks m) + 16)
          (put_block (heap_top (blocks m)) b' (drop_block (p - 16) (pop m)))
    end.
Proof.
  intros Ho Hsz HL Hmax Hne HA Hcap Hbytes. pose proof Ho as [Hp Hb].
  unfold resize_grow. destruct (Z.eqb_spec A A0); [contradiction|]. cbn [negb].
  destruct (Z.eqb_spec L 0); [lia|].
  rewrite (wrap_small (A + ALLOC_PAD)) by (unfold USIZE_MOD, ALLOC_PAD; lia).
  rewrite (bind_Done _ _ _ _ _ _ _ (this_ptr_eq p m)).
  pose proof (realloc_static_at _ (A + ALLOC_PAD) p m b Hb) as Hre. cbv zeta in Hre.
  pose proof (heap_top_pos (blocks m)) as Hpos.
  set (a := heap_top (blocks m)) in *.
  set (l' := fit_slots (slots_of_bytes (A + ALLOC_PAD)) (b_slots b)) in *.
  unfold ALLOC_PAD in Hp.
  destruct (fst (pop_verdict m)); cbv zeta; rewrite (bind_Done _ _ _ _ _ _ _ Hre).
  - reflexivity.
  - destruct (Z.eqb_spec (p - ALLOC_PAD) 0); [unfold ALLOC_PAD in *; lia|].
    unfold ALLOC_PAD. replace (p - 16 + 16) with p by lia.
    set (m1 := put_block (p - 16) (with_slots l' b) (pop m)).
    assert (H1 : blocks m1 !! (p - 16) = Some (with_slots l' b)) by apply lookup_put_eq.
    rewrite (bind_Done _ _ _ _ _ _ _ (store_refcount_at p m1 _ H1 rc p)).
    set (m2 := put_block (p - 16) _ m1).
    assert (Ho2 : owns p m2 (Block rc L l')).
    { split; [unfold ALLOC_PAD; lia|]. unfold m2, ALLOC_PAD. rewrite lookup_put_eq.
      unfold with_refcount, with_slots. simpl. rewrite Hsz. reflexivity. }
    unfold bind at 1. unfold set_this_ptr.
    rewrite (resize_construct_at ez n L _ _ _ Ho2); simpl;
      [|reflexivity|lia|lia|unfold l'; rewrite length_fit_slots; lia|lia].
    unfold m2, m1. rewrite !put_put. reflexivity.
  - destruct (Z.eqb_spec a 0); [lia|].
    unfold ALLOC_PAD.
    set (m1 := put_block a (with_slots l' b) (drop_block (p - 16) (pop m))).
    assert (H1 : blocks m1 !! (a + 16 - 16) = Some (with_slots l' b)).
    { replace (a + 16 - 16) with a by lia. apply lookup_put_eq. }
    rewrite (bind_Done _ _ _ _ _ _ _ (store_refcount_at (a + 16) m1 _ H1 rc p)).
    set (m2 := put_block (a + 16 - 16) _ m1).
    assert (Ho2 : owns (a + 16) m2 (Block rc L l')).
    { split; [unfold ALLOC_PAD; lia|]. unfold m2, ALLOC_PAD. rewrite lookup_put_eq.
      unfold with_refcount, with_slots. simpl. rewrite Hsz. reflexivity. }
    unfold bind at 1. unfold set_this_ptr.
    rewrite (resize_construct_at ez n L _ _ _ Ho2); simpl;
      [|reflexivity|lia|lia|unfold l'; rewrite length_fit_slots; lia|lia].
    unfold m2, m1. replace (a + 16 - 16) with a by lia.
    rewrite !put_put. reflexivity.
Qed.

(** *** The shrinking branch of [resize] *)

Lemma resize_shrink_at n L rc A A0 p m b :
  owns p m b → b_size b = L → 0 < n < L → L ≤ Z.of_nat (length (b_slots b)) →
  0 ≤ A ≤ 2 ^ 63 →
  resize_shrink n rc A A0 p m =
    let kl := killed n L (b_slots b) in
    let m1 := put_block (p - 16) (with_slots kl b) m in
    let b' := Block rc n (fit_slots (slots_of_bytes (A + ALLOC_PAD)) kl) in
    if A =? A0 then Done OK p (put_block (p - 16) (Block (b_refcount b) n kl) m)
    else
      match fst (pop_verdict m) with
      | Deny => Done ERR_OUT_OF_MEMORY p (pop m1)
      | InPlace => Done OK p (put_block (p - 16) b' (pop m1))
      | Moved =>
          Done OK (heap_top (blocks m1) + 16)
            (put_block (heap_top (blocks m1)) b' (drop_block (p - 16) (pop m1)))
      end.
Proof.
  intros Ho Hsz HL Hroom HA. pose proof Ho as [Hp Hb]. unfold ALLOC_PAD in Hb, Hp.
  cbv zeta. set (kl := killed n L (b_slots b)).
  set (m1 := put_block (p - 16) (with_slots kl b) m).
  unfold resize_shrink.
  assert (Hkill :
    (if negb trivially_destructible
     then let! sz := _get_size in
          let! len := load_size sz in
          let! p0 := this_ptr in
          for_up (Z.to_nat (len - n)) n
            (λ i, let! x := load_elem p0 i in store_elem p0 i (T_dead x))
     else ret tt) p m = Done tt p m1).
  { unfold m1, kl, killed. destruct trivially_destructible; cbn [negb].
    - unfold ret. rewrite with_slots_id, (put_id _ _ _ Hb). reflexivity.
    - rewrite (bind_Done _ _ _ _ _ _ _ (_get_size_owns _ _ _ Ho)).
      rewrite (bind_Done _ _ _ _ _ _ _ (load_size_at p m b Hb p)).
      rewrite (bind_Done _ _ _ _ _ _ _ (this_ptr_eq p m)).
      rewrite Hsz. apply for_up_kill_Z; [exact Hb|lia|lia]. }
  rewrite (bind_Done _ _ _ _ _ _ _ Hkill).
  assert (Ho1 : owns p m1 (with_slots kl b)) by (apply (owns_put _ _ b); exact Ho).
  assert (Hfst : fst (pop_verdict m1) = fst (pop_verdict m)).
  { unfold m1, pop_verdict, put_block, with_blocks. simpl.
    destruct (script m); reflexivity. }
  destruct (Z.eqb_spec A A0); cbn [negb].
  - rewrite (bind_Done _ _ _ _ _ _ _ (_get_size_owns _ _ _ Ho1)).
    rewrite (bind_Done _ _ _ _ _ _ _ (store_size_at p m1 _ (proj2 Ho1) n p)).
    unfold m1. rewrite put_put. reflexivity.
  - rewrite (wrap_small (A + ALLOC_PAD)) by (unfold USIZE_MOD, ALLOC_PAD; lia).
    rewrite (bind_Done _ _ _ _ _ _ _ (this_ptr_eq p m1)).
    pose proof (realloc_static_at _ (A + ALLOC_PAD) p m1 _ (proj2 Ho1)) as Hre.
    cbv zeta in Hre. rewrite Hfst in Hre.
    pose proof (heap_top_pos (blocks m1)) as Hpos.
    set (a := heap_top (blocks m1)) in *.
    set (l' := fit_slots (slots_of_bytes (A + ALLOC_PAD)) kl) in *.
    destruct (fst (pop_verdict m)); rewrite (bind_Done _ _ _ _ _ _ _ Hre).
    + reflexivity.
    + destruct (Z.eqb_spec (p - ALLOC_PAD) 0); [unfold ALLOC_PAD in *; lia|].
      unfold ALLOC_PAD. replace (p - 16 + 16) with p by lia.
      set (m2 := put_block (p - 16) _ (pop m1)).
      assert (Ho2 : owns p m2 (with_slots l' (with_slots kl b)))
        by (split; [unfold ALLOC_PAD; lia|apply lookup_put_eq]).
      rewrite (bind_Done _ _ _ _ _ _ _ (store_refcount_at p m2 _ (proj2 Ho2) rc p)).
      set (m3 := put_block (p - 16) _ m2).
      assert (Ho3 : owns p m3 (Block rc L l')).
      { split; [unfold ALLOC_PAD; lia|]. unfold m3, ALLOC_PAD. rewrite lookup_put_eq.
        unfold with_refcount, with_slots. simpl. rewrite Hsz. reflexivity. }
      unfold bind at 1. unfold set_this_ptr.
      rewrite (bind_Done _ _ _ _ _ _ _ (_get_size_owns _ _ _ Ho3)).
      rewrite (bind_Done _ _ _ _ _ _ _ (store_size_at p m3 _ (proj2 Ho3) n p)).
      unfold m3, m2. rewrite !put_put. reflexivity.
    + destruct (Z.eqb_spec a 0); [lia|].
      unfold ALLOC_PAD.
      set (m2 := put_block a _ (drop_block (p - 16) (pop m1))).
      assert (H2 : blocks m2 !! (a + 16 - 16) = Some (with_slots l' (with_slots kl b))).
      { replace (a + 16 - 16) with a by lia. apply lookup_put_eq. }
      rewrite (bind_Done _ _ _ _ _ _ _ (store_refcount_at (a + 16) m2 _ H2 rc p)).
      set (m3 := put_block (a + 16 - 16) _ m2).
      assert (Ho3 : owns (a + 16) m3 (Block rc L l')).
      { split; [unfold ALLOC_PAD; lia|]. unfold m3, ALLOC_PAD. rewrite lookup_put_eq.
        unfold with_refcount, with_slots. simpl. rewrite Hsz. reflexivity. }
      unfold bind at 1. unfold set_this_ptr.
      rewrite (bind_Done _ _ _ _ _ _ _ (_get_size_owns _ _ _ Ho3)).
      rewrite (bind_Done _ _ _ _ _ _ _ (store_size_at (a + 16) m3 _ (proj2 Ho3) n (a + 16))).
      unfold m3, m2. replace (a + 16 - 16) with a by lia.
      rewrite !put_put. reflexivity.
Qed.

(** *** [resize] once the storage is exclusive *)

Lemma all_served_pop m : all_served m = true → all_served (pop m) = true.
Proof.
  destruct m as [bs [|v sc]]; unfold all_served, pop, pop_verdict; simpl; intros H.
  - exact H.
  - apply andb_true_iff in H. tauto.
Qed.

Lemma all_served_put a b m : all_served (put_block a b m) = all_served m.
Proof. reflexivity. Qed.

Lemma all_served_drop a m : all_served (drop_block a m) = all_served m.
Proof. reflexivity. Qed.

Lemma pop_put a b m : pop (put_block a b m) = put_block a b (pop m).
Proof.
  destruct m as [bs [|v sc]]; reflexivity.
Qed.

Lemma all_served_next m : all_served m = true → next_served m = true.
Proof.
  destruct m as [bs [|v sc]]; unfold all_served, next_served; simpl; intros H.
  - reflexivity.
  - apply andb_true_iff in H. tauto.
Qed.

Lemma block_ok_intro rc n l :
  1 ≤ rc < USIZE_MOD → 0 < n ≤ MAX_INT → n * elem_bytes ≤ 2 ^ 63 →
  (slots_of_bytes (_get_alloc_size n + ALLOC_PAD) ≤ length l)%nat →
  block_ok (Block rc n l).
Proof. intros. repeat split; simpl; lia. Qed.

Ltac solve_verdict :=
  first [ reflexivity | discriminate | (intros; reflexivity)
        | (intros _ Hc; exfalso; apply Hc; assumption) | congruence ].

Lemma resize_sized_exclusive ez n p m b :
  holds p m b → 0 < n ≤ MAX_INT → n ≠ b_size b → n * elem_bytes ≤ 2 ^ 63 →
  ∃ r p' m', resize_sized ez n (b_size b) 1 p m = Done r p' m' ∧
    others_kept (p - 16) m p' m' ∧
    resized (b_slots b) (b_size b) n m r p' m'.
Proof.
  intros (Ho & Hok & Hrc) Hn Hne Hbytes. pose proof Ho as [Hp Hb]. unfold ALLOC_PAD in Hb, Hp.
  pose proof (block_ok_room _ Hok) as Hroom.
  pose proof Hok as (_ & Hsz & HLbytes & Hcap).
  pose proof elem_bytes_pos as Hpos.
  pose proof (alloc_size_bounds n ltac:(lia) Hbytes) as HA.
  pose proof (room_for n ltac:(lia) Hbytes) as Hfit.
  set (L := b_size b) in *.
  set (A := _get_alloc_size n) in *.
  set (cap := slots_of_bytes (A + ALLOC_PAD)) in *.
  unfold resize_sized, resized.
  rewrite (alloc_size_checked_in_range n) by lia. fold A. cbn [negb].
  rewrite (wrap_small L) by (unfold USIZE_MOD, MAX_INT in *; lia).
  set (A0 := _get_alloc_size L) in *.
  assert (Hone : 1 ≤ 1 < USIZE_MOD) by (unfold USIZE_MOD; lia).
  destruct (Z.gtb_spec n L) as [Hgt|Hle].
  - (* growing *)
    destruct (Z.eq_dec A A0) as [Heq|Hdiff].
    + unfold resize_grow. rewrite Heq, Z.eqb_refl. cbn [negb].
      rewrite (resize_construct_at ez n L p m b Ho eq_refl)
        by (unfold USIZE_MOD; fold cap in Hcap; rewrite <- ?Heq in Hcap; lia).
      assert (Hlen : length (built ez n L (b_slots b)) = length (b_slots b))
        by (apply length_built; fold cap in Hcap; rewrite <- ?Heq in Hcap; lia).
      eexists _, _, _. split; [reflexivity|]. split.
      * intros a ba Ha Hak. rewrite lookup_put_ne by congruence. split; [exact Ha|exact Hak].
      * split; [intros Hall; exact Hall|]. split; [solve_verdict|]. split; [solve_verdict|].
        eexists. split; [|split].
        -- split; [apply (owns_put _ _ b); exact Ho|]. split; [|exact Hrc].
           rewrite Hrc. apply block_ok_intro; try lia. fold A cap. rewrite Hlen.
           unfold cap. rewrite Heq. exact Hcap.
        -- intros j Hj. simpl. apply lookup_built_lt; try lia.
           fold cap in Hcap. rewrite <- ?Heq in Hcap. lia.
        -- left. split; reflexivity.
    + rewrite (resize_grow_realloc ez n L 1 A A0 p m b Ho eq_refl)
        by (try assumption; unfold USIZE_MOD; lia).
      cbv zeta. set (l' := built ez n L (fit_slots cap (b_slots b))).
      assert (Hlen : length l' = cap).
      { unfold l'. rewrite length_built; rewrite ?length_fit_slots; lia. }
      assert (Hpre : ∀ j : nat, (j < Z.to_nat (Z.min L n))%nat → l' !! j = b_slots b !! j).
      { intros j Hj. unfold l'. rewrite lookup_built_lt; rewrite ?length_fit_slots; try lia.
        apply lookup_fit_slots; lia. }
      assert (Hbok : block_ok (Block 1 n l')).
      { apply block_ok_intro; try lia. fold A cap. lia. }
      rewrite next_served_verdict.
      destruct (fst (pop_verdict m)) eqn:Hv.
      * eexists _, _, _. split; [reflexivity|]. split.
        -- intros a ba Ha Hak. rewrite blocks_pop. split; [exact Ha|exact Hak].
        -- split; [apply all_served_pop|]. split; [solve_verdict|]. split; [solve_verdict|].
           exists b. split; [|split].
           ++ split; [|split; assumption]. split; [exact (proj1 Ho)|].
              unfold ALLOC_PAD. rewrite blocks_pop. exact Hb.
           ++ reflexivity.
           ++ right. split; [reflexivity|]. split; reflexivity.
      * eexists _, _, _. split; [reflexivity|]. split.
        -- intros a ba Ha Hak. rewrite lookup_put_ne by congruence.
           rewrite blocks_pop. split; [exact Ha|exact Hak].
        -- split; [intros Hall; rewrite all_served_put; apply all_served_pop, Hall|].
           split; [solve_verdict|]. split; [solve_verdict|].
           eexists. split; [|split].
           ++ split; [|split; [exact Hbok|reflexivity]].
              split; [exact (proj1 Ho)|]. apply lookup_put_eq.
           ++ exact Hpre.
           ++ left. split; reflexivity.
      * pose proof (heap_top_pos (blocks m)) as Htop.
        pose proof (heap_top_fresh (blocks m)) as Hfresh.
        set (a := heap_top (blocks m)) in *.
        eexists _, _, _. split; [reflexivity|]. split.
        -- intros a' ba Ha Hak.
           assert (a ≠ a') by congruence.
           rewrite lookup_put_ne by assumption.
           rewrite lookup_drop_ne by congruence.
           rewrite blocks_pop. split; [exact Ha|lia].
        -- split; [intros Hall; rewrite all_served_put, all_served_drop;
                   apply all_served_pop, Hall|].
           split; [solve_verdict|]. split; [solve_verdict|].
           eexists. split; [|split].
           ++ split; [|split; [exact Hbok|reflexivity]].
              split; [unfold ALLOC_PAD; lia|]. unfold ALLOC_PAD.
              replace (a + 16 - 16) with a by lia. apply lookup_put_eq.
           ++ exact Hpre.
           ++ left. split; reflexivity.
  - (* shrinking *)
    destruct (Z.ltb_spec n L) as [Hlt|]; [|lia].
    rewrite (resize_shrink_at n L 1 A A0 p m b Ho eq_refl) by lia.
    cbv zeta. set (kl := killed n L (b_slots b)).
    assert (Hklen : length kl = length (b_slots b)) by apply length_killed.
    assert (Hkpre : ∀ j : nat, (j < Z.to_nat (Z.min L n))%nat → kl !! j = b_slots b !! j).
    { intros j Hj. apply lookup_killed_lt. lia. }
    set (m1 := put_block (p - 16) (with_slots kl b) m).
    set (l' := fit_slots cap kl).
    assert (Hlen : length l' = cap) by apply length_fit_slots.
    assert (Hpre : ∀ j : nat, (j < Z.to_nat (Z.min L n))%nat → l' !! j = b_slots b !! j).
    { intros j Hj. unfold l'. rewrite lookup_fit_slots by lia. apply Hkpre, Hj. }
    assert (Hbok : block_ok (Block 1 n l')).
    { apply block_ok_intro; try lia. fold A cap. lia. }
    destruct (Z.eqb_spec A A0) as [Heq|Hdiff].
    + eexists _, _, _. split; [reflexivity|]. split.
      * intros a ba Ha Hak. rewrite lookup_put_ne by congruence. split; [exact Ha|exact Hak].
      * split; [intros Hall; exact Hall|]. split; [solve_verdict|]. split; [solve_verdict|].
        eexists. split; [|split].
        -- split; [apply (owns_put _ _ b); exact Ho|]. split; [|exact Hrc].
           rewrite Hrc. apply block_ok_intro; try lia. fold A cap. rewrite Hklen.
           unfold cap. rewrite Heq. exact Hcap.
        -- exact Hkpre.
        -- left. split; reflexivity.
    + rewrite next_served_verdict.
      destruct (fst (pop_verdict m)) eqn:Hv.
      * eexists _, _, _. split; [reflexivity|]. split.
        -- intros a ba Ha Hak. unfold m1. rewrite pop_put, lookup_put_ne by congruence.
           rewrite blocks_pop. split; [exact Ha|exact Hak].
        -- split; [intros Hall; unfold m1; rewrite pop_put, all_served_put;
                   apply all_served_pop, Hall|].
           split; [solve_verdict|]. split; [solve_verdict|].
           exists (with_slots kl b). split; [|split].
           ++ split; [|split; [|exact Hrc]].
              ** split; [exact (proj1 Ho)|]. unfold m1. rewrite pop_put. apply lookup_put_eq.
              ** destruct Hok as (H1 & H2 & H3 & H4).
                 repeat split; simpl; try lia.
           ++ exact Hkpre.
           ++ right. split; [reflexivity|]. split; [reflexivity|].
              intros [?|Htriv]; [lia|]. intros j Hj. simpl.
              unfold kl, killed. rewrite Htriv. reflexivity.
      * eexists _, _, _. split; [reflexivity|]. split.
        -- intros a ba Ha Hak. unfold m1. rewrite lookup_put_ne by congruence.
           rewrite pop_put, lookup_put_ne by congruence.
           rewrite blocks_pop. split; [exact Ha|exact Hak].
        -- split; [intros Hall; unfold m1; rewrite all_served_put, pop_put, all_served_put;
                   apply all_served_pop, Hall|].
           split; [solve_verdict|]. split; [solve_verdict|].
           eexists. split; [|split].
           ++ split; [|split; [exact Hbok|reflexivity]].
              split; [exact (proj1 Ho)|]. apply lookup_put_eq.
           ++ exact Hpre.
           ++ left. split; reflexivity.
      * pose proof (heap_top_pos (blocks m1)) as Htop.
        pose proof (heap_top_fresh (blocks m1)) as Hfresh.
        set (a := heap_top (blocks m1)) in *.
        assert (Hap : a ≠ p - 16).
        { intros Heq. rewrite Heq in Hfresh. unfold m1 in Hfresh.
          rewrite lookup_put_eq in Hfresh. discriminate. }
        eexists _, _, _. split; [reflexivity|]. split.
        -- intros a' ba Ha Hak.
           assert (a ≠ a').
           { intros <-. unfold m1 in Hfresh. rewrite lookup_put_ne in Hfresh by congruence.
             congruence. }
           rewrite lookup_put_ne by assumption.
           rewrite lookup_drop_ne by congruence.
           unfold m1. rewrite pop_put, lookup_put_ne by congruence.
           rewrite blocks_pop. split; [exact Ha|lia].
        -- split; [intros Hall; unfold m1;
                   rewrite all_served_put, all_served_drop, pop_put, all_served_put;
                   apply all_served_pop, Hall|].
           split; [solve_verdict|]. split; [solve_verdict|].
           eexists. split; [|split].
           ++ split; [|split; [exact Hbok|reflexivity]].
              split; [unfold ALLOC_PAD; lia|]. unfold ALLOC_PAD.
              replace (a + 16 - 16) with a by lia. apply lookup_put_eq.
           ++ exact Hpre.
           ++ left. split; reflexivity.
Qed.

Lemma resize_sized_null ez n m :
  0 < n ≤ MAX_INT → n * elem_bytes ≤ 2 ^ 63 → next_served m = true →
  ∃ p' m', resize_sized ez n 0 0 0 m = Done OK p' m' ∧
    (∀ a ba, blocks m !! a = Some ba → blocks m' !! a = Some ba ∧ a ≠ p' - 16) ∧
    resized [] 0 n m OK p' m'.
Proof.
  intros Hn Hbytes Hserved. pose proof elem_bytes_pos as Hpos.
  pose proof (alloc_size_bounds n ltac:(lia) Hbytes) as HA.
  pose proof (room_for n ltac:(lia) Hbytes) as Hfit.
  set (A := _get_alloc_size n) in *.
  set (cap := slots_of_bytes (A + ALLOC_PAD)) in *.
  unfold resize_sized, resized.
  rewrite (alloc_size_checked_in_range n) by lia. fold A. cbn [negb].
  destruct (Z.gtb_spec n 0) as [_|]; [|lia].
  assert (HA0 : _get_alloc_size (wrap 0) = 0) by reflexivity. rewrite HA0.
  rewrite (resize_grow_scratch ez n 0 A 0 m) by (try assumption; unfold USIZE_MOD; lia).
  fold cap. set (l' := built ez n 0 (fit_slots cap [])).
  assert (Hlen : length l' = cap).
  { unfold l'. rewrite length_built; rewrite ?length_fit_slots; lia. }
  pose proof (heap_top_pos (blocks m)) as Htop.
  pose proof (heap_top_fresh (blocks m)) as Hfresh.
  set (a := heap_top (blocks m)) in *.
  eexists _, _. split; [reflexivity|]. split.
  - intros a' ba Ha. assert (a ≠ a') by congruence.
    rewrite lookup_put_ne by assumption. rewrite blocks_pop. split; [exact Ha|lia].
  - split; [intros Hall; rewrite all_served_put; apply all_served_pop, Hall|].
    split; [solve_verdict|]. split; [solve_verdict|].
    exists (Block 1 n l'). split; [|split].
    + split; [|split; [|reflexivity]].
      * split; [unfold ALLOC_PAD; lia|]. unfold ALLOC_PAD.
        replace (a + 16 - 16) with a by lia. apply lookup_put_eq.
      * apply block_ok_intro; try lia; [unfold USIZE_MOD; lia|]. fold A cap. lia.
    + intros j Hj. lia.
    + left. split; reflexivity.
Qed.

(** *** [resize] up to the computation of the sizes *)

Lemma resize_negative ez n p m : n < 0 → resize ez n p m = Done ERR_INVALID_PARAMETER p m.
Proof. intros Hn. unfold resize. destruct (Z.ltb_spec n 0); [reflexivity|lia]. Qed.

Lemma resize_same ez n p m :
  0 ≤ n → seen_size p m = Some n → resize ez n p m = Done OK p m.
Proof.
  unfold seen_size. intros Hn Hs. unfold resize.
  destruct (Z.ltb_spec n 0) as [Hneg|_].
  - lia.
  - unfold bind at 1. destruct (size p m) as [s p' m'|] eqn:Hsz; [|discriminate].
    simpl in Hs. injection Hs as ->.
    assert (Hpm : p' = p ∧ m' = m).
    { revert Hsz. unfold size, _get_size, bind, this_ptr, ret, load_size, read_block.
      destruct (size_addr p =? 0); [intros [= _ -> ->]; tauto|].
      destruct (blocks m !! (size_addr p - 8)); [intros [= _ -> ->]; tauto|discriminate]. }
    destruct Hpm as [-> ->]. rewrite Z.eqb_refl. reflexivity.
Qed.

Lemma resize_null ez n m :
  0 < n → resize ez n 0 m = resize_sized ez n 0 0 0 m.
Proof.
  intros Hn. unfold resize. destruct (Z.ltb_spec n 0); [lia|].
  rewrite (bind_Done _ _ _ _ _ _ _ (size_null m)).
  destruct (Z.eqb_spec n 0); [lia|]. reflexivity.
Qed.

Lemma resize_exclusive ez n p m b :
  holds p m b → 0 < n → n ≠ b_size b →
  resize ez n p m = resize_sized ez n (b_size b) 1 p m.
Proof.
  intros (Ho & Hok & Hrc) Hn Hne. unfold resize. destruct (Z.ltb_spec n 0); [lia|].
  rewrite (bind_Done _ _ _ _ _ _ _ (size_owns _ _ _ Ho)), (block_ok_size _ Hok).
  destruct (Z.eqb_spec n (b_size b)); [lia|]. destruct (Z.eqb_spec n 0); [lia|].
  rewrite (bind_Done _ _ _ _ _ _ _ (_copy_on_write_exclusive _ _ _ Ho ltac:(lia))).
  rewrite Hrc. reflexivity.
Qed.

Lemma resize_shared ez n p m b :
  owns p m b → block_ok b → 1 < b_refcount b → next_served m = true →
  0 < n → n ≠ b_size b →
  resize ez n p m =
    resize_sized ez n (b_size b) 1 (heap_top (blocks m) + 16)
      (put_block (p - 16) (with_refcount (b_refcount b - 1) b)
         (put_block (heap_top (blocks m)) (Block 1 (b_size b) (clone_slots b)) (pop m))).
Proof.
  intros Ho Hok Hrc Hserved Hn Hne. unfold resize. destruct (Z.ltb_spec n 0); [lia|].
  rewrite (bind_Done _ _ _ _ _ _ _ (size_owns _ _ _ Ho)), (block_ok_size _ Hok).
  destruct (Z.eqb_spec n (b_size b)); [lia|]. destruct (Z.eqb_spec n 0); [lia|].
  rewrite (bind_Done _ _ _ _ _ _ _ (_copy_on_write_shared _ _ _ Ho Hok Hrc Hserved)).
  reflexivity.
Qed.

Lemma resize_zero_owns ez p m b :
  owns p m b → block_ok b →
  resize ez 0 p m =
    Done OK 0
      (if b_refcount b =? 1 then drop_block (p - 16) m
       else put_block (p - 16) (with_refcount (b_refcount b - 1) b) m).
Proof.
  intros Ho Hok. pose proof Hok as (_ & Hsz & _). unfold resize.
  destruct (Z.ltb_spec 0 0); [lia|].
  rewrite (bind_Done _ _ _ _ _ _ _ (size_owns _ _ _ Ho)), (block_ok_size _ Hok).
  destruct (Z.eqb_spec 0 (b_size b)); [lia|]. cbn [Z.eqb].
  rewrite (bind_Done _ _ _ _ _ _ _ (this_ptr_eq p m)).
  rewrite (bind_Done _ _ _ _ _ _ _ (_unref_owns _ _ _ Ho Hok)).
  reflexivity.
Qed.

(** The clone that [_copy_on_write] makes is well formed, and held by the
    handle alone. *)
Lemma clone_holds p m b :
  owns p m b → block_ok b →
  holds (heap_top (blocks m) + 16)
    (put_block (p - 16) (with_refcount (b_refcount b - 1) b)
       (put_block (heap_top (blocks m)) (Block 1 (b_size b) (clone_slots b)) (pop m)))
    (Block 1 (b_size b) (clone_slots b)).
Proof.
  intros Ho Hok. pose proof (owns_fresh_ne _ _ _ Ho) as Hfresh.
  pose proof (heap_top_pos (blocks m)) as Htop.
  pose proof Hok as (_ & Hsz & Hbytes & _).
  split; [|split; [|reflexivity]].
  - split; [unfold ALLOC_PAD; lia|]. unfold ALLOC_PAD.
    replace (heap_top (blocks m) + 16 - 16) with (heap_top (blocks m)) by lia.
    rewrite lookup_put_ne by congruence. apply lookup_put_eq.
  - apply block_ok_intro; try lia; [unfold USIZE_MOD; lia|].
    rewrite (length_clone_slots _ Hok). lia.
Qed.

(** *** Views *)

Lemma to_Size_le x : to_Size x ≤ x.
Proof. unfold to_Size, USIZE_MOD. destruct (x <=? MAX_INT); lia. Qed.

Lemma same_view_blocks p m b p' m' b' :
  owns p m b → owns p' m' b' → b_size b' = b_size b →
  (∀ j : nat, (j < Z.to_nat (b_size b))%nat → b_slots b' !! j = b_slots b !! j) →
  same_view p m p' m'.
Proof.
  intros Ho Ho' Hsz Hpre. split.
  - rewrite (seen_size_owns _ _ _ Ho), (seen_size_owns _ _ _ Ho'), Hsz. reflexivity.
  - intros i. rewrite (seen_elem_owns _ _ _ _ Ho), (seen_elem_owns _ _ _ _ Ho'), Hsz.
    destruct (Z.leb_spec 0 i); [|reflexivity].
    destruct (Z.ltb_spec i (to_Size (b_size b))); [|reflexivity]. simpl.
    apply Hpre. pose proof (to_Size_le (b_size b)). lia.
Qed.

Lemma same_view_refl p m : same_view p m p m.
Proof. split; reflexivity. Qed.

Lemma prefix_kept_blocks k p m b p' m' b' :
  owns p m b → owns p' m' b' → block_ok b → block_ok b' →
  k ≤ b_size b → k ≤ b_size b' →
  (∀ j : nat, (j < Z.to_nat k)%nat → b_slots b' !! j = b_slots b !! j) →
  prefix_kept k p m p' m'.
Proof.
  intros Ho Ho' Hok Hok' Hk Hk' Hpre i Hi.
  rewrite (seen_elem_owns _ _ _ _ Ho), (seen_elem_owns _ _ _ _ Ho').
  rewrite (block_ok_size _ Hok), (block_ok_size _ Hok').
  destruct (Z.leb_spec 0 i); [|lia].
  destruct (Z.ltb_spec i (b_size b)); [|lia].
  destruct (Z.ltb_spec i (b_size b')); [|lia]. simpl.
  apply Hpre. lia.
Qed.

(** *** [resize] on a well-formed handle *)

Lemma block_ok_exclusive_or_shared b :
  block_ok b → b_refcount b = 1 ∨ 1 < b_refcount b.
Proof. intros (Hrc & _). lia. Qed.

Lemma after_clone_exclusive b m : b_refcount b = 1 → after_clone b m = m.
Proof. intros H. unfold after_clone. rewrite H. reflexivity. Qed.

Lemma after_clone_shared b m : 1 < b_refcount b → after_clone b m = pop m.
Proof.
  intros H. unfold after_clone. destruct (Z.ltb_spec 1 (b_refcount b)); [reflexivity|lia].
Qed.

Lemma resize_owns ez n p m b :
  owns p m b → block_ok b → (1 < b_refcount b → next_served m = true) →
  0 < n ≤ MAX_INT → n ≠ b_size b → n * elem_bytes ≤ 2 ^ 63 →
  ∃ r p' m', resize ez n p m = Done r p' m' ∧
    others_kept (p - 16) m p' m' ∧
    (1 < b_refcount b →
       blocks m' !! (p - 16) = Some (with_refcount (b_refcount b - 1) b) ∧ p' ≠ p) ∧
    resized (b_slots b) (b_size b) n (after_clone b m) r p' m'.
Proof.
  intros Ho Hok Hserved Hn Hne Hbytes.
  destruct (block_ok_exclusive_or_shared _ Hok) as [Hrc|Hrc].
  - rewrite (resize_exclusive ez n p m b)
      by first [exact (conj Ho (conj Hok Hrc)) | lia].
    destruct (resize_sized_exclusive ez n p m b) as (r & p' & m' & Hrun & Hkept & Hres);
      try assumption; [exact (conj Ho (conj Hok Hrc))|].
    exists r, p', m'. split; [exact Hrun|]. split; [exact Hkept|].
    split; [lia|]. rewrite after_clone_exclusive by exact Hrc. exact Hres.
  - specialize (Hserved Hrc).
    rewrite (resize_shared ez n p m b) by (assumption || lia).
    pose proof (clone_holds _ _ _ Ho Hok) as Hclone.
    pose proof (owns_fresh_ne _ _ _ Ho) as Hfresh.
    pose proof (heap_top_fresh (blocks m)) as Hnone.
    set (a := heap_top (blocks m)) in *.
    set (m1 := put_block (p - 16) _ _) in *.
    destruct (resize_sized_exclusive ez n (a + 16) m1 _ Hclone)
      as (r & p' & m' & Hrun & Hkept & Hres); try assumption.
    simpl in Hrun. exists r, p', m'. split; [exact Hrun|].
    replace (a + 16 - 16) with a in Hkept by lia.
    split; [|split].
    + intros a' ba Ha Hak. apply Hkept; [|congruence].
      unfold m1. rewrite !lookup_put_ne by congruence. rewrite blocks_pop. exact Ha.
    + intros _. destruct (Hkept (p - 16) (with_refcount (b_refcount b - 1) b))
        as [Hkeep Hp']; [apply lookup_put_eq|congruence|].
      split; [exact Hkeep|]. congruence.
    + rewrite after_clone_shared by exact Hrc.
      destruct Hres as (Hall & Hnext & Hdeny & b' & Hholds & Hpre & Hcase).
      split; [exact Hall|]. split; [exact Hnext|]. split; [exact Hdeny|].
      exists b'. split; [exact Hholds|]. simpl in Hpre, Hcase. split.
      * intros j Hj. rewrite Hpre by exact Hj. apply lookup_clone_slots; [exact Hok|lia].
      * destruct Hcase as [Hc|(Hr & Hsz & Hsame)]; [left; exact Hc|right].
        split; [exact Hr|]. split; [exact Hsz|]. intros Hcond j Hj.
        rewrite (Hsame Hcond) by exact Hj. apply lookup_clone_slots; [exact Hok|lia].
Qed.

Lemma alloc_size_checked_overflow n :
  0 < n ≤ MAX_INT → 2 ^ 63 < n * elem_bytes → overflow_reported n →
  fst (_get_alloc_size_checked (wrap n)) = false.
Proof.
  intros Hn Hbig Hrep. rewrite wrap_small by (unfold USIZE_MOD, MAX_INT in *; lia).
  unfold _get_alloc_size_checked. destruct (Z.eqb_spec n 0); [lia|].
  destruct checked_arith eqn:Hc.
  - destruct (Z.leb_spec USIZE_MOD (n * elem_bytes)); [reflexivity|].
    rewrite next_po2_overflow by (unfold USIZE_MOD in *; lia).
    destruct (USIZE_MOD <=? n * elem_bytes + 32); reflexivity.
  - destruct Hrep as [Hrep|Hrep]; [unfold checked_arith in *; congruence|].
    unfold _get_alloc_size.
    rewrite wrap_small by (unfold USIZE_MOD in *; lia).
    rewrite next_po2_overflow by (unfold USIZE_MOD in *; lia). reflexivity.
Qed.

Lemma resize_sized_refused ez n L rc p m :
  fst (_get_alloc_size_checked (wrap n)) = false →
  resize_sized ez n L rc p m = Done ERR_OUT_OF_MEMORY p m.
Proof.
  intros H. unfold resize_sized. destruct (_get_alloc_size_checked (wrap n)) as [ok A].
  simpl in H. rewrite H. reflexivity.
Qed.

Lemma pow2_ceil_in_range x : 0 < x ≤ 2 ^ 63 → 2 ^ Z.log2_up x ≤ 2 ^ 63.
Proof.
  intros Hx. apply Z.pow_le_mono_r; [lia|]. apply Z.log2_up_le_pow2; lia.
Qed.

Lemma capacity_overflows_big n : 0 < n → capacity_overflows n → 2 ^ 63 < n * elem_bytes.
Proof.
  intros Hn Hov. pose proof elem_bytes_pos as Hpos.
  destruct (Z_lt_le_dec (2 ^ 63) (n * elem_bytes)) as [|Hle]; [assumption|].
  assert (Hprod : 0 < n * elem_bytes) by nia.
  pose proof (pow2_ceil_in_range (n * elem_bytes) (conj Hprod Hle)) as Hc.
  unfold capacity_overflows, USIZE_MOD, ALLOC_PAD in Hov. lia.
Qed.

Lemma view_unshared p m b m' c :
  owns p m b → blocks m' !! (p - 16) = Some (with_refcount c b) → same_view p m p m'.
Proof.
  intros Ho Hb'. apply (same_view_blocks p m b p m' (with_refcount c b) Ho).
  - split; [exact (proj1 Ho)|exact Hb'].
  - reflexivity.
  - intros j _. reflexivity.
Qed.

Lemma resize_overflow ez n p m :
  handle_ok p m → (∀ b, owns p m b → 1 < b_refcount b → next_served m = true) →
  0 < n ≤ MAX_INT → 2 ^ 63 < n * elem_bytes → overflow_reported n →
  ∃ p' m', resize ez n p m = Done ERR_OUT_OF_MEMORY p' m' ∧
           same_view p m p' m' ∧ same_view p m p m'.
Proof.
  intros Hh Hserved Hn Hbig Hrep.
  pose proof (alloc_size_checked_overflow n Hn Hbig Hrep) as Hfail.
  destruct Hh as [->|(b & Ho & Hok)].
  - rewrite resize_null by lia. rewrite resize_sized_refused by exact Hfail.
    eexists _, _. split; [reflexivity|split; apply same_view_refl].
  - pose proof Hok as (_ & Hsz & HLb & _).
    destruct (block_ok_exclusive_or_shared _ Hok) as [Hrc|Hrc].
    + rewrite (resize_exclusive ez n p m b)
        by first [exact (conj Ho (conj Hok Hrc)) | lia | nia].
      rewrite resize_sized_refused by exact Hfail.
      eexists _, _. split; [reflexivity|split; apply same_view_refl].
    + rewrite (resize_shared ez n p m b) by (eauto || lia || nia).
      rewrite resize_sized_refused by exact Hfail.
      eexists _, _. split; [reflexivity|]. split.
      * pose proof (clone_holds _ _ _ Ho Hok) as (Ho' & _ & _).
        apply (same_view_blocks _ _ _ _ _ _ Ho Ho'); [reflexivity|].
        intros j Hj. simpl. apply lookup_clone_slots; assumption.
      * apply (view_unshared _ _ _ _ _ Ho (lookup_put_eq _ _ _)).
Qed.

(** *** [insert] *)

Lemma length_shift_up l (i k : nat) : length (shift_up l i k) = length l.
Proof.
  revert l i. induction k as [|k IH]; intros l i; simpl; [reflexivity|].
  destruct (l !! (i - 1)%nat); [|reflexivity]. rewrite IH. apply length_insert.
Qed.

Lemma lookup_shift_up l (i k j : nat) :
  (k ≤ i)%nat → (i < length l)%nat →
  shift_up l i k !! j =
    if decide (i - k < j ≤ i)%nat then l !! (j - 1)%nat else l !! j.
Proof.
  revert l i. induction k as [|k IH]; intros l i Hk Hi; simpl.
  - destruct (decide (i - 0 < j ≤ i)%nat); [lia|reflexivity].
  - destruct (lookup_lt_is_Some_2 l (i - 1)%nat) as [x Hx]; [lia|]. rewrite Hx.
    rewrite IH by (rewrite ?length_insert; lia).
    destruct (decide (i - 1 - k < j ≤ i - 1)%nat) as [Hin|Hout].
    + rewrite list_lookup_insert_ne by lia.
      destruct (decide (i - S k < j ≤ i)%nat); [reflexivity|lia].
    + destruct (decide (j = i)) as [->|Hne].
      * rewrite list_lookup_insert_eq by lia.
        destruct (decide (i - S k < i ≤ i)%nat); [symmetry; exact Hx|lia].
      * rewrite list_lookup_insert_ne by lia.
        destruct (decide (i - S k < j ≤ i)%nat); [lia|reflexivity].
Qed.

Lemma holds_with_slots p m b l' :
  holds p m b → length l' = length (b_slots b) →
  holds p (put_block (p - 16) (with_slots l' b) m) (with_slots l' b).
Proof.
  intros (Ho & (H1 & H2 & H3 & H4) & Hrc) Hlen.
  split; [apply (owns_put _ _ b); exact Ho|]. split; [|exact Hrc].
  repeat split; simpl; try lia.
Qed.

Lemma get_holds p m b i :
  holds p m b → 0 ≤ i < b_size b →
  ∃ x, b_slots b !! Z.to_nat i = Some x ∧ get i p m = Done x p m.
Proof.
  intros (Ho & Hok & _) Hi. destruct (block_ok_slot b i Hok Hi) as [x Hx].
  exists x. split; [exact Hx|]. apply (get_owns _ _ b); [exact Ho| |exact Hx].
  rewrite (block_ok_size _ Hok). exact Hi.
Qed.

Lemma insert_loop_at pos p (k : nat) : ∀ (i : nat) m b,
  holds p m b → Z.of_nat i < b_size b → Z.of_nat i = pos + Z.of_nat k → 0 ≤ pos →
  insert_loop k (Z.of_nat i) pos p m =
    Done tt p (put_block (p - 16) (with_slots (shift_up (b_slots b) i k) b) m).
Proof.
  induction k as [|k IH]; intros i m b Hholds Hi Hik Hpos; simpl.
  - destruct Hholds as ((_ & Hb) & _). unfold ALLOC_PAD in Hb.
    rewrite with_slots_id, (put_id _ _ _ Hb). reflexivity.
  - destruct (Z.gtb_spec (Z.of_nat i) pos); [|lia].
    destruct (get_holds p m b (Z.of_nat i - 1) Hholds ltac:(lia)) as (x & Hx & Hget).
    replace (Z.to_nat (Z.of_nat i - 1)) with (i - 1)%nat in Hx by lia.
    rewrite Hx, (bind_Done _ _ _ _ _ _ _ Hget).
    pose proof Hholds as (Ho & Hok & Hrc).
    rewrite (bind_Done _ _ _ _ _ _ _ (set_exclusive p m b (Z.of_nat i) x Ho Hok Hrc ltac:(lia))).
    rewrite Nat2Z.id.
    replace (Z.of_nat i - 1) with (Z.of_nat (i - 1)) by lia.
    rewrite (IH (i - 1)%nat _ (with_slots (<[i:=x]> (b_slots b)) b)).
    + rewrite put_put. reflexivity.
    + apply holds_with_slots; [exact Hholds|apply length_insert].
    + simpl. lia.
    + lia.
    + exact Hpos.
Qed.

Lemma insert_tail_at pos v p m b :
  holds p m b → 0 ≤ pos ≤ b_size b →
  ∃ l', insert_tail pos v p m = Done OK p (put_block (p - 16) (with_slots l' b) m) ∧
        length l' = length (b_slots b) ∧
        (pos < b_size b →
         l' = <[Z.to_nat pos := v]>
                (shift_up (b_slots b) (Z.to_nat (b_size b - 1)) (Z.to_nat (b_size b - 1 - pos)))).
Proof.
  intros Hholds Hpos. pose proof Hholds as (Ho & Hok & Hrc).
  pose proof Hok as (_ & Hsz & _).
  unfold insert_tail.
  rewrite (bind_Done _ _ _ _ _ _ _ (size_owns _ _ _ Ho)), (block_ok_size _ Hok).
  set (L := b_size b) in *.
  assert (Hloop : ∃ l1, insert_loop (Z.to_nat (L - 1 - pos)) (L - 1) pos p m =
                      Done tt p (put_block (p - 16) (with_slots l1 b) m) ∧
                      length l1 = length (b_slots b) ∧
                      (pos < L → l1 = shift_up (b_slots b) (Z.to_nat (L - 1))
                                        (Z.to_nat (L - 1 - pos)))).
  { destruct (Z_lt_le_dec pos L) as [Hlt|Hge].
    - exists (shift_up (b_slots b) (Z.to_nat (L - 1)) (Z.to_nat (L - 1 - pos))).
      split; [|split; [apply length_shift_up|reflexivity]].
      rewrite <- (Z2Nat.id (L - 1)) at 2 by lia.
      apply insert_loop_at; [exact Hholds|fold L; lia|lia|lia].
    - exists (b_slots b). split; [|split; [reflexivity|lia]].
      replace (Z.to_nat (L - 1 - pos)) with 0%nat by lia. simpl.
      destruct Ho as (_ & Hb). unfold ALLOC_PAD in Hb.
      rewrite with_slots_id, (put_id _ _ _ Hb). reflexivity. }
  destruct Hloop as (l1 & Hrun & Hlen & Hl1).
  rewrite (bind_Done _ _ _ _ _ _ _ Hrun).
  pose proof (holds_with_slots p m b l1 Hholds Hlen) as (Ho1 & Hok1 & Hrc1).
  destruct (Z_lt_le_dec pos L) as [Hlt|Hge].
  - rewrite (bind_Done _ _ _ _ _ _ _
      (set_exclusive p _ _ pos v Ho1 Hok1 Hrc1 ltac:(simpl; fold L; lia))).
    rewrite put_put. eexists. split; [reflexivity|]. simpl.
    split; [rewrite length_insert; exact Hlen|]. intros _. rewrite (Hl1 Hlt). reflexivity.
  - rewrite (bind_Done _ _ _ _ _ _ _
      (set_bad_index p _ _ pos v Ho1 Hok1 ltac:(simpl; fold L; lia))).
    exists l1. split; [reflexivity|]. split; [exact Hlen|lia].
Qed.

Lemma to_Size_wrap_small x : 0 ≤ x ≤ MAX_INT → to_Size (wrap x) = x.
Proof.
  intros Hx. rewrite wrap_small by (unfold USIZE_MOD, MAX_INT in *; lia).
  apply to_Size_small. lia.
Qed.

Lemma insert_unfold pos v p m L :
  size p m = Done L p m → 0 ≤ pos ≤ L → L + 1 ≤ MAX_INT →
  insert pos v p m = (let! _ := resize false (L + 1) in insert_tail pos v) p m.
Proof.
  intros Hs Hpos HL. unfold insert.
  rewrite (bind_Done _ _ _ _ _ _ _ Hs).
  rewrite to_Size_wrap_small by lia. rewrite bad_index_false by lia.
  rewrite (bind_Done _ _ _ _ _ _ _ Hs).
  rewrite to_Size_wrap_small by lia. reflexivity.
Qed.

Lemma to_Size_wrap_le x : 0 ≤ x < USIZE_MOD → to_Size (wrap x) ≤ x.
Proof. intros Hx. rewrite wrap_small by exact Hx. apply to_Size_le. Qed.

Lemma insert_invalid pos v p m L :
  size p m = Done L p m → 0 ≤ L ≤ MAX_INT → pos < 0 ∨ L < pos →
  insert pos v p m = Done ERR_INVALID_PARAMETER p m.
Proof.
  intros Hs HL Hpos. unfold insert. rewrite (bind_Done _ _ _ _ _ _ _ Hs).
  pose proof (to_Size_wrap_le (L + 1) ltac:(unfold USIZE_MOD, MAX_INT in *; lia)).
  rewrite bad_index_true by lia. reflexivity.
Qed.

Lemma all_served_after_clone b m : all_served m = true → all_served (after_clone b m) = true.
Proof.
  intros H. unfold after_clone. destruct (1 <? b_refcount b); [apply all_served_pop|]; exact H.
Qed.

Lemma others_kept_put k m p' m' b' :
  others_kept k m p' m' → others_kept k m p' (put_block (p' - 16) b' m').
Proof.
  intros Hk a ba Ha Hak. destruct (Hk a ba Ha Hak) as [Hm' Hne].
  split; [|exact Hne]. rewrite lookup_put_ne by congruence. exact Hm'.
Qed.

Lemma inserted_lookup (l1 l0 : list T) (L pos : Z) v (j : nat) :
  0 ≤ pos ≤ L → L < Z.of_nat (length l1) →
  (∀ i : nat, (i < Z.to_nat L)%nat → l1 !! i = l0 !! i) →
  (j < Z.to_nat (L + 1))%nat →
  <[Z.to_nat pos := v]> (shift_up l1 (Z.to_nat L) (Z.to_nat (L - pos))) !! j =
    if decide (j < Z.to_nat pos)%nat then l0 !! j
    else if decide (j = Z.to_nat pos) then Some v
    else l0 !! (j - 1)%nat.
Proof.
  intros Hpos Hlen Hpre Hj.
  destruct (decide (j = Z.to_nat pos)) as [->|Hne].
  - rewrite list_lookup_insert_eq by (rewrite length_shift_up; lia).
    destruct (decide (Z.to_nat pos < Z.to_nat pos)%nat); [lia|reflexivity].
  - rewrite list_lookup_insert_ne by lia.
    rewrite lookup_shift_up by lia.
    destruct (decide (j < Z.to_nat pos)%nat) as [Hlt|Hge].
    + destruct (decide (Z.to_nat L - Z.to_nat (L - pos) < j ≤ Z.to_nat L)%nat); [lia|].
      apply Hpre. lia.
    + destruct (decide (Z.to_nat L - Z.to_nat (L - pos) < j ≤ Z.to_nat L)%nat); [|lia].
      apply Hpre. lia.
Qed.

Lemma insert_owns pos v p m b :
  owns p m b → block_ok b → (1 < b_refcount b → next_served m = true) →
  fits (b_size b + 1) → 0 ≤ pos ≤ b_size b →
  ∃ p' m' b', insert pos v p m = Done OK p' m' ∧
    others_kept (p - 16) m p' m' ∧
    (1 < b_refcount b →
       blocks m' !! (p - 16) = Some (with_refcount (b_refcount b - 1) b) ∧ p' ≠ p) ∧
    holds p' m' b' ∧
    (all_served m = true →
       b_size b' = b_size b + 1 ∧
       ∀ j : nat, (j < Z.to_nat (b_size b + 1))%nat →
         b_slots b' !! j =
           if decide (j < Z.to_nat pos)%nat then b_slots b !! j
           else if decide (j = Z.to_nat pos) then Some v
           else b_slots b !! (j - 1)%nat).
Proof.
  intros Ho Hok Hserved [Hmax Hbytes] Hpos. pose proof Hok as (_ & Hsz & _).
  set (L := b_size b) in *.
  assert (Hs : size p m = Done L p m).
  { rewrite (size_owns _ _ _ Ho), (block_ok_size _ Hok). reflexivity. }
  rewrite (insert_unfold pos v p m L Hs Hpos Hmax).
  destruct (resize_owns false (L + 1) p m b Ho Hok Hserved ltac:(lia) ltac:(fold L; lia) Hbytes)
    as (r & p1 & m1 & Hrun & Hkept & Hshared & Hres).
  rewrite (bind_Done _ _ _ _ _ _ _ Hrun).
  destruct Hres as (_ & Hnext & _ & b1 & Hholds1 & Hpre & Hcase). fold L in Hpre, Hcase.
  assert (Hsz1 : b_size b1 = L + 1 ∨ b_size b1 = L) by tauto.
  destruct (insert_tail_at pos v p1 m1 b1 Hholds1 ltac:(lia)) as (l' & Htail & Hlen & Hl').
  rewrite Htail.
  exists p1, (put_block (p1 - 16) (with_slots l' b1) m1), (with_slots l' b1).
  split; [reflexivity|]. split; [apply others_kept_put, Hkept|]. split; [|split].
  - intros Hrc. destruct (Hshared Hrc) as [Hblk Hne]. split; [|exact Hne].
    rewrite lookup_put_ne by lia. exact Hblk.
  - apply holds_with_slots; assumption.
  - intros Hall.
    assert (Hr : r = OK) by (apply Hnext, all_served_next, all_served_after_clone, Hall).
    destruct Hcase as [[_ Hsz1']|[Hr' _]]; [|congruence].
    split; [exact Hsz1'|]. intros j Hj. simpl.
    rewrite Hl' by lia. rewrite Hsz1'.
    replace (L + 1 - 1) with L by lia. replace (L + 1 - 1 - pos) with (L - pos) by lia.
    destruct Hholds1 as (_ & Hok1 & _). pose proof (block_ok_room _ Hok1) as Hroom1.
    apply inserted_lookup; try assumption; try lia.
    intros i Hi. apply Hpre. lia.
Qed.

Lemma insert_null v m :
  next_served m = true → fits 1 →
  ∃ p' m' b', insert 0 v 0 m = Done OK p' m' ∧
    (∀ a ba, blocks m !! a = Some ba → blocks m' !! a = Some ba ∧ a ≠ p' - 16) ∧
    holds p' m' b' ∧ b_size b' = 1 ∧ b_slots b' !! 0%nat = Some v.
Proof.
  intros Hserved [Hmax Hbytes].
  rewrite (insert_unfold 0 v 0 m 0 (size_null m)) by (unfold MAX_INT; lia).
  destruct (resize_sized_null false 1 m ltac:(unfold MAX_INT; lia) Hbytes Hserved)
    as (p1 & m1 & Hrun & Hkept & Hres).
  rewrite <- (resize_null false 1 m) in Hrun by lia.
  change (0 + 1) with 1. rewrite (bind_Done _ _ _ _ _ _ _ Hrun).
  destruct Hres as (_ & _ & _ & b1 & Hholds1 & _ & Hcase).
  assert (Hsz1 : b_size b1 = 1) by (destruct Hcase as [[_ ?]|[? _]]; [assumption|discriminate]).
  destruct (insert_tail_at 0 v p1 m1 b1 Hholds1 ltac:(lia)) as (l' & Htail & Hlen & Hl').
  rewrite Htail.
  exists p1, (put_block (p1 - 16) (with_slots l' b1) m1), (with_slots l' b1).
  split; [reflexivity|]. split; [|split; [|split]].
  - intros a ba Ha. destruct (Hkept a ba Ha) as [Hm1 Hne]. split; [|exact Hne].
    rewrite lookup_put_ne by congruence. exact Hm1.
  - apply holds_with_slots; assumption.
  - exact Hsz1.
  - simpl. rewrite Hl' by lia.
    destruct Hholds1 as (_ & Hok1 & _). pose proof (block_ok_room _ Hok1) as Hroom1.
    apply list_lookup_insert_eq. rewrite length_shift_up. lia.
Qed.

(** *** The claims *)

(** C10. Assigning to a handle from a handle that has the same storage
    reference (self-assignment included) does nothing at all: the copy path
    compares the two references first and returns, so the handle and the
    whole heap, reference counts included, stay as they were. *)
Theorem assign_same_storage_noop p m : assign p p m = Done tt p m.
Proof.
  unfold assign, _ref. rewrite (bind_Done _ _ _ _ _ _ _ (this_ptr_eq p m)).
  rewrite Z.eqb_refl. reflexivity.
Qed.

(** C5. From any state of a well-formed handle (empty, exclusively owned or
    shared) [resize(0)] returns [OK], leaves the handle empty with size 0,
    and does to the heap what [_unref] does: the block loses one reference,
    and is freed when that was the last one.  A negative length is refused
    with [ERR_INVALID_PARAMETER], and the current length is accepted with
    [OK]; both leave the handle and the heap as they were. *)
Theorem resize_zero_negative_same ez p m :
  handle_ok p m →
  (∃ m', resize ez 0 p m = Done OK 0 m' ∧
         _unref p p m = Done tt p m' ∧
         is_empty 0 m' = Done true 0 m' ∧ size 0 m' = Done 0 0 m' ∧
         (p = 0 → m' = m) ∧
         (∀ b, owns p m b →
            m' = if b_refcount b =? 1 then drop_block (p - 16) m
                 else put_block (p - 16) (with_refcount (b_refcount b - 1) b) m)) ∧
  (∀ n, n < 0 → resize ez n p m = Done ERR_INVALID_PARAMETER p m) ∧
  (∀ n, seen_size p m = Some n → resize ez n p m = Done OK p m).
Proof.
  intros Hh. split; [|split].
  - destruct Hh as [->|(b & Ho & Hok)].
    + exists m. repeat split; try reflexivity.
      intros b [Hp _]. unfold ALLOC_PAD in Hp. lia.
    + eexists. split; [apply (resize_zero_owns _ _ _ _ Ho Hok)|].
      split; [apply (_unref_owns _ _ _ Ho Hok)|].
      split; [reflexivity|]. split; [reflexivity|]. split.
      * intros ->. destruct Ho as [Hp _]. unfold ALLOC_PAD in Hp. lia.
      * intros b' [_ Hb']. destruct Ho as [_ Hb]. rewrite Hb in Hb'.
        injection Hb' as <-. reflexivity.
  - intros n Hn. apply resize_negative, Hn.
  - intros n Hs. apply resize_same; [|exact Hs].
    destruct Hh as [->|(b & Ho & Hok)].
    + rewrite seen_size_null in Hs. injection Hs as <-. lia.
    + rewrite (seen_size_owns _ _ _ Ho), (block_ok_size _ Hok) in Hs.
      injection Hs as <-. destruct Hok as (_ & ? & _). lia.
Qed.

Lemma contents_eq b b' :
  b_size b' = b_size b →
  b_size b ≤ Z.of_nat (length (b_slots b)) →
  b_size b ≤ Z.of_nat (length (b_slots b')) →
  (∀ j : nat, (j < Z.to_nat (b_size b))%nat → b_slots b' !! j = b_slots b !! j) →
  contents b' = contents b.
Proof.
  intros Hsz Hl Hl' Hpre. unfold contents. rewrite Hsz.
  apply list_eq. intros j.
  destruct (decide (j < Z.to_nat (b_size b))%nat) as [Hj|Hj].
  - rewrite !lookup_take_lt by exact Hj. apply Hpre, Hj.
  - rewrite !lookup_take_ge by lia. reflexivity.
Qed.

(** C2. The copy-on-write trigger on a well-formed handle: an empty handle
    and a handle whose refcount is at most 1 are left alone, with the whole
    heap, and the refcount is returned (0 for the empty handle).  When the
    refcount is above 1 and the allocator serves the request, the trigger
    returns 1 and the handle is moved to a block that was not allocated
    before, with refcount 1 and the length and the elements of the old
    block; the old block has lost one reference and is otherwise as it
    was, as is every other block. *)
Theorem copy_on_write_contract p m :
  handle_ok p m →
  (p = 0 → _copy_on_write p m = Done 0 p m) ∧
  (∀ b, owns p m b → b_refcount b ≤ 1 → _copy_on_write p m = Done (b_refcount b) p m) ∧
  (∀ b, owns p m b → 1 < b_refcount b → next_served m = true →
     ∃ p' m' nb,
       _copy_on_write p m = Done 1 p' m' ∧
       blocks m !! (p' - 16) = None ∧
       owns p' m' nb ∧ b_refcount nb = 1 ∧ b_size nb = b_size b ∧
       contents nb = contents b ∧ same_view p m p' m' ∧
       blocks m' !! (p - 16) = Some (with_refcount (b_refcount b - 1) b) ∧
       ∀ a, a ≠ p - 16 → a ≠ p' - 16 → blocks m' !! a = blocks m !! a).
Proof.
  intros Hh. split; [|split].
  - intros ->. reflexivity.
  - intros b Ho Hrc. apply (_copy_on_write_exclusive _ _ _ Ho Hrc).
  - intros b Ho Hrc Hserved.
    assert (Hok : block_ok b).
    { destruct Hh as [->|(b' & [_ Hb'] & Hok)].
      - destruct Ho as [Hp _]. unfold ALLOC_PAD in Hp. lia.
      - destruct Ho as [_ Hb]. rewrite Hb in Hb'. injection Hb' as <-. exact Hok. }
    pose proof (clone_holds _ _ _ Ho Hok) as (Ho' & Hok' & _).
    pose proof (owns_fresh_ne _ _ _ Ho) as Hfresh.
    pose proof (block_ok_room _ Hok) as Hroom.
    pose proof (block_ok_room _ Hok') as Hroom'. simpl in Hroom'.
    eexists _, _, _. split; [apply (_copy_on_write_shared _ _ _ Ho Hok Hrc Hserved)|].
    replace (heap_top (blocks m) + 16 - 16) with (heap_top (blocks m)) by lia.
    split; [apply heap_top_fresh|]. split; [exact Ho'|].
    split; [reflexivity|]. split; [reflexivity|].
    assert (Hpre : ∀ j : nat, (j < Z.to_nat (b_size b))%nat →
                     clone_slots b !! j = b_slots b !! j)
      by (intros j Hj; apply lookup_clone_slots; assumption).
    split; [apply contents_eq; simpl; auto|].
    split; [apply (same_view_blocks _ _ _ _ _ _ Ho Ho'); simpl; auto|].
    split; [apply lookup_put_eq|].
    intros a Ha Ha'. rewrite !lookup_put_ne by congruence.
    rewrite blocks_pop. reflexivity.
Qed.

Lemma capacity_overflows_pos n : capacity_overflows n → 0 < n.
Proof.
  intros Hov. pose proof elem_bytes_pos as Hpos.
  destruct (Z_lt_le_dec 0 n) as [|Hle]; [assumption|]. exfalso.
  assert (Hprod : n * elem_bytes ≤ 0) by nia.
  pose proof (Z.log2_up_nonpos _ Hprod) as Hlog.
  unfold capacity_overflows, USIZE_MOD, ALLOC_PAD in Hov. rewrite Hlog in Hov.
  simpl in Hov. lia.
Qed.

(** C3, amended. [resize] reports the overflow of the capacity arithmetic
    with [ERR_OUT_OF_MEMORY], and leaves what the handle shows as it is,
    whenever the overflow is one that [_get_alloc_size_checked] detects:
    any overflow in a build that compiles the checked branch (GCC, 32 bit),
    and in the other builds the overflow of the rounding or of the pad,
    but not a product that already wrapped around.  (A shared handle is
    cloned first, which takes an allocation that is served.) *)
Theorem resize_reports_overflow ez n p m :
  handle_ok p m → (∀ b, owns p m b → 1 < b_refcount b → next_served m = true) →
  n ≤ MAX_INT → capacity_overflows n → overflow_reported n →
  ∃ p' m', resize ez n p m = Done ERR_OUT_OF_MEMORY p' m' ∧ same_view p m p' m'.
Proof.
  intros Hh Hserved Hn Hov Hrep. pose proof (capacity_overflows_pos n Hov) as Hpos.
  destruct (resize_overflow ez n p m Hh Hserved ltac:(lia)
              (capacity_overflows_big n Hpos Hov) Hrep) as (p' & m' & Hrun & Hview & _).
  exists p', m'. split; assumption.
Qed.

(** C9, amended. A successful [resize] to [n > 0] elements of a handle
    that holds its block alone keeps every element below [min L n], where
    [L] is the length before the call, provided the byte size of [n]
    elements is one whose overflow would be reported (it is computed in a
    checked build, or it fits [USize]). *)
Theorem resize_keeps_prefix ez n p m b p' m' :
  holds p m b → 0 < n ≤ MAX_INT → overflow_reported n →
  resize ez n p m = Done OK p' m' →
  prefix_kept (Z.min (b_size b) n) p m p' m'.
Proof.
  intros Hholds Hn Hrep Hrun. pose proof Hholds as (Ho & Hok & Hrc).
  pose proof Hok as (_ & Hsz & _).
  destruct (Z.eq_dec n (b_size b)) as [->|Hne].
  - rewrite resize_same in Hrun
      by (try lia; rewrite (seen_size_owns _ _ _ Ho), (block_ok_size _ Hok); reflexivity).
    injection Hrun as <- <-. intros i _. reflexivity.
  - destruct (Z_lt_le_dec (2 ^ 63) (n * elem_bytes)) as [Hbig|Hfit].
    + assert (Hh : handle_ok p m) by (right; exists b; split; assumption).
      assert (Hserved : ∀ b', owns p m b' → 1 < b_refcount b' → next_served m = true).
      { intros b' [_ Hb'] Hrc'. destruct Ho as [_ Hb]. rewrite Hb in Hb'.
        injection Hb' as <-. lia. }
      destruct (resize_overflow ez n p m Hh Hserved Hn Hbig Hrep) as (p1 & m1 & Hrun1 & _).
      congruence.
    + destruct (resize_owns ez n p m b Ho Hok ltac:(lia) Hn Hne Hfit)
        as (r & p1 & m1 & Hrun1 & _ & _ & Hres).
      rewrite Hrun in Hrun1. injection Hrun1 as <- <- <-.
      destruct Hres as (_ & _ & _ & b' & (Ho' & Hok' & _) & Hpre & Hcase).
      destruct Hcase as [[_ Hsz']|[Hr _]]; [|discriminate].
      apply (prefix_kept_blocks _ _ _ _ _ _ _ Ho Ho' Hok Hok'); [lia|lia|exact Hpre].
Qed.

(** C4, amended. A [resize] of a non-empty well-formed handle to another
    positive length returns [ERR_OUT_OF_MEMORY] when the capacity
    arithmetic overflows in a way that is reported, and when the request
    for the reallocation into another bucket is denied; whenever it
    returns [ERR_OUT_OF_MEMORY], the handle shows the size and the
    elements it showed before, provided nothing was destroyed before the
    failure (the call was to grow the buffer, or [T] is trivially
    destructible). *)
Theorem resize_failure_atomic ez n p m b :
  owns p m b → block_ok b → (1 < b_refcount b → next_served m = true) →
  0 < n ≤ MAX_INT → n ≠ b_size b → overflow_reported n →
  ∃ r p' m', resize ez n p m = Done r p' m' ∧
    (capacity_overflows n → r = ERR_OUT_OF_MEMORY) ∧
    (next_served (after_clone b m) = false →
     _get_alloc_size n ≠ _get_alloc_size (b_size b) → r = ERR_OUT_OF_MEMORY) ∧
    (r = ERR_OUT_OF_MEMORY → b_size b < n ∨ trivially_destructible = true →
     same_view p m p' m').
Proof.
  intros Ho Hok Hserved Hn Hne Hrep.
  destruct (Z_lt_le_dec (2 ^ 63) (n * elem_bytes)) as [Hbig|Hfit].
  - assert (Hh : handle_ok p m) by (right; exists b; split; assumption).
    assert (Hserved' : ∀ b', owns p m b' → 1 < b_refcount b' → next_served m = true).
    { intros b' [_ Hb'] Hrc'. destruct Ho as [_ Hb]. rewrite Hb in Hb'.
      injection Hb' as <-. apply Hserved, Hrc'. }
    destruct (resize_overflow ez n p m Hh Hserved' Hn Hbig Hrep)
      as (p1 & m1 & Hrun1 & Hview & _).
    exists ERR_OUT_OF_MEMORY, p1, m1. split; [exact Hrun1|]. tauto.
  - destruct (resize_owns ez n p m b Ho Hok Hserved Hn Hne Hfit)
      as (r & p1 & m1 & Hrun1 & _ & _ & Hres).
    exists r, p1, m1. split; [exact Hrun1|].
    destruct Hres as (_ & _ & Hdeny & b' & (Ho' & Hok' & _) & Hpre & Hcase).
    split; [|split].
    + intros Hov. pose proof (capacity_overflows_big n ltac:(lia) Hov). lia.
    + exact Hdeny.
    + intros Hr Hcond. destruct Hcase as [[Hr' _]|(_ & Hsz' & Hsame)]; [congruence|].
      apply (same_view_blocks _ _ _ _ _ _ Ho Ho' Hsz'). apply Hsame, Hcond.
Qed.

Lemma seen_elem_holds p m b i :
  holds p m b →
  seen_elem p m i = if (0 <=? i) && (i <? b_size b) then b_slots b !! Z.to_nat i else None.
Proof.
  intros (Ho & Hok & _). rewrite (seen_elem_owns _ _ _ _ Ho), (block_ok_size _ Hok).
  reflexivity.
Qed.

Lemma seen_elem_in p m b i :
  owns p m b → block_ok b → 0 ≤ i < b_size b → seen_elem p m i = b_slots b !! Z.to_nat i.
Proof.
  intros Ho Hok Hi. rewrite (seen_elem_owns _ _ _ _ Ho), (block_ok_size _ Hok).
  destruct (Z.leb_spec 0 i); [|lia]. destruct (Z.ltb_spec i (b_size b)); [|lia].
  reflexivity.
Qed.

(** C6. [insert] on a well-formed handle of length [L]: a position outside
    [0, L] is refused with [ERR_INVALID_PARAMETER] and nothing changes.  A
    position in [0, L], the append position included, is accepted: when
    the allocator serves what is asked of it and the length [L + 1] is in
    range, the call returns [OK], the length is [L + 1], the elements below
    [pos] stay, [v] is at [pos], and each element that was at an index
    from [pos] on is one index higher. *)
Theorem insert_contract pos v p m L :
  handle_ok p m → seen_size p m = Some L →
  (pos < 0 ∨ L < pos → insert pos v p m = Done ERR_INVALID_PARAMETER p m) ∧
  (0 ≤ pos ≤ L → all_served m = true → fits (L + 1) →
     ∃ p' m', insert pos v p m = Done OK p' m' ∧
       seen_size p' m' = Some (L + 1) ∧
       (∀ i, 0 ≤ i < pos → seen_elem p' m' i = seen_elem p m i) ∧
       seen_elem p' m' pos = Some v ∧
       (∀ i, pos ≤ i < L → seen_elem p' m' (i + 1) = seen_elem p m i)).
Proof.
  intros Hh Hseen. split.
  - intros Hpos. destruct Hh as [->|(b & Ho & Hok)].
    + rewrite seen_size_null in Hseen. injection Hseen as <-.
      apply (insert_invalid pos v 0 m 0 (size_null m)); [unfold MAX_INT; lia|exact Hpos].
    + rewrite (seen_size_owns _ _ _ Ho), (block_ok_size _ Hok) in Hseen.
      injection Hseen as <-. pose proof Hok as (_ & Hsz & _).
      apply (insert_invalid pos v p m (b_size b)); [|lia|exact Hpos].
      rewrite (size_owns _ _ _ Ho), (block_ok_size _ Hok). reflexivity.
  - intros Hpos Hall Hfits. destruct Hh as [->|(b & Ho & Hok)].
    + rewrite seen_size_null in Hseen. injection Hseen as <-.
      assert (pos = 0) as -> by lia.
      destruct (insert_null v m (all_served_next _ Hall) Hfits)
        as (p' & m' & b' & Hrun & _ & Hholds & Hsz & Hv).
      pose proof Hholds as (Ho' & Hok' & _).
      exists p', m'. split; [exact Hrun|]. split; [|split; [|split]].
      * rewrite (seen_size_owns _ _ _ Ho'), (block_ok_size _ Hok'), Hsz. reflexivity.
      * intros i Hi. lia.
      * rewrite (seen_elem_in _ _ _ _ Ho' Hok') by lia. exact Hv.
      * intros i Hi. lia.
    + rewrite (seen_size_owns _ _ _ Ho), (block_ok_size _ Hok) in Hseen.
      injection Hseen as <-. pose proof Hok as (_ & Hsz & _).
      destruct (insert_owns pos v p m b Ho Hok (λ _, all_served_next _ Hall) Hfits Hpos)
        as (p' & m' & b' & Hrun & _ & _ & Hholds & Hcont).
      destruct (Hcont Hall) as [Hsz' Hslots].
      pose proof Hholds as (Ho' & Hok' & _).
      exists p', m'. split; [exact Hrun|]. split; [|split; [|split]].
      * rewrite (seen_size_owns _ _ _ Ho'), (block_ok_size _ Hok'), Hsz'. reflexivity.
      * intros i Hi. rewrite (seen_elem_in _ _ _ _ Ho' Hok') by lia.
        rewrite (seen_elem_in _ _ _ _ Ho Hok) by lia.
        rewrite Hslots by lia.
        destruct (decide (Z.to_nat i < Z.to_nat pos)%nat); [reflexivity|lia].
      * rewrite (seen_elem_in _ _ _ _ Ho' Hok') by lia. rewrite Hslots by lia.
        destruct (decide (Z.to_nat pos < Z.to_nat pos)%nat); [lia|].
        destruct (decide (Z.to_nat pos = Z.to_nat pos)); [reflexivity|lia].
      * intros i Hi. rewrite (seen_elem_in _ _ _ _ Ho' Hok') by lia.
        rewrite (seen_elem_in _ _ _ _ Ho Hok) by lia.
        rewrite Hslots by lia.
        destruct (decide (Z.to_nat (i + 1) < Z.to_nat pos)%nat); [lia|].
        destruct (decide (Z.to_nat (i + 1) = Z.to_nat pos)); [lia|].
        f_equal. lia.
Qed.

(** *** Copying a handle *)

Lemma assign_null_from_null m : assign 0 0 m = Done tt 0 m.
Proof. reflexivity. Qed.

Lemma assign_null_from_owns p m b :
  owns p m b → 1 ≤ b_refcount b → b_refcount b + 1 < USIZE_MOD →
  assign p 0 m = Done tt p (put_block (p - 16) (with_refcount (b_refcount b + 1) b) m).
Proof.
  intros Ho Hrc Hmax. pose proof (owns_nonnull _ _ _ Ho) as Hnz.
  pose proof Ho as [Hp Hb]. unfold ALLOC_PAD in Hb.
  unfold assign, _ref. rewrite (bind_Done _ _ _ _ _ _ _ (this_ptr_eq 0 m)).
  rewrite (Z.eqb_sym 0 p), Hnz.
  rewrite (bind_Done _ _ _ _ _ _ _ (_unref_null 0 m)).
  unfold bind at 1. unfold set_this_ptr.
  unfold refcount_addr. rewrite Hnz.
  rewrite (bind_Done _ _ _ _ _ _ _
    (SafeNumeric_conditional_increment_at p m b Hb 0 ltac:(lia))).
  rewrite wrap_small by lia.
  destruct (Z.gtb_spec (b_refcount b + 1) 0); [|lia]. reflexivity.
Qed.

(** C1. Copy-then-mutate isolation.  Let [A] be a well-formed handle with
    [_ptr = p] and [B] a copy of it, made from an empty handle by [_ref]:
    both handles then have the pointer [p], and a non-empty storage has one
    reference more.  A mutation ([set], [resize] or [insert]) through one
    of the two, when the allocator serves the request for the clone and
    the lengths asked for are in range, returns, and the other handle,
    which still has the pointer [p], shows the size and the elements that
    [A] showed before the copy.  The two handles are the same pointer, so
    the statement covers the mutation of either. *)
Theorem copy_then_mutate_isolated p m0 L mu :
  handle_ok p m0 → seen_size p m0 = Some L →
  (∀ b, owns p m0 b → b_refcount b + 1 < USIZE_MOD) →
  next_served m0 = true → mutation_fits L mu →
  ∃ m, assign p 0 m0 = Done tt p m ∧
    ∃ p' m', mutate mu p m = Done tt p' m' ∧ same_view p m0 p m'.
Proof.
  intros Hh Hseen Hroom Hserved Hfits. destruct Hh as [->|(b0 & Ho0 & Hok0)].
  - (* both handles are empty *)
    exists m0. split; [reflexivity|].
    assert (Hnull : ∀ m', same_view 0 m0 0 m').
    { intros m'. split; [reflexivity|]. intros i. rewrite !seen_elem_null. reflexivity. }
    rewrite seen_size_null in Hseen. injection Hseen as <-.
    destruct mu as [i x|ez n|pos x]; simpl.
    + rewrite set_null. eauto.
    + destruct Hfits as [Hmax Hrep].
      destruct (Z_lt_le_dec n 0) as [Hneg|Hnn].
      { rewrite (bind_Done _ _ _ _ _ _ _ (resize_negative ez n 0 m0 Hneg)). unfold ret. eauto. }
      destruct (Z.eq_dec n 0) as [->|Hnz].
      { rewrite (bind_Done _ _ _ _ _ _ _ (resize_same ez 0 0 m0 ltac:(lia) eq_refl)).
        unfold ret. eauto. }
      destruct (Z_lt_le_dec (2 ^ 63) (n * elem_bytes)) as [Hbig|Hsmall].
      * destruct (resize_overflow ez n 0 m0) as (p' & m' & Hrun & _);
          [left; reflexivity|intros b [Hp _]; unfold ALLOC_PAD in Hp; lia|lia|assumption..|].
        rewrite (bind_Done _ _ _ _ _ _ _ Hrun). unfold ret. eauto.
      * destruct (resize_sized_null ez n m0 ltac:(lia) Hsmall Hserved)
          as (p' & m' & Hrun & _).
        rewrite <- resize_null in Hrun by lia.
        rewrite (bind_Done _ _ _ _ _ _ _ Hrun). unfold ret. eauto.
    + destruct (Z.eq_dec pos 0) as [->|Hne].
      * destruct (insert_null x m0 Hserved Hfits) as (p' & m' & b' & Hrun & _).
        rewrite (bind_Done _ _ _ _ _ _ _ Hrun). unfold ret. eauto.
      * rewrite (bind_Done _ _ _ _ _ _ _
          (insert_invalid pos x 0 m0 0 (size_null m0) ltac:(unfold MAX_INT; lia) ltac:(lia))).
        unfold ret. eauto.
  - (* the storage is shared by the two handles *)
    pose proof Hok0 as (Hrc0 & Hsz0 & Hbytes0 & Hcap0).
    specialize (Hroom b0 Ho0).
    rewrite (seen_size_owns _ _ _ Ho0), (block_ok_size _ Hok0) in Hseen.
    injection Hseen as <-.
    eexists. split; [apply (assign_null_from_owns p m0 b0 Ho0); lia|].
    set (b := with_refcount (b_refcount b0 + 1) b0).
    set (m := put_block (p - 16) b m0).
    assert (Ho : owns p m b) by (apply (owns_put _ _ b0); exact Ho0).
    assert (Hok : block_ok b) by (repeat split; simpl; lia).
    assert (Hrc : 1 < b_refcount b) by (simpl; lia).
    assert (Hserved' : next_served m = true) by exact Hserved.
    assert (Hview : ∀ m' c, blocks m' !! (p - 16) = Some (with_refcount c b) →
                            same_view p m0 p m').
    { intros m' c Hb'. apply (view_unshared p m0 b0 m' c Ho0). exact Hb'. }
    assert (Hsame : same_view p m0 p m) by (apply (Hview m (b_refcount b)), lookup_put_eq).
    destruct mu as [i x|ez n|pos x]; simpl.
    + destruct (Z_lt_le_dec i 0) as [Hneg|Hnn];
        [|destruct (Z_lt_le_dec i (b_size b)) as [Hin|Hout]].
      * rewrite (set_bad_index p m b i x Ho Hok ltac:(lia)). eauto.
      * rewrite (set_shared p m b i x Ho Hok Hrc Hserved' ltac:(lia)).
        eexists _, _. split; [reflexivity|].
        apply (Hview _ (b_refcount b - 1)).
        rewrite lookup_put_ne by (apply owns_fresh_ne with (b := b); exact Ho).
        apply lookup_put_eq.
      * rewrite (set_bad_index p m b i x Ho Hok ltac:(lia)). eauto.
    + destruct Hfits as [Hmax Hrep].
      destruct (Z_lt_le_dec n 0) as [Hneg|Hnn].
      { rewrite (bind_Done _ _ _ _ _ _ _ (resize_negative ez n p m Hneg)). unfold ret. eauto. }
      destruct (Z.eq_dec n (b_size b)) as [->|Hne].
      { rewrite (bind_Done _ _ _ _ _ _ _ (resize_same ez (b_size b) p m ltac:(simpl; lia)
          ltac:(rewrite (seen_size_owns _ _ _ Ho), (block_ok_size _ Hok); reflexivity))).
        unfold ret. eauto. }
      destruct (Z.eq_dec n 0) as [->|Hnz].
      { rewrite (bind_Done _ _ _ _ _ _ _ (resize_zero_owns ez p m b Ho Hok)).
        destruct (Z.eqb_spec (b_refcount b) 1); [lia|]. unfold ret.
        eexists _, _. split; [reflexivity|].
        apply (Hview _ (b_refcount b - 1)), lookup_put_eq. }
      destruct (Z_lt_le_dec (2 ^ 63) (n * elem_bytes)) as [Hbig|Hsmall].
      * destruct (resize_overflow ez n p m) as (p' & m' & Hrun & _ & Hv);
          [right; exists b; split; assumption|intros; exact Hserved'|lia|assumption..|].
        rewrite (bind_Done _ _ _ _ _ _ _ Hrun). unfold ret.
        eexists _, _. split; [reflexivity|].
        destruct Hsame as [Hs1 Hs2]. destruct Hv as [Hv1 Hv2].
        split; [congruence|]. intros i. rewrite Hv2. apply Hs2.
      * destruct (resize_owns ez n p m b Ho Hok (λ _, Hserved') ltac:(lia) Hne Hsmall)
          as (r & p' & m' & Hrun & _ & Hshared & _).
        rewrite (bind_Done _ _ _ _ _ _ _ Hrun). unfold ret.
        eexists _, _. split; [reflexivity|].
        apply (Hview _ (b_refcount b - 1)), (Hshared Hrc).
    + destruct (Z_lt_le_dec pos 0) as [Hneg|Hnn];
        [|destruct (Z_le_gt_dec pos (b_size b)) as [Hin|Hout]].
      * rewrite (bind_Done _ _ _ _ _ _ _ (insert_invalid pos x p m (b_size b)
          ltac:(rewrite (size_owns _ _ _ Ho), (block_ok_size _ Hok); reflexivity)
          ltac:(simpl; lia) ltac:(lia))).
        unfold ret. eauto.
      * destruct (insert_owns pos x p m b Ho Hok (λ _, Hserved') Hfits ltac:(lia))
          as (p' & m' & b' & Hrun & _ & Hshared & _).
        rewrite (bind_Done _ _ _ _ _ _ _ Hrun). unfold ret.
        eexists _, _. split; [reflexivity|].
        apply (Hview _ (b_refcount b - 1)), (Hshared Hrc).
      * rewrite (bind_Done _ _ _ _ _ _ _ (insert_invalid pos x p m (b_size b)
          ltac:(rewrite (size_owns _ _ _ Ho), (block_ok_size _ Hok); reflexivity)
          ltac:(simpl; lia) ltac:(lia))).
        unfold ret. eauto.
Qed.

End Proofs.

(** * Further properties of the class *)

(** ** [next_po2] and the allocation sizes *)

(** X1. For [0 < x <= 2 ^ 63], [next_po2 x] is the least power of two
    that is not below [x]. *)
Theorem next_po2_least_power_of_two x :
  0 < x ≤ 2 ^ 63 →
  ∃ k, 0 ≤ k ≤ 63 ∧ next_po2 x = 2 ^ k ∧ x ≤ 2 ^ k ∧
       ∀ j, 0 ≤ j → x ≤ 2 ^ j → k ≤ j.
Proof.
  intros Hx. exists (Z.log2_up x). split; [|split; [|split]].
  - split; [apply Z.log2_up_nonneg|]. apply Z.log2_up_le_pow2; lia.
  - apply next_po2_pow2, Hx.
  - apply Z.log2_log2_up_spec. lia.
  - intros j Hj Hle. apply Z.log2_up_le_pow2; lia.
Qed.

(** X2. Above [2 ^ 63] there is no power of two in [USize]: the rounding
    wraps around and [next_po2] yields 0. *)
Theorem next_po2_wraps_to_zero x : 2 ^ 63 < x < 2 ^ 64 → next_po2 x = 0.
Proof. apply next_po2_overflow. Qed.

Section Extras.
Context {T : Type} {E : ElemType T} {B : Build}.
Implicit Types (p q a i : Z) (m : Memory T) (b : block T) (l : list T).

(** *** Helpers: the view through a well-formed handle *)

Lemma size_pure p m s p' m' : size p m = Done s p' m' → p' = p ∧ m' = m.
Proof.
  unfold size, _get_size, bind, this_ptr, ret, load_size, read_block.
  destruct (size_addr p =? 0); [intros [= _ <- <-]; auto|].
  destruct (blocks m !! (size_addr p - 8)); [intros [= _ <- <-]; auto|discriminate].
Qed.

Lemma seen_size_Done p m s : seen_size p m = Some s → size p m = Done s p m.
Proof.
  unfold seen_size. destruct (size p m) as [r p' m'|] eqn:Hs; [|discriminate].
  intros [= ->]. destruct (size_pure _ _ _ _ _ Hs) as [-> ->]. reflexivity.
Qed.

Lemma seen_elem_outside p m s i :
  seen_size p m = Some s → i < 0 ∨ s ≤ i → seen_elem p m i = None.
Proof.
  intros Hs Hi. unfold seen_elem.
  rewrite (get_bad_index _ _ _ _ (seen_size_Done _ _ _ Hs) (bad_index_true _ _ Hi)).
  reflexivity.
Qed.

Lemma seen_size_ok p m b : owns p m b → block_ok b → seen_size p m = Some (b_size b).
Proof. intros Ho Hok. rewrite (seen_size_owns _ _ _ Ho), (block_ok_size _ Hok). reflexivity. Qed.

Lemma length_contents b : block_ok b → length (contents b) = Z.to_nat (b_size b).
Proof.
  intros Hok. pose proof (block_ok_room _ Hok). unfold contents.
  rewrite length_take. lia.
Qed.

Lemma lookup_contents b (j : nat) :
  (j < Z.to_nat (b_size b))%nat → contents b !! j = b_slots b !! j.
Proof. intros Hj. unfold contents. apply lookup_take_lt. exact Hj. Qed.

Lemma shown_null m : shown 0 m = @nil T.
Proof. reflexivity. Qed.

Lemma shown_owns p m b : owns p m b → shown p m = contents b.
Proof.
  intros Ho. unfold shown. rewrite (owns_nonnull _ _ _ Ho).
  destruct Ho as [_ ->]. reflexivity.
Qed.

Lemma seen_elem_shown p m i :
  handle_ok p m → 0 ≤ i → seen_elem p m i = shown p m !! Z.to_nat i.
Proof.
  intros [->|(b & Ho & Hok)] Hi.
  - rewrite seen_elem_null, shown_null. reflexivity.
  - rewrite (seen_elem_owns _ _ _ _ Ho), (block_ok_size _ Hok), (shown_owns _ _ _ Ho).
    destruct (Z.leb_spec 0 i); [|lia]. destruct (Z.ltb_spec i (b_size b)); simpl.
    + symmetry. apply lookup_contents. lia.
    + symmetry. apply lookup_ge_None. rewrite (length_contents _ Hok). lia.
Qed.

Lemma length_shown p m s :
  handle_ok p m → seen_size p m = Some s → Z.of_nat (length (shown p m)) = s.
Proof.
  intros [->|(b & Ho & Hok)] Hs.
  - rewrite seen_size_null in Hs. injection Hs as <-. reflexivity.
  - rewrite (seen_size_ok _ _ _ Ho Hok) in Hs. injection Hs as <-.
    rewrite (shown_owns _ _ _ Ho), (length_contents _ Hok).
    destruct Hok as (_ & ? & _). lia.
Qed.

(** What [_copy_on_write] leaves of a well-formed buffer: the handle holds a
    block of its own with the old length and the old elements. *)
Lemma cow_holds p m b :
  owns p m b → block_ok b → (1 < b_refcount b → next_served m = true) →
  ∃ rc p1 m1 b1, _copy_on_write p m = Done rc p1 m1 ∧ holds p1 m1 b1 ∧
    b_size b1 = b_size b ∧
    (∀ j : nat, (j < Z.to_nat (b_size b))%nat → b_slots b1 !! j = b_slots b !! j) ∧
    (all_served m = true → all_served m1 = true) ∧
    (b_refcount b = 1 → p1 = p ∧ m1 = m ∧ b1 = b) ∧
    (1 < b_refcount b →
       p1 = heap_top (blocks m) + 16 ∧
       blocks m1 !! (p - 16) = Some (with_refcount (b_refcount b - 1) b) ∧
       m1 = put_block (p - 16) (with_refcount (b_refcount b - 1) b)
              (put_block (heap_top (blocks m)) (Block 1 (b_size b) (clone_slots b)) (pop m))).
Proof.
  intros Ho Hok Hsrv.
  destruct (block_ok_exclusive_or_shared _ Hok) as [Hrc|Hrc].
  - exists (b_refcount b), p, m, b. split; [|split; [|split; [|split; [|split; [|split]]]]].
    + apply (_copy_on_write_exclusive _ _ _ Ho). lia.
    + exact (conj Ho (conj Hok Hrc)).
    + reflexivity.
    + reflexivity.
    + intros H; exact H.
    + auto.
    + lia.
  - eexists 1, _, _, _. split; [|split; [|split; [|split; [|split; [|split]]]]].
    + apply (_copy_on_write_shared _ _ _ Ho Hok Hrc (Hsrv Hrc)).
    + apply (clone_holds _ _ _ Ho Hok).
    + reflexivity.
    + intros j Hj. simpl. apply (lookup_clone_slots _ _ Hok Hj).
    + intros Hall. rewrite !all_served_put. apply all_served_pop, Hall.
    + lia.
    + intros _. split; [reflexivity|]. split; [apply lookup_put_eq|reflexivity].
Qed.

(** ** The allocation sizes *)

(** X3. In a build that compiles the checked branch,
    [_get_alloc_size_checked] succeeds exactly when no element is asked for
    or the byte size is at most [2 ^ 63], and then the size it gives has
    room for the elements. *)
Theorem alloc_size_checked_exact n :
  checked_arith = true → 0 ≤ n < USIZE_MOD →
  (fst (_get_alloc_size_checked n) = true ↔ n = 0 ∨ n * elem_bytes ≤ 2 ^ 63) ∧
  (fst (_get_alloc_size_checked n) = true →
   n * elem_bytes ≤ snd (_get_alloc_size_checked n) ≤ 2 ^ 63).
Proof.
  intros Hck Hn. pose proof elem_bytes_pos as He.
  unfold _get_alloc_size_checked. rewrite Hck.
  destruct (Z.eqb_spec n 0) as [->|Hn0]; simpl.
  { split; [split; auto|intros _; lia]. }
  assert (0 < n * elem_bytes) by nia.
  destruct (Z.leb_spec USIZE_MOD (n * elem_bytes)) as [Ho|Ho]; simpl.
  { unfold USIZE_MOD in Ho. split; [split; [discriminate|lia]|discriminate]. }
  destruct (Z.leb_spec USIZE_MOD (n * elem_bytes + 32)) as [Hp|Hp]; simpl.
  { unfold USIZE_MOD in Hp. split; [split; [discriminate|lia]|discriminate]. }
  unfold USIZE_MOD in Ho, Hp.
  destruct (Z_le_gt_dec (n * elem_bytes) (2 ^ 63)) as [Hle|Hgt].
  - assert (Hr : 0 < n * elem_bytes ≤ 2 ^ 63) by (split; [assumption|exact Hle]).
    pose proof (next_po2_bounds _ Hr) as Hb.
    destruct (Z.eqb_spec (next_po2 (n * elem_bytes)) 0) as [Hz|Hz]; [lia|]. simpl.
    split; [split; auto|intros _; exact Hb].
  - rewrite (next_po2_overflow (n * elem_bytes)) by lia. simpl.
    split; [split; [discriminate|lia]|discriminate].
Qed.

(** X4. Whichever branch the build compiles, for a positive number of
    elements whose byte size is at most [2 ^ 63] the function succeeds
    with the least power of two that is not below the byte size. *)
Theorem alloc_size_checked_power_of_two n :
  0 < n → n * elem_bytes ≤ 2 ^ 63 →
  _get_alloc_size_checked n = (true, 2 ^ Z.log2_up (n * elem_bytes)).
Proof.
  intros Hn Hb. pose proof elem_bytes_pos as He.
  assert (n ≤ n * elem_bytes) by nia.
  pose proof (alloc_size_checked_in_range n Hn Hb) as Hc.
  rewrite wrap_small in Hc by (unfold USIZE_MOD; lia). rewrite Hc.
  unfold _get_alloc_size. rewrite wrap_small by (unfold USIZE_MOD; lia).
  rewrite next_po2_pow2 by lia. reflexivity.
Qed.

(** ** The readers *)

(** X5. On a well-formed handle [is_empty] answers true exactly when
    [size] answers 0; neither changes the handle or the heap. *)
Theorem is_empty_iff_size_zero p m :
  handle_ok p m →
  ∃ s, size p m = Done s p m ∧ 0 ≤ s ∧ is_empty p m = Done (s =? 0) p m.
Proof.
  intros [->|(b & Ho & Hok)].
  - exists 0. rewrite size_null. repeat split; lia.
  - exists (b_size b). rewrite (size_owns _ _ _ Ho), (block_ok_size _ Hok).
    pose proof Hok as (_ & Hsz & _).
    split; [reflexivity|]. split; [lia|].
    unfold is_empty. rewrite (bind_Done _ _ _ _ _ _ _ (this_ptr_eq p m)).
    rewrite (owns_nonnull _ _ _ Ho). destruct (Z.eqb_spec (b_size b) 0); [lia|reflexivity].
Qed.

(** X6. [get] on a well-formed handle of [L] elements: an index in
    [0, L) yields the element at that place of the buffer and changes
    nothing; any other index traps. *)
Theorem get_in_range_or_trap i p m L :
  handle_ok p m → seen_size p m = Some L →
  Z.of_nat (length (shown p m)) = L ∧
  (0 ≤ i < L → ∃ x, get i p m = Done x p m ∧ shown p m !! Z.to_nat i = Some x) ∧
  (i < 0 ∨ L ≤ i → get i p m = Fault).
Proof.
  intros Hh Hs. split; [apply (length_shown _ _ _ Hh Hs)|]. split.
  - intros Hi. destruct Hh as [->|(b & Ho & Hok)].
    { rewrite seen_size_null in Hs. injection Hs as <-. lia. }
    rewrite (seen_size_ok _ _ _ Ho Hok) in Hs. injection Hs as <-.
    destruct (block_ok_slot _ _ Hok Hi) as [x Hx]. exists x. split.
    + apply (get_owns _ _ _ _ _ Ho); [rewrite (block_ok_size _ Hok); lia|exact Hx].
    + rewrite (shown_owns _ _ _ Ho), lookup_contents by lia. exact Hx.
  - intros Hi. apply (get_bad_index _ _ _ _ (seen_size_Done _ _ _ Hs)).
    apply bad_index_true, Hi.
Qed.

(** ** [set] *)

(** X7. [set] on a well-formed handle of [L] elements.  An index outside
    [0, L) changes nothing, not even the sharing.  An index inside, when
    the clone of a shared buffer is served: afterwards the handle is the
    only one to its buffer and shows [L] elements, [x] at the index and
    what it showed before everywhere else. *)
Theorem set_then_get i x p m L :
  handle_ok p m → seen_size p m = Some L →
  (∀ b, owns p m b → 1 < b_refcount b → next_served m = true) →
  (i < 0 ∨ L ≤ i → set i x p m = Done tt p m) ∧
  (0 ≤ i < L →
     ∃ p' m' b', set i x p m = Done tt p' m' ∧ holds p' m' b' ∧
       seen_size p' m' = Some L ∧
       seen_elem p' m' i = Some x ∧
       ∀ j, j ≠ i → seen_elem p' m' j = seen_elem p m j).
Proof.
  intros Hh Hs Hsrv. split.
  - intros Hi. unfold set. rewrite (bind_Done _ _ _ _ _ _ _ (seen_size_Done _ _ _ Hs)).
    rewrite (bad_index_true _ _ Hi). reflexivity.
  - intros Hi. destruct Hh as [->|(b & Ho & Hok)].
    { rewrite seen_size_null in Hs. injection Hs as <-. lia. }
    rewrite (seen_size_ok _ _ _ Ho Hok) in Hs. injection Hs as <-.
    destruct (cow_holds _ _ _ Ho Hok (Hsrv b Ho))
      as (rc & p1 & m1 & b1 & Hcow & Hh1 & Hsz1 & Hpre & _).
    pose proof Hh1 as (Ho1 & Hok1 & Hrc1). pose proof Ho1 as [Hp1 Hb1].
    unfold ALLOC_PAD in Hb1.
    pose proof (block_ok_room _ Hok1) as Hroom.
    assert (Hlen : length (<[Z.to_nat i := x]> (b_slots b1)) = length (b_slots b1))
      by apply length_insert.
    pose proof (holds_with_slots _ _ _ _ Hh1 Hlen) as Hh2.
    eexists p1, _, _. split; [|split; [exact Hh2|]].
    + unfold set. rewrite (bind_Done _ _ _ _ _ _ _ (size_owns _ _ _ Ho)).
      rewrite (block_ok_size _ Hok), bad_index_false by exact Hi.
      rewrite (bind_Done _ _ _ _ _ _ _ Hcow).
      rewrite (bind_Done _ _ _ _ _ _ _ (this_ptr_eq p1 m1)).
      apply (store_elem_at p1 m1 b1 Hb1). lia.
    + destruct Hh2 as (Ho2 & Hok2 & _). split; [|split].
      * rewrite (seen_size_ok _ _ _ Ho2 Hok2). simpl. rewrite Hsz1. reflexivity.
      * rewrite (seen_elem_in _ _ _ _ Ho2 Hok2) by (simpl; lia). simpl.
        apply list_lookup_insert_eq. lia.
      * intros j Hj.
        rewrite (seen_elem_owns _ _ _ _ Ho2), (seen_elem_owns _ _ _ _ Ho). simpl.
        rewrite Hsz1.
        destruct ((0 <=? j) && (j <? to_Size (b_size b))) eqn:Hr; [|reflexivity].
        rewrite (block_ok_size _ Hok) in Hr.
        apply andb_true_iff in Hr as [H0 H1].
        apply Z.leb_le in H0. apply Z.ltb_lt in H1.
        rewrite list_lookup_insert_ne by lia. apply Hpre. lia.
Qed.

(** ** Copies, assignment and destruction *)

Lemma block_ok_with_refcount c b :
  block_ok b → 1 ≤ c < USIZE_MOD → block_ok (with_refcount c b).
Proof. intros (_ & H2 & H3 & H4) Hc. exact (conj Hc (conj H2 (conj H3 H4))). Qed.

Lemma with_refcount_twice c c' b : with_refcount c (with_refcount c' b) = with_refcount c b.
Proof. reflexivity. Qed.

Lemma with_refcount_id c b : c = b_refcount b → with_refcount c b = b.
Proof. intros ->. destruct b; reflexivity. Qed.

Lemma destroy_owns p m b :
  owns p m b → block_ok b →
  destroy p m =
    Done tt p
      (if b_refcount b =? 1 then drop_block (p - 16) m
       else put_block (p - 16) (with_refcount (b_refcount b - 1) b) m).
Proof.
  intros Ho Hok. unfold destroy. rewrite (bind_Done _ _ _ _ _ _ _ (this_ptr_eq p m)).
  apply (_unref_owns _ _ _ Ho Hok).
Qed.

(** X8. The copy of a well-formed handle (made by [_ref] on an empty
    handle) gets the very pointer of the source, without any request to
    the allocator; the reference count of a non-empty buffer goes up by
    one, nothing else in the heap changes, and the source shows what it
    showed. *)
Theorem copy_shares_storage p m :
  handle_ok p m → (∀ b, owns p m b → b_refcount b + 1 < USIZE_MOD) →
  ∃ m', assign p 0 m = Done tt p m' ∧
    script m' = script m ∧ same_view p m p m' ∧
    (p = 0 → m' = m) ∧
    (∀ b, owns p m b →
       m' = put_block (p - 16) (with_refcount (b_refcount b + 1) b) m).
Proof.
  intros [->|(b & Ho & Hok)] Hmax.
  - exists m. rewrite assign_null_from_null. split; [reflexivity|].
    split; [reflexivity|]. split; [apply same_view_refl|]. split; [reflexivity|].
    intros b Ho. pose proof (owns_nonnull _ _ _ Ho). discriminate.
  - pose proof Hok as (Hrc & _). specialize (Hmax b Ho).
    eexists. split; [apply (assign_null_from_owns _ _ _ Ho); lia|].
    split; [apply script_put|]. split; [|split].
    + apply (view_unshared _ _ _ _ (b_refcount b + 1) Ho). apply lookup_put_eq.
    + intros ->. pose proof (owns_nonnull _ _ _ Ho). discriminate.
    + intros b0 [_ Hb0]. destruct Ho as [_ Hb]. rewrite Hb in Hb0.
      injection Hb0 as <-. reflexivity.
Qed.

(** X9. Assignment over a handle that has another buffer: the handle takes
    the pointer of the source, whose buffer gets one reference more, and
    lets go of its old buffer, which loses one reference and is freed
    when that was the last one; no other block changes. *)
Theorem assign_releases_old_storage p q m bp bq :
  owns p m bp → block_ok bp → owns q m bq → block_ok bq →
  b_refcount bq + 1 < USIZE_MOD → p ≠ q →
  ∃ m', assign q p m = Done tt q m' ∧
    blocks m' !! (q - 16) = Some (with_refcount (b_refcount bq + 1) bq) ∧
    blocks m' !! (p - 16) =
      (if b_refcount bp =? 1 then None
       else Some (with_refcount (b_refcount bp - 1) bp)) ∧
    (∀ a, a ≠ p - 16 → a ≠ q - 16 → blocks m' !! a = blocks m !! a) ∧
    same_view q m q m'.
Proof.
  intros Hop Hokp Hoq Hokq Hmax Hne.
  pose proof Hokq as (Hrcq & _).
  pose proof (owns_nonnull _ _ _ Hoq) as Hqnz.
  pose proof Hoq as [Hq Hbq]. unfold ALLOC_PAD in Hbq.
  set (m1 := if b_refcount bp =? 1 then drop_block (p - 16) m
             else put_block (p - 16) (with_refcount (b_refcount bp - 1) bp) m).
  assert (Hbq1 : blocks m1 !! (q - 16) = Some bq).
  { unfold m1. destruct (b_refcount bp =? 1).
    - rewrite lookup_drop_ne by lia. exact Hbq.
    - rewrite lookup_put_ne by lia. exact Hbq. }
  exists (put_block (q - 16) (with_refcount (b_refcount bq + 1) bq) m1).
  split; [|split; [|split; [|split]]].
  - unfold assign, _ref. rewrite (bind_Done _ _ _ _ _ _ _ (this_ptr_eq p m)).
    destruct (Z.eqb_spec p q) as [|_]; [contradiction|].
    rewrite (bind_Done _ _ _ _ _ _ _ (_unref_owns _ _ _ Hop Hokp)). fold m1.
    unfold bind at 1. unfold set_this_ptr.
    rewrite Hqnz. unfold refcount_addr. rewrite Hqnz.
    rewrite (bind_Done _ _ _ _ _ _ _
      (SafeNumeric_conditional_increment_at q m1 bq Hbq1 0 ltac:(lia))).
    rewrite wrap_small by lia.
    destruct (Z.gtb_spec (b_refcount bq + 1) 0); [|lia]. reflexivity.
  - apply lookup_put_eq.
  - rewrite lookup_put_ne by lia. unfold m1. destruct (b_refcount bp =? 1).
    + apply lookup_drop_eq.
    + apply lookup_put_eq.
  - intros a Hap Haq. rewrite lookup_put_ne by congruence. unfold m1.
    destruct (b_refcount bp =? 1).
    + apply lookup_drop_ne. congruence.
    + apply lookup_put_ne. congruence.
  - apply (view_unshared _ _ _ _ (b_refcount bq + 1) Hoq). apply lookup_put_eq.
Qed.


(** X11. A buffer whose reference count has already reached 0 cannot be
    referenced any more: [_ref] from it leaves an empty handle empty and
    the heap as it is. *)
Theorem assign_from_dead_storage q m bq :
  q ≠ 0 → blocks m !! (q - 16) = Some bq → b_refcount bq = 0 →
  assign q 0 m = Done tt 0 m.
Proof.
  intros Hq Hbq Hz. unfold assign, _ref.
  rewrite (bind_Done _ _ _ _ _ _ _ (this_ptr_eq 0 m)).
  destruct (Z.eqb_spec 0 q) as [|_]; [lia|].
  rewrite (bind_Done _ _ _ _ _ _ _ (_unref_null 0 m)).
  unfold bind at 1. unfold set_this_ptr.
  destruct (Z.eqb_spec q 0) as [|_]; [lia|].
  unfold refcount_addr. destruct (Z.eqb_spec q 0) as [|_]; [lia|].
  assert (Hc : SafeNumeric_conditional_increment (q - 16) 0 m = Done 0 0 m).
  { unfold SafeNumeric_conditional_increment.
    rewrite (bind_Done _ _ _ _ _ _ _ (load_refcount_at q m bq Hbq 0)).
    rewrite Hz. reflexivity. }
  rewrite (bind_Done _ _ _ _ _ _ _ Hc). reflexivity.
Qed.

(** X12. Copying a well-formed handle and destroying the copy gives back
    the heap as it was, reference counts included. *)
Theorem copy_then_destroy_restores p m :
  handle_ok p m → (∀ b, owns p m b → b_refcount b + 1 < USIZE_MOD) →
  ∃ m1, assign p 0 m = Done tt p m1 ∧ destroy p m1 = Done tt p m.
Proof.
  intros [->|(b & Ho & Hok)] Hmax.
  - exists m. split; [apply assign_null_from_null|].
    unfold destroy. rewrite (bind_Done _ _ _ _ _ _ _ (this_ptr_eq 0 m)).
    apply _unref_null.
  - pose proof Hok as (Hrc & _). specialize (Hmax b Ho).
    eexists. split; [apply (assign_null_from_owns _ _ _ Ho); lia|].
    rewrite (destroy_owns p _ (with_refcount (b_refcount b + 1) b)).
    + simpl. destruct (Z.eqb_spec (b_refcount b + 1) 1); [lia|].
      rewrite put_put, with_refcount_twice.
      rewrite with_refcount_id by lia. rewrite put_id; [reflexivity|].
      destruct Ho as [_ Hb]. exact Hb.
    + apply (owns_put _ _ b), Ho.
    + apply block_ok_with_refcount; [exact Hok|lia].
Qed.

Lemma destroy_each_live p (j : nat) : ∀ m b,
  owns p m b → block_ok b → Z.of_nat j < b_refcount b →
  destroy_each j p m =
    Done tt p (put_block (p - 16) (with_refcount (b_refcount b - Z.of_nat j) b) m).
Proof.
  induction j as [|j IH]; intros m b Ho Hok Hj.
  - simpl. unfold ret. rewrite with_refcount_id by lia.
    rewrite put_id; [reflexivity|]. destruct Ho as [_ Hb]. exact Hb.
  - pose proof Hok as (Hrc & _).
    cbn [destroy_each]. rewrite (bind_Done _ _ _ _ _ _ _ (destroy_owns _ _ _ Ho Hok)).
    destruct (Z.eqb_spec (b_refcount b) 1); [lia|].
    rewrite (IH _ (with_refcount (b_refcount b - 1) b)).
    + rewrite put_put, with_refcount_twice. simpl.
      replace (b_refcount b - 1 - Z.of_nat j) with (b_refcount b - Z.of_nat (S j)) by lia.
      reflexivity.
    + apply (owns_put _ _ b), Ho.
    + apply block_ok_with_refcount; [exact Hok|lia].
    + simpl. lia.
Qed.

Lemma destroy_each_all p (k : nat) : ∀ m b,
  owns p m b → block_ok b → b_refcount b = Z.of_nat k →
  destroy_each k p m = Done tt p (drop_block (p - 16) m).
Proof.
  induction k as [|k IH]; intros m b Ho Hok Hk.
  - destruct Hok as (Hrc & _). lia.
  - pose proof Hok as (Hrc & _).
    cbn [destroy_each]. rewrite (bind_Done _ _ _ _ _ _ _ (destroy_owns _ _ _ Ho Hok)).
    destruct (Z.eqb_spec (b_refcount b) 1) as [H1|H1].
    + assert (k = 0%nat) as -> by lia. reflexivity.
    + rewrite (IH _ (with_refcount (b_refcount b - 1) b)).
      * rewrite drop_put. reflexivity.
      * apply (owns_put _ _ b), Ho.
      * apply block_ok_with_refcount; [exact Hok|lia].
      * simpl. lia.
Qed.

(** X13. When [k] handles refer to a well-formed buffer and their
    destructors run one after the other, the buffer stays allocated with
    the count of the handles that are left, and the last destructor frees
    it. *)
Theorem last_destructor_frees p m b (k : nat) :
  owns p m b → block_ok b → b_refcount b = Z.of_nat k →
  (∀ j : nat, (j < k)%nat →
     destroy_each j p m =
       Done tt p (put_block (p - 16) (with_refcount (Z.of_nat (k - j)) b) m)) ∧
  destroy_each k p m = Done tt p (drop_block (p - 16) m).
Proof.
  intros Ho Hok Hk. split.
  - intros j Hj. rewrite (destroy_each_live p j m b Ho Hok) by lia.
    replace (b_refcount b - Z.of_nat j) with (Z.of_nat (k - j)) by lia. reflexivity.
  - apply (destroy_each_all p k m b Ho Hok Hk).
Qed.

(** ** [ptrw] *)

(** X14. [ptrw] on a well-formed handle, when the clone of a shared buffer
    is served, returns the pointer that the handle has afterwards; the
    handle then is the only one to its buffer and shows what it showed. *)
Theorem ptrw_unshares p m :
  handle_ok p m → (∀ b, owns p m b → 1 < b_refcount b → next_served m = true) →
  ∃ p' m', ptrw p m = Done p' p' m' ∧ same_view p m p' m' ∧
    (p = 0 → p' = 0 ∧ m' = m) ∧
    (p ≠ 0 → ∃ b', holds p' m' b').
Proof.
  intros [->|(b & Ho & Hok)] Hsrv.
  - exists 0, m. unfold ptrw.
    rewrite (bind_Done _ _ _ _ _ _ _ (_copy_on_write_null m)).
    split; [reflexivity|]. split; [apply same_view_refl|]. split; [auto|lia].
  - destruct (cow_holds _ _ _ Ho Hok (Hsrv b Ho))
      as (rc & p1 & m1 & b1 & Hcow & Hh1 & Hsz1 & Hpre & _).
    exists p1, m1. unfold ptrw. rewrite (bind_Done _ _ _ _ _ _ _ Hcow).
    split; [reflexivity|]. split; [|split].
    + apply (same_view_blocks _ _ _ _ _ _ Ho (proj1 Hh1) Hsz1 Hpre).
    + intros ->. pose proof (owns_nonnull _ _ _ Ho). discriminate.
    + intros _. exists b1. exact Hh1.
Qed.

(** ** [resize] *)

Lemma not_denied m : next_served m = true → fst (pop_verdict m) ≠ Deny.
Proof. rewrite next_served_verdict. intros Hs Hv. rewrite Hv in Hs. discriminate. Qed.

Lemma denied m : next_served m = false → fst (pop_verdict m) = Deny.
Proof. rewrite next_served_verdict. destruct (fst (pop_verdict m)); [reflexivity|discriminate..]. Qed.

Lemma lookup_built_new ez n L l (j : nat) :
  0 ≤ L → (Z.to_nat L ≤ j < Z.to_nat n)%nat → n ≤ Z.of_nat (length l) →
  (trivially_constructible = false → built ez n L l !! j = Some T_default) ∧
  (trivially_constructible = true → ez = true → built ez n L l !! j = Some T_zero).
Proof.
  intros HL Hj Hn. unfold built. split.
  - intros ->. cbn [negb]. apply lookup_fill_from_in; lia.
  - intros -> ->. cbn [negb].
    rewrite lookup_app_r by (rewrite length_take; lia).
    rewrite length_take.
    rewrite lookup_app_l by (rewrite length_replicate; lia).
    apply lookup_replicate_2. lia.
Qed.

(** Growing a buffer that the handle holds alone, when the allocator
    serves. *)
Lemma grow_held ez n p m b :
  holds p m b → b_size b < n ≤ MAX_INT → n * elem_bytes ≤ 2 ^ 63 →
  next_served m = true →
  ∃ p' m' l', resize_sized ez n (b_size b) 1 p m = Done OK p' m' ∧
    holds p' m' (Block 1 n (built ez n (b_size b) l')) ∧
    n ≤ Z.of_nat (length l') ∧
    (∀ j : nat, (j < Z.to_nat (b_size b))%nat → l' !! j = b_slots b !! j) ∧
    (all_served m = true → all_served m' = true).
Proof.
  intros (Ho & Hok & Hrc) Hn Hbytes Hsrv. pose proof Ho as [Hp Hb].
  unfold ALLOC_PAD in Hb, Hp.
  pose proof (block_ok_room _ Hok) as Hroom.
  pose proof Hok as (_ & Hsz & HLbytes & Hcap).
  pose proof elem_bytes_pos as Hpos.
  assert (Hn0 : 0 < n) by lia.
  assert (Hnb : 0 ≤ n * elem_bytes) by nia.
  pose proof (alloc_size_bounds n ltac:(lia) Hbytes) as HA.
  pose proof (room_for n ltac:(lia) Hbytes) as Hfit.
  set (L := b_size b) in *.
  set (A := _get_alloc_size n) in *.
  set (cap := slots_of_bytes (A + ALLOC_PAD)) in *.
  unfold resize_sized.
  rewrite (alloc_size_checked_in_range n) by lia. fold A. cbn [negb].
  rewrite (wrap_small L) by (unfold USIZE_MOD, MAX_INT in *; lia).
  set (A0 := _get_alloc_size L) in *.
  destruct (Z.gtb_spec n L) as [_|]; [|lia].
  destruct (Z.eq_dec A A0) as [Heq|Hdiff].
  - unfold resize_grow. rewrite Heq, Z.eqb_refl. cbn [negb].
    assert (Hncap : n ≤ Z.of_nat (length (b_slots b))).
    { fold cap in Hcap. rewrite <- ?Heq in Hcap. lia. }
    rewrite (resize_construct_at ez n L p m b Ho eq_refl)
      by (unfold USIZE_MOD; lia).
    rewrite Hrc.
    assert (Hlen : length (built ez n L (b_slots b)) = length (b_slots b))
      by (apply length_built; lia).
    eexists p, _, (b_slots b). split; [reflexivity|]. split; [|split; [|split]].
    + split; [apply (owns_put _ _ b); exact Ho|]. split; [|reflexivity].
      apply block_ok_intro; try lia; [unfold USIZE_MOD; lia|]. fold A cap. rewrite Hlen.
      unfold cap. rewrite Heq. exact Hcap.
    + exact Hncap.
    + reflexivity.
    + rewrite all_served_put. intros H; exact H.
  - rewrite (resize_grow_realloc ez n L 1 A A0 p m b Ho eq_refl)
      by (try assumption; unfold USIZE_MOD; lia).
    cbv zeta. fold cap. set (l' := fit_slots cap (b_slots b)).
    assert (Hlen' : length l' = cap) by apply length_fit_slots.
    assert (Hlen : length (built ez n L l') = cap).
    { rewrite length_built; lia. }
    assert (Hpre : ∀ j : nat, (j < Z.to_nat L)%nat → l' !! j = b_slots b !! j).
    { intros j Hj. apply lookup_fit_slots; lia. }
    assert (Hbok : block_ok (Block 1 n (built ez n L l'))).
    { apply block_ok_intro; try lia; [unfold USIZE_MOD; lia|]. fold A cap. lia. }
    pose proof (not_denied _ Hsrv) as Hnd.
    destruct (fst (pop_verdict m)) eqn:Hv; [contradiction|..].
    + eexists p, _, l'. split; [reflexivity|]. split; [|split; [|split]].
      * split; [|split; [exact Hbok|reflexivity]].
        split; [exact (proj1 Ho)|]. apply lookup_put_eq.
      * lia.
      * exact Hpre.
      * intros Hall. rewrite all_served_put. apply all_served_pop, Hall.
    + pose proof (heap_top_pos (blocks m)) as Htop.
      set (a := heap_top (blocks m)) in *.
      eexists (a + 16), _, l'. split; [reflexivity|]. split; [|split; [|split]].
      * split; [|split; [exact Hbok|reflexivity]].
        split; [unfold ALLOC_PAD; lia|]. unfold ALLOC_PAD.
        replace (a + 16 - 16) with a by lia. apply lookup_put_eq.
      * lia.
      * exact Hpre.
      * intros Hall. rewrite all_served_put, all_served_drop. apply all_served_pop, Hall.
Qed.

Lemma grow_empty ez n m :
  0 < n ≤ MAX_INT → n * elem_bytes ≤ 2 ^ 63 → next_served m = true →
  ∃ p' m' l', resize ez n 0 m = Done OK p' m' ∧
    holds p' m' (Block 1 n (built ez n 0 l')) ∧
    n ≤ Z.of_nat (length l') ∧
    (all_served m = true → all_served m' = true).
Proof.
  intros Hn Hbytes Hserved. pose proof elem_bytes_pos as Hpos.
  pose proof (alloc_size_bounds n ltac:(lia) Hbytes) as HA.
  pose proof (room_for n ltac:(lia) Hbytes) as Hfit.
  rewrite resize_null by lia.
  set (A := _get_alloc_size n) in *.
  set (cap := slots_of_bytes (A + ALLOC_PAD)) in *.
  unfold resize_sized.
  rewrite (alloc_size_checked_in_range n) by lia. fold A. cbn [negb].
  destruct (Z.gtb_spec n 0) as [_|]; [|lia].
  assert (HA0 : _get_alloc_size (wrap 0) = 0) by reflexivity. rewrite HA0.
  rewrite (resize_grow_scratch ez n 0 A 0 m) by (try assumption; unfold USIZE_MOD; lia).
  fold cap. set (l' := fit_slots cap []).
  assert (Hlen' : length l' = cap) by apply length_fit_slots.
  assert (Hlen : length (built ez n 0 l') = cap) by (rewrite length_built; lia).
  pose proof (heap_top_pos (blocks m)) as Htop.
  set (a := heap_top (blocks m)) in *.
  eexists (a + 16), _, l'. split; [reflexivity|]. split; [|split].
  - split; [|split; [|reflexivity]].
    + split; [unfold ALLOC_PAD; lia|]. unfold ALLOC_PAD.
      replace (a + 16 - 16) with a by lia. apply lookup_put_eq.
    + apply block_ok_intro; try lia; [unfold USIZE_MOD; lia|]. fold A cap. lia.
  - lia.
  - intros Hall. rewrite all_served_put. apply all_served_pop, Hall.
Qed.

Lemma grow_served ez n p m L :
  handle_ok p m → seen_size p m = Some L → all_served m = true →
  L < n → fits n →
  ∃ p' m' l', resize ez n p m = Done OK p' m' ∧
    holds p' m' (Block 1 n (built ez n L l')) ∧
    n ≤ Z.of_nat (length l') ∧
    (∀ j : nat, (j < Z.to_nat L)%nat → l' !! j = shown p m !! j) ∧
    all_served m' = true.
Proof.
  intros Hh Hs Hall Hn [Hmax Hbytes]. pose proof (all_served_next _ Hall) as Hsrv.
  destruct Hh as [->|(b & Ho & Hok)].
  - rewrite seen_size_null in Hs. injection Hs as <-.
    destruct (grow_empty ez n m ltac:(lia) Hbytes Hsrv)
      as (p' & m' & l' & Hrun & Hh' & Hlen & Hall').
    exists p', m', l'. split; [exact Hrun|]. split; [exact Hh'|]. split; [exact Hlen|].
    split; [intros j Hj; lia|apply Hall', Hall].
  - rewrite (seen_size_ok _ _ _ Ho Hok) in Hs. injection Hs as <-.
    pose proof Hok as (_ & Hsz & _).
    destruct (cow_holds _ _ _ Ho Hok (λ _, Hsrv))
      as (rc & p1 & m1 & b1 & Hcow & Hh1 & Hsz1 & Hpre1 & Hall1 & Hex & Hsh).
    assert (Hrun1 : resize ez n p m = resize_sized ez n (b_size b1) 1 p1 m1).
    { destruct (block_ok_exclusive_or_shared _ Hok) as [Hrc|Hrc].
      - destruct (Hex Hrc) as (-> & -> & ->).
        apply resize_exclusive; [exact Hh1|lia..].
      - destruct (Hsh Hrc) as (-> & _ & ->). rewrite Hsz1.
        apply (resize_shared ez n p m b Ho Hok Hrc Hsrv); lia. }
    destruct (grow_held ez n p1 m1 b1 Hh1 ltac:(lia) Hbytes
                (all_served_next _ (Hall1 Hall)))
      as (p' & m' & l' & Hrun & Hh' & Hlen & Hpre & Hall').
    rewrite Hsz1 in Hpre, Hh'.
    exists p', m', l'. split; [rewrite Hrun1; exact Hrun|]. split; [exact Hh'|].
    split; [exact Hlen|]. split; [|apply Hall', Hall1, Hall].
    intros j Hj. rewrite (shown_owns _ _ _ Ho), lookup_contents by exact Hj.
    rewrite Hpre by exact Hj. apply Hpre1, Hj.
Qed.

(** X15. Growing a well-formed handle from [L] to [n] elements, with [n]
    in range and the allocator serving: [resize] returns [OK], the handle
    shows [n] elements, the first [L] as before, and each new one is the
    default-constructed value when [T] is not trivially constructible, and
    the all-zero value when it is and zero filling was asked for. *)
Theorem resize_builds_new_elements ez n p m L :
  handle_ok p m → seen_size p m = Some L → all_served m = true →
  L < n → fits n →
  ∃ p' m', resize ez n p m = Done OK p' m' ∧
    seen_size p' m' = Some n ∧
    prefix_kept L p m p' m' ∧
    ∀ i, L ≤ i < n →
      (trivially_constructible = false → seen_elem p' m' i = Some T_default) ∧
      (trivially_constructible = true → ez = true → seen_elem p' m' i = Some T_zero).
Proof.
  intros Hh Hs Hall Hn Hfits.
  pose proof (length_shown _ _ _ Hh Hs) as HL.
  destruct (grow_served ez n p m L Hh Hs Hall Hn Hfits)
    as (p' & m' & l' & Hrun & (Ho' & Hok' & _) & Hlen & Hpre & _).
  exists p', m'. split; [exact Hrun|]. split; [apply (seen_size_ok _ _ _ Ho' Hok')|].
  split.
  - intros i Hi. rewrite (seen_elem_in _ _ _ _ Ho' Hok') by (simpl; lia). simpl.
    rewrite lookup_built_lt by lia. rewrite Hpre by lia.
    symmetry. apply (seen_elem_shown _ _ _ Hh). lia.
  - intros i Hi. rewrite (seen_elem_in _ _ _ _ Ho' Hok') by (simpl; lia). simpl.
    apply lookup_built_new; lia.
Qed.

(** X16. Growing a well-formed handle and shrinking it back to its old
    length, when every request to the allocator is served, gives a handle
    that shows the sequence from before. *)
Theorem grow_then_shrink_restores ez ez' n p m L :
  handle_ok p m → seen_size p m = Some L → all_served m = true →
  L < n → fits n →
  ∃ p1 m1 p2 m2, resize ez n p m = Done OK p1 m1 ∧
    resize ez' L p1 m1 = Done OK p2 m2 ∧
    same_view p m p2 m2.
Proof.
  intros Hh Hs Hall Hn Hfits.
  pose proof (length_shown _ _ _ Hh Hs) as HL.
  pose proof elem_bytes_pos as Hpos.
  destruct (grow_served ez n p m L Hh Hs Hall Hn Hfits)
    as (p1 & m1 & l' & Hrun & Hh1 & Hlen & Hpre & Hall1).
  pose proof Hh1 as (Ho1 & Hok1 & Hrc1).
  set (b1 := Block 1 n (built ez n L l')) in *.
  exists p1, m1.
  destruct (Z.eq_dec L 0) as [->|HL0].
  - eexists 0, _. split; [exact Hrun|].
    split; [apply (resize_zero_owns ez' _ _ _ Ho1 Hok1)|].
    split; [rewrite seen_size_null, Hs; reflexivity|].
    intros i. rewrite seen_elem_null. symmetry.
    apply (seen_elem_outside _ _ _ _ Hs). lia.
  - destruct Hfits as [Hmax Hbytes].
    assert (HLr : 0 < L ≤ MAX_INT) by lia.
    assert (HLne : L ≠ b_size b1) by (simpl; lia).
    assert (HLb : L * elem_bytes ≤ 2 ^ 63) by nia.
    assert (Hexcl : 1 < b_refcount b1 → next_served m1 = true) by (simpl; lia).
    destruct (resize_owns ez' L p1 m1 b1 Ho1 Hok1 Hexcl HLr HLne HLb)
      as (r & p2 & m2 & Hrun2 & _ & _ & Hrz).
    rewrite (after_clone_exclusive _ _ Hrc1) in Hrz.
    destruct Hrz as (_ & Hnext & _ & b2 & (Ho2 & Hok2 & _) & Hpre2 & Hcase).
    assert (Hr : r = OK) by (apply Hnext, all_served_next, Hall1).
    assert (Hsz2 : b_size b2 = L)
      by (destruct Hcase as [[_ ?]|[? _]]; [assumption|congruence]).
    rewrite Hr in Hrun2.
    exists p2, m2. split; [exact Hrun|]. split; [exact Hrun2|].
    assert (Hs2 : seen_size p2 m2 = Some L)
      by (rewrite (seen_size_ok _ _ _ Ho2 Hok2), Hsz2; reflexivity).
    split; [rewrite Hs2, Hs; reflexivity|].
    intros i. destruct (Z_lt_le_dec i 0) as [Hneg|Hnn].
    { rewrite (seen_elem_outside _ _ _ _ Hs2), (seen_elem_outside _ _ _ _ Hs) by lia.
      reflexivity. }
    destruct (Z_lt_le_dec i L) as [Hin|Hout].
    + rewrite (seen_elem_in _ _ _ _ Ho2 Hok2) by lia.
      rewrite Hpre2 by (simpl; lia). simpl.
      rewrite lookup_built_lt by lia. rewrite Hpre by lia.
      symmetry. apply (seen_elem_shown _ _ _ Hh Hnn).
    + rewrite (seen_elem_outside _ _ _ _ Hs2), (seen_elem_outside _ _ _ _ Hs) by lia.
      reflexivity.
Qed.

(** X17. A [resize] to another positive length of the same power-of-two
    bucket, on a buffer that the handle holds alone, makes no request to
    the allocator: it returns [OK] whatever the allocator would answer,
    the handle keeps its pointer and the block its capacity, and it shows
    the new length. *)
Theorem resize_within_bucket ez n p m b :
  holds p m b → 0 < n → n ≠ b_size b → fits n →
  _get_alloc_size n = _get_alloc_size (b_size b) →
  ∃ l', resize ez n p m = Done OK p (put_block (p - 16) (Block 1 n l') m) ∧
        length l' = length (b_slots b) ∧
        seen_size p (put_block (p - 16) (Block 1 n l') m) = Some n.
Proof.
  intros Hh Hn Hne [Hmax Hbytes] Heq. pose proof Hh as (Ho & Hok & Hrc).
  pose proof Ho as [Hp Hb]. unfold ALLOC_PAD in Hb, Hp.
  pose proof (block_ok_room _ Hok) as Hroom.
  pose proof Hok as (_ & Hsz & HLbytes & Hcap).
  pose proof elem_bytes_pos as Hpos.
  pose proof (alloc_size_bounds n ltac:(lia) Hbytes) as HA.
  pose proof (room_for n ltac:(lia) Hbytes) as Hfit.
  rewrite Heq in Hfit.
  assert (Hfin : ∀ l', length l' = length (b_slots b) →
            seen_size p (put_block (p - 16) (Block 1 n l') m) = Some n).
  { intros l' Hlen.
    apply (seen_size_ok p _ (Block 1 n l') (owns_put _ _ _ _ Ho)).
    apply block_ok_intro; try lia; [unfold USIZE_MOD; lia|].
    rewrite Heq, Hlen. exact Hcap. }
  rewrite (resize_exclusive ez n p m b Hh Hn Hne).
  unfold resize_sized.
  rewrite (alloc_size_checked_in_range n) by lia. cbn [negb].
  rewrite (wrap_small (b_size b)) by (unfold USIZE_MOD, MAX_INT in *; lia).
  destruct (Z.gtb_spec n (b_size b)) as [Hgt|Hle].
  - unfold resize_grow. rewrite Heq, Z.eqb_refl. cbn [negb].
    rewrite (resize_construct_at ez n (b_size b) p m b Ho eq_refl)
      by (unfold USIZE_MOD; lia).
    rewrite Hrc.
    assert (Hlen : length (built ez n (b_size b) (b_slots b)) = length (b_slots b))
      by (apply length_built; lia).
    eexists. split; [reflexivity|]. split; [exact Hlen|]. apply Hfin, Hlen.
  - destruct (Z.ltb_spec n (b_size b)) as [Hlt|]; [|lia].
    rewrite (resize_shrink_at n (b_size b) 1 _ _ p m b Ho eq_refl) by lia.
    cbv zeta. rewrite Heq, Z.eqb_refl. rewrite Hrc.
    eexists. split; [reflexivity|]. split; [apply length_killed|].
    apply Hfin, length_killed.
Qed.

(** X18. [resize] does not report a denied first allocation: on an empty
    handle, for a positive length in range, when the allocator returns
    null the null test comes after the pointer was advanced past the
    header and the header write goes through the null pointer; the call
    does not return. *)
Theorem resize_empty_denied_faults ez n m :
  0 < n → fits n → next_served m = false → blocks m !! 0 = None →
  resize ez n 0 m = Fault.
Proof.
  intros Hn [Hmax Hbytes] Hdeny H0. pose proof elem_bytes_pos as Hpos.
  pose proof (alloc_size_bounds n Hn Hbytes) as HA.
  rewrite resize_null by lia. unfold resize_sized.
  rewrite (alloc_size_checked_in_range n) by lia. cbn [negb].
  destruct (Z.gtb_spec n 0) as [_|]; [|lia].
  assert (HA0 : _get_alloc_size (wrap 0) = 0) by reflexivity. rewrite HA0.
  apply resize_grow_scratch_denied; [nia|assumption..].
Qed.

(** X19. [_copy_on_write] does not test what the allocator returns: on a
    well-formed shared buffer, when the request for the clone is denied,
    the header of the clone is written through the null pointer and the
    call does not return. *)
Theorem copy_on_write_denied_faults_always p m b :
  owns p m b → block_ok b → 1 < b_refcount b →
  next_served m = false → blocks m !! 0 = None →
  _copy_on_write p m = Fault.
Proof.
  intros Ho Hok Hrc Hdeny H0. pose proof Ho as [Hp Hb]. unfold ALLOC_PAD in Hb.
  unfold _copy_on_write. rewrite (bind_Done _ _ _ _ _ _ _ (this_ptr_eq p m)).
  rewrite (owns_nonnull _ _ _ Ho).
  rewrite (bind_Done _ _ _ _ _ _ _ (_get_refcount_owns _ _ _ Ho)).
  rewrite (bind_Done _ _ _ _ _ _ _ (SafeNumeric_get_at p m b Hb p)).
  destruct (Z.gtb_spec (b_refcount b) 1) as [_|]; [|lia].
  rewrite (bind_Done _ _ _ _ _ _ _ (_get_size_owns _ _ _ Ho)).
  rewrite (bind_Done _ _ _ _ _ _ _ (load_size_at p m b Hb p)).
  rewrite (bind_Done _ _ _ _ _ _ _ (alloc_static_denied _ p m Hdeny)).
  unfold bind at 1. unfold store_refcount, write_block.
  replace (0 + 16 - 16) with 0 by lia. rewrite blocks_pop, H0. reflexivity.
Qed.

(** ** [insert] *)

(** X20. [insert] never returns [ERR_OUT_OF_MEMORY]: the result of its
    call of [resize] is dropped, and the function ends with [OK] or
    with [ERR_INVALID_PARAMETER]. *)
Theorem insert_never_out_of_memory pos v p m :
  result_of (insert pos v p m) ≠ Some ERR_OUT_OF_MEMORY.
Proof.
  unfold insert, bind.
  destruct (size p m) as [s p1 m1|]; [|cbn; discriminate].
  destruct (bad_index pos (to_Size (wrap (s + 1)))); [cbn; discriminate|].
  destruct (size p1 m1) as [s0 p2 m2|]; [|cbn; discriminate].
  destruct (resize false (to_Size (wrap (s0 + 1))) p2 m2) as [r p3 m3|]; [|cbn; discriminate].
  unfold insert_tail, bind.
  destruct (size p3 m3) as [s1 p4 m4|]; [|cbn; discriminate].
  destruct (insert_loop _ _ _ p4 m4) as [u p5 m5|]; [|cbn; discriminate].
  destruct (set pos v p5 m5) as [u' p6 m6|]; cbn; discriminate.
Qed.

(** Growing into another bucket when the allocator denies. *)
Lemma grow_denied ez n p m b :
  holds p m b → b_size b < n ≤ MAX_INT → n * elem_bytes ≤ 2 ^ 63 →
  next_served m = false → _get_alloc_size n ≠ _get_alloc_size (b_size b) →
  resize ez n p m = Done ERR_OUT_OF_MEMORY p (pop m).
Proof.
  intros Hh Hn Hbytes Hdeny Hdiff. pose proof Hh as (Ho & Hok & Hrc).
  pose proof Hok as (_ & Hsz & HLbytes & Hcap).
  pose proof elem_bytes_pos as Hpos.
  assert (Hn0 : 0 < n) by lia.
  assert (Hnb : 0 ≤ n * elem_bytes) by nia.
  pose proof (alloc_size_bounds n Hn0 Hbytes) as HA.
  pose proof (room_for n Hn0 Hbytes) as Hfit.
  rewrite (resize_exclusive ez n p m b Hh Hn0) by lia.
  unfold resize_sized.
  rewrite (alloc_size_checked_in_range n) by lia. cbn [negb].
  rewrite (wrap_small (b_size b)) by (unfold USIZE_MOD, MAX_INT in *; lia).
  destruct (Z.gtb_spec n (b_size b)) as [_|]; [|lia].
  rewrite (resize_grow_realloc ez n (b_size b) 1 _ _ p m b Ho eq_refl)
    by (try assumption; unfold USIZE_MOD; lia).
  cbv zeta. rewrite (denied _ Hdeny). reflexivity.
Qed.

(** X21. [insert] into a buffer that the handle holds alone, when the
    new length needs another bucket and the allocator denies it: the call
    still returns [OK]; the buffer keeps its length, [v] is at [pos], the
    elements that were from [pos] on are one index higher, and the one
    that was last is lost. *)
Theorem insert_denied_drops_last pos v p m b :
  holds p m b → 0 ≤ pos < b_size b → fits (b_size b + 1) →
  next_served m = false →
  _get_alloc_size (b_size b + 1) ≠ _get_alloc_size (b_size b) →
  ∃ m', insert pos v p m = Done OK p m' ∧
    seen_size p m' = Some (b_size b) ∧
    (∀ i, 0 ≤ i < pos → seen_elem p m' i = seen_elem p m i) ∧
    seen_elem p m' pos = Some v ∧
    (∀ i, pos < i < b_size b → seen_elem p m' i = seen_elem p m (i - 1)).
Proof.
  intros Hh Hpos [Hmax Hbytes] Hdeny Hdiff. pose proof Hh as (Ho & Hok & Hrc).
  pose proof Hok as (_ & Hsz & _). pose proof (block_ok_room _ Hok) as Hroom.
  assert (Hs : size p m = Done (b_size b) p m).
  { rewrite (size_owns _ _ _ Ho), (block_ok_size _ Hok). reflexivity. }
  assert (Hpos' : 0 ≤ pos ≤ b_size b) by lia.
  rewrite (insert_unfold pos v p m (b_size b) Hs Hpos' Hmax).
  assert (Hn : b_size b < b_size b + 1 ≤ MAX_INT) by lia.
  rewrite (bind_Done _ _ _ _ _ _ _ (grow_denied false _ p m b Hh Hn Hbytes Hdeny Hdiff)).
  assert (Hh1 : holds p (pop m) b).
  { split; [|split; assumption]. split; [exact (proj1 Ho)|].
    rewrite blocks_pop. exact (proj2 Ho). }
  destruct (insert_tail_at pos v p (pop m) b Hh1 Hpos') as (l' & Htail & Hlen & Hl').
  rewrite Htail. eexists. split; [reflexivity|].
  pose proof (holds_with_slots _ _ _ _ Hh1 Hlen) as (Ho2 & Hok2 & _).
  assert (Hlt : pos < b_size b) by lia. specialize (Hl' Hlt).
  split; [apply (seen_size_ok _ _ _ Ho2 Hok2)|].
  assert (Hsh : ∀ j : nat, (j < Z.to_nat (b_size b))%nat → j ≠ Z.to_nat pos →
            l' !! j = if decide (Z.to_nat pos < j)%nat
                      then b_slots b !! (j - 1)%nat else b_slots b !! j).
  { intros j Hj Hne. rewrite Hl'. rewrite list_lookup_insert_ne by lia.
    rewrite lookup_shift_up by lia.
    destruct (decide (Z.to_nat pos < j)%nat);
      destruct (decide (Z.to_nat (b_size b - 1) - Z.to_nat (b_size b - 1 - pos) < j
                        ≤ Z.to_nat (b_size b - 1))%nat); try lia; reflexivity. }
  split; [|split].
  - intros i Hi. rewrite (seen_elem_in _ _ _ _ Ho2 Hok2) by (simpl; lia).
    rewrite (seen_elem_in _ _ _ _ Ho Hok) by lia. simpl.
    rewrite Hsh by lia. destruct (decide (Z.to_nat pos < Z.to_nat i)%nat); [lia|reflexivity].
  - rewrite (seen_elem_in _ _ _ _ Ho2 Hok2) by (simpl; lia). simpl. rewrite Hl'.
    apply list_lookup_insert_eq. rewrite length_shift_up. lia.
  - intros i Hi. rewrite (seen_elem_in _ _ _ _ Ho2 Hok2) by (simpl; lia).
    rewrite (seen_elem_in _ _ _ _ Ho Hok) by lia. simpl.
    rewrite Hsh by lia. destruct (decide (Z.to_nat pos < Z.to_nat i)%nat); [|lia].
    f_equal. lia.
Qed.

(** [insert] when every request is served, with what is left of the
    script. *)
Lemma insert_served pos v p m L :
  handle_ok p m → seen_size p m = Some L → 0 ≤ pos ≤ L →
  all_served m = true → fits (L + 1) →
  ∃ p' m' b', insert pos v p m = Done OK p' m' ∧ holds p' m' b' ∧
    all_served m' = true ∧ b_size b' = L + 1 ∧
    ∀ j : nat, (j < Z.to_nat (L + 1))%nat →
      b_slots b' !! j =
        if decide (j < Z.to_nat pos)%nat then shown p m !! j
        else if decide (j = Z.to_nat pos) then Some v
        else shown p m !! (j - 1)%nat.
Proof.
  intros Hh Hs Hpos Hall [Hmax Hbytes].
  pose proof (all_served_next _ Hall) as Hsrv.
  destruct Hh as [->|(b & Ho & Hok)].
  - rewrite seen_size_null in Hs. injection Hs as <-.
    assert (pos = 0) as -> by lia.
    rewrite (insert_unfold 0 v 0 m 0 (size_null m)) by (unfold MAX_INT; lia).
    destruct (resize_sized_null false 1 m ltac:(unfold MAX_INT; lia) Hbytes Hsrv)
      as (p1 & m1 & Hrun & _ & Hres).
    rewrite <- (resize_null false 1 m) in Hrun by lia.
    change (0 + 1) with 1. rewrite (bind_Done _ _ _ _ _ _ _ Hrun).
    destruct Hres as (Hall1 & _ & _ & b1 & Hholds1 & _ & Hcase).
    assert (Hsz1 : b_size b1 = 1)
      by (destruct Hcase as [[_ ?]|[? _]]; [assumption|discriminate]).
    destruct (insert_tail_at 0 v p1 m1 b1 Hholds1 ltac:(lia)) as (l' & Htail & Hlen & Hl').
    rewrite Htail.
    exists p1, (put_block (p1 - 16) (with_slots l' b1) m1), (with_slots l' b1).
    split; [reflexivity|]. split; [apply holds_with_slots; assumption|].
    split; [rewrite all_served_put; apply Hall1, Hall|]. split; [exact Hsz1|].
    intros j Hj. assert (j = 0%nat) as -> by lia. simpl. rewrite Hl' by lia.
    destruct Hholds1 as (_ & Hok1 & _). pose proof (block_ok_room _ Hok1) as Hroom1.
    apply list_lookup_insert_eq. rewrite length_shift_up. lia.
  - rewrite (seen_size_ok _ _ _ Ho Hok) in Hs. injection Hs as <-.
    pose proof Hok as (_ & Hsz & _).
    assert (Hs : size p m = Done (b_size b) p m).
    { rewrite (size_owns _ _ _ Ho), (block_ok_size _ Hok). reflexivity. }
    rewrite (insert_unfold pos v p m (b_size b) Hs Hpos Hmax).
    assert (Hn : 0 < b_size b + 1 ≤ MAX_INT) by lia.
    assert (Hne : b_size b + 1 ≠ b_size b) by lia.
    destruct (resize_owns false (b_size b + 1) p m b Ho Hok (λ _, Hsrv) Hn Hne Hbytes)
      as (r & p1 & m1 & Hrun & _ & _ & Hres).
    rewrite (bind_Done _ _ _ _ _ _ _ Hrun).
    destruct Hres as (Hall1 & Hnext & _ & b1 & Hholds1 & Hpre & Hcase).
    pose proof (all_served_after_clone b m Hall) as Hallc.
    assert (Hr : r = OK) by (apply Hnext, all_served_next, Hallc).
    assert (Hsz1 : b_size b1 = b_size b + 1)
      by (destruct Hcase as [[_ ?]|[? _]]; [assumption|congruence]).
    assert (Hpos1 : 0 ≤ pos ≤ b_size b1) by lia.
    destruct (insert_tail_at pos v p1 m1 b1 Hholds1 Hpos1) as (l' & Htail & Hlen & Hl').
    rewrite Htail.
    exists p1, (put_block (p1 - 16) (with_slots l' b1) m1), (with_slots l' b1).
    split; [reflexivity|]. split; [apply holds_with_slots; assumption|].
    split; [rewrite all_served_put; apply Hall1, Hallc|]. split; [exact Hsz1|].
    intros j Hj. simpl. rewrite Hl' by lia. rewrite Hsz1.
    replace (b_size b + 1 - 1) with (b_size b) by lia.
    destruct Hholds1 as (_ & Hok1 & _). pose proof (block_ok_room _ Hok1) as Hroom1.
    rewrite (shown_owns _ _ _ Ho).
    rewrite (inserted_lookup _ (b_slots b) (b_size b) pos v j Hpos) by
      (try lia; intros i Hi; apply Hpre; lia).
    destruct (decide (j < Z.to_nat pos)%nat); [rewrite lookup_contents by lia; reflexivity|].
    destruct (decide (j = Z.to_nat pos)); [reflexivity|].
    rewrite lookup_contents by lia. reflexivity.
Qed.

(** ** [remove_at] *)

Lemma length_shift_down l (i k : nat) : length (shift_down l i k) = length l.
Proof.
  revert l i. induction k as [|k IH]; intros l i; simpl; [reflexivity|].
  destruct (l !! S i); [|reflexivity]. rewrite IH. apply length_insert.
Qed.

Lemma lookup_shift_down l (i k j : nat) :
  (i + k < length l)%nat →
  shift_down l i k !! j =
    if decide (i ≤ j < i + k)%nat then l !! S j else l !! j.
Proof.
  revert l i. induction k as [|k IH]; intros l i Hk; simpl.
  - destruct (decide (i ≤ j < i + 0)%nat); [lia|reflexivity].
  - destruct (lookup_lt_is_Some_2 l (S i)) as [x Hx]; [lia|]. rewrite Hx.
    rewrite IH by (rewrite ?length_insert; lia).
    destruct (decide (S i ≤ j < S i + k)%nat) as [Hin|Hout].
    + rewrite list_lookup_insert_ne by lia.
      destruct (decide (i ≤ j < i + S k)%nat); [reflexivity|lia].
    + destruct (decide (j = i)) as [->|Hne].
      * rewrite list_lookup_insert_eq by lia.
        destruct (decide (i ≤ i < i + S k)%nat); [symmetry; exact Hx|lia].
      * rewrite list_lookup_insert_ne by lia.
        destruct (decide (i ≤ j < i + S k)%nat); [lia|reflexivity].
Qed.

Lemma for_up_shift_down q p (n : nat) : ∀ (i : nat) m b,
  blocks m !! (q - 16) = Some b →
  (i + n < length (b_slots b))%nat →
  for_up n (Z.of_nat i)
    (λ j, let! x := load_elem q (j + 1) in store_elem q j x) p m =
  Done tt p (put_block (q - 16) (with_slots (shift_down (b_slots b) i n) b) m).
Proof.
  induction n as [|n IH]; intros i m b Hb Hn; simpl.
  - rewrite with_slots_id, (put_id _ _ _ Hb). reflexivity.
  - destruct (lookup_lt_is_Some_2 (b_slots b) (S i)) as [x Hx]; [lia|]. rewrite Hx.
    assert (Hload : load_elem q (Z.of_nat i + 1) p m = Done x p m).
    { apply (load_elem_at q m b Hb); [lia|].
      replace (Z.to_nat (Z.of_nat i + 1)) with (S i) by lia. exact Hx. }
    assert (Hbody : (let! x := load_elem q (Z.of_nat i + 1) in
                     store_elem q (Z.of_nat i) x) p m =
              Done tt p (put_block (q - 16) (with_slots (<[i := x]> (b_slots b)) b) m)).
    { rewrite (bind_Done _ _ _ _ _ _ _ Hload).
      rewrite (store_elem_at q m b Hb) by lia. rewrite Nat2Z.id. reflexivity. }
    rewrite (bind_Done _ _ _ _ _ _ _ Hbody).
    replace (Z.of_nat i + 1) with (Z.of_nat (S i)) by lia.
    rewrite (IH (S i) _ _ (lookup_put_eq _ _ _)) by (simpl; rewrite length_insert; lia).
    rewrite put_put. reflexivity.
Qed.

Lemma for_up_shift_down_Z q p (n : nat) i m b :
  blocks m !! (q - 16) = Some b → 0 ≤ i →
  (Z.to_nat i + n < length (b_slots b))%nat →
  for_up n i (λ j, let! x := load_elem q (j + 1) in store_elem q j x) p m =
  Done tt p (put_block (q - 16) (with_slots (shift_down (b_slots b) (Z.to_nat i) n) b) m).
Proof.
  intros Hb Hi Hn. rewrite <- (Z2Nat.id i) at 1 by exact Hi.
  apply for_up_shift_down; assumption.
Qed.

Lemma remove_at_owns idx p m b :
  owns p m b → block_ok b → all_served m = true → 0 ≤ idx < b_size b →
  ∃ p' m', remove_at idx p m = Done tt p' m' ∧ all_served m' = true ∧
    handle_ok p' m' ∧ seen_size p' m' = Some (b_size b - 1) ∧
    ∀ j, 0 ≤ j < b_size b - 1 →
      seen_elem p' m' j = b_slots b !! Z.to_nat (if j <? idx then j else j + 1).
Proof.
  intros Ho Hok Hall Hidx. pose proof Hok as (_ & Hsz & HLbytes & _).
  pose proof (all_served_next _ Hall) as Hsrv.
  pose proof elem_bytes_pos as Hpos.
  destruct (cow_holds _ _ _ Ho Hok (λ _, Hsrv))
    as (rc & p1 & m1 & b1 & Hcow & Hh1 & Hsz1 & Hpre1 & Hall1 & _).
  specialize (Hall1 Hall).
  pose proof Hh1 as (Ho1 & Hok1 & Hrc1). pose proof Ho1 as [Hp1 Hb1].
  unfold ALLOC_PAD in Hb1.
  pose proof (block_ok_room _ Hok1) as Hroom1.
  set (L := b_size b) in *.
  set (sd := shift_down (b_slots b1) (Z.to_nat idx) (Z.to_nat (L - 1 - idx))).
  assert (Hlen : length sd = length (b_slots b1)) by apply length_shift_down.
  pose proof (holds_with_slots _ _ _ _ Hh1 Hlen) as Hh2.
  pose proof Hh2 as (Ho2 & Hok2 & Hrc2).
  assert (Hsd : ∀ j, 0 ≤ j < L - 1 →
            sd !! Z.to_nat j = b_slots b !! Z.to_nat (if j <? idx then j else j + 1)).
  { intros j Hj. unfold sd. rewrite lookup_shift_down by lia.
    destruct (Z.ltb_spec j idx).
    - destruct (decide (Z.to_nat idx ≤ Z.to_nat j
                        < Z.to_nat idx + Z.to_nat (L - 1 - idx))%nat); [lia|].
      apply Hpre1. lia.
    - destruct (decide (Z.to_nat idx ≤ Z.to_nat j
                        < Z.to_nat idx + Z.to_nat (L - 1 - idx))%nat); [|lia].
      replace (S (Z.to_nat j)) with (Z.to_nat (j + 1)) by lia. apply Hpre1. lia. }
  assert (Hrun : remove_at idx p m =
            (let! _ := resize false (L - 1) in ret tt) p1
              (put_block (p1 - 16) (with_slots sd b1) m1)).
  { unfold remove_at.
    rewrite (bind_Done _ _ _ _ _ _ _ (size_owns _ _ _ Ho)), (block_ok_size _ Hok).
    rewrite bad_index_false by exact Hidx.
    assert (Hptrw : ptrw p m = Done p1 p1 m1).
    { unfold ptrw. rewrite (bind_Done _ _ _ _ _ _ _ Hcow). reflexivity. }
    rewrite (bind_Done _ _ _ _ _ _ _ Hptrw).
    rewrite (bind_Done _ _ _ _ _ _ _ (size_owns _ _ _ Ho1)), (block_ok_size _ Hok1), Hsz1.
    fold L.
    assert (Hfit : (Z.to_nat idx + Z.to_nat (L - 1 - idx) < length (b_slots b1))%nat) by lia.
    rewrite (bind_Done _ _ _ _ _ _ _
      (for_up_shift_down_Z p1 p1 _ idx m1 b1 Hb1 (proj1 Hidx) Hfit)).
    reflexivity. }
  rewrite Hrun.
  destruct (Z.eq_dec L 1) as [HL1|HL1].
  - replace (L - 1) with 0 by lia.
    rewrite (bind_Done _ _ _ _ _ _ _ (resize_zero_owns false _ _ _ Ho2 Hok2)).
    eexists 0, _. split; [reflexivity|]. split; [|split; [left; reflexivity|split]].
    + destruct (b_refcount (with_slots sd b1) =? 1).
      * rewrite all_served_drop, all_served_put. exact Hall1.
      * rewrite !all_served_put. exact Hall1.
    + apply seen_size_null.
    + intros j Hj. lia.
  - assert (Hn : 0 < L - 1 ≤ MAX_INT) by lia.
    assert (Hne : L - 1 ≠ b_size (with_slots sd b1)) by (simpl; lia).
    assert (Hbytes : (L - 1) * elem_bytes ≤ 2 ^ 63) by nia.
    assert (Hexcl : 1 < b_refcount (with_slots sd b1) →
                    next_served (put_block (p1 - 16) (with_slots sd b1) m1) = true).
    { intros H. rewrite Hrc2 in H. lia. }
    destruct (resize_owns false (L - 1) p1 _ _ Ho2 Hok2 Hexcl Hn Hne Hbytes)
      as (r & p' & m' & Hres & _ & _ & Hrz).
    rewrite (after_clone_exclusive _ _ Hrc2) in Hrz.
    destruct Hrz as (Hall' & Hnext & _ & b' & Hh' & Hpre' & Hcase).
    rewrite all_served_put in Hall'. specialize (Hall' Hall1).
    assert (Hr : r = OK).
    { apply Hnext. apply all_served_next. rewrite all_served_put. exact Hall1. }
    assert (Hsz' : b_size b' = L - 1)
      by (destruct Hcase as [[_ ?]|[? _]]; [assumption|congruence]).
    destruct Hh' as (Ho' & Hok' & _).
    rewrite (bind_Done _ _ _ _ _ _ _ Hres).
    exists p', m'. split; [reflexivity|]. split; [exact Hall'|].
    split; [right; exists b'; split; assumption|]. split.
    + rewrite (seen_size_ok _ _ _ Ho' Hok'), Hsz'. reflexivity.
    + intros j Hj. rewrite (seen_elem_in _ _ _ _ Ho' Hok') by lia.
      rewrite Hpre' by (simpl; lia). simpl. apply Hsd, Hj.
Qed.

(** X22. [remove_at] on a well-formed handle of [L] elements.  An index
    outside [0, L) changes nothing.  An index inside, when every request
    to the allocator is served: afterwards the handle shows [L - 1]
    elements, those below the index as before and those above it one
    index lower. *)
Theorem remove_at_contract idx p m L :
  handle_ok p m → seen_size p m = Some L →
  (idx < 0 ∨ L ≤ idx → remove_at idx p m = Done tt p m) ∧
  (0 ≤ idx < L → all_served m = true →
     ∃ p' m', remove_at idx p m = Done tt p' m' ∧
       seen_size p' m' = Some (L - 1) ∧
       (∀ i, 0 ≤ i < idx → seen_elem p' m' i = seen_elem p m i) ∧
       (∀ i, idx ≤ i < L - 1 → seen_elem p' m' i = seen_elem p m (i + 1))).
Proof.
  intros Hh Hs. split.
  - intros Hi. unfold remove_at.
    rewrite (bind_Done _ _ _ _ _ _ _ (seen_size_Done _ _ _ Hs)).
    rewrite (bad_index_true _ _ Hi). reflexivity.
  - intros Hi Hall. destruct Hh as [->|(b & Ho & Hok)].
    { rewrite seen_size_null in Hs. injection Hs as <-. lia. }
    rewrite (seen_size_ok _ _ _ Ho Hok) in Hs. injection Hs as <-.
    destruct (remove_at_owns idx p m b Ho Hok Hall Hi)
      as (p' & m' & Hrun & _ & _ & Hsz' & Hel).
    exists p', m'. split; [exact Hrun|]. split; [exact Hsz'|]. split.
    + intros i Hr. rewrite Hel by lia. rewrite (seen_elem_in _ _ _ _ Ho Hok) by lia.
      destruct (Z.ltb_spec i idx); [reflexivity|lia].
    + intros i Hr. rewrite Hel by lia. rewrite (seen_elem_in _ _ _ _ Ho Hok) by lia.
      destruct (Z.ltb_spec i idx); [lia|reflexivity].
Qed.

(** X23. Inserting an element at a valid position of a well-formed
    handle and removing the element at that position again, when every
    request to the allocator is served, gives a handle that shows the
    sequence from before. *)
Theorem insert_then_remove_at pos v p m L :
  handle_ok p m → seen_size p m = Some L → 0 ≤ pos ≤ L →
  all_served m = true → fits (L + 1) →
  ∃ p1 m1 p2 m2, insert pos v p m = Done OK p1 m1 ∧
    remove_at pos p1 m1 = Done tt p2 m2 ∧
    same_view p m p2 m2.
Proof.
  intros Hh Hs Hpos Hall Hfits.
  destruct (insert_served pos v p m L Hh Hs Hpos Hall Hfits)
    as (p1 & m1 & b1 & Hins & (Ho1 & Hok1 & _) & Hall1 & Hsz1 & Hsl1).
  assert (Hpos1 : 0 ≤ pos < b_size b1) by lia.
  destruct (remove_at_owns pos p1 m1 b1 Ho1 Hok1 Hall1 Hpos1)
    as (p2 & m2 & Hrem & _ & _ & Hsz2 & Hel2).
  rewrite Hsz1 in Hsz2, Hel2. replace (L + 1 - 1) with L in Hsz2, Hel2 by lia.
  exists p1, m1, p2, m2. split; [exact Hins|]. split; [exact Hrem|].
  split; [rewrite Hsz2, Hs; reflexivity|].
  intros i. destruct (Z_lt_le_dec i 0) as [Hneg|Hnn].
  { rewrite (seen_elem_outside _ _ _ _ Hsz2), (seen_elem_outside _ _ _ _ Hs) by lia.
    reflexivity. }
  destruct (Z_lt_le_dec i L) as [Hin|Hout].
  - rewrite (seen_elem_shown _ _ _ Hh Hnn). rewrite Hel2 by lia.
    destruct (Z.ltb_spec i pos).
    + rewrite Hsl1 by lia.
      destruct (decide (Z.to_nat i < Z.to_nat pos)%nat); [reflexivity|lia].
    + rewrite Hsl1 by lia.
      destruct (decide (Z.to_nat (i + 1) < Z.to_nat pos)%nat); [lia|].
      destruct (decide (Z.to_nat (i + 1) = Z.to_nat pos)); [lia|].
      f_equal. lia.
  - rewrite (seen_elem_outside _ _ _ _ Hsz2), (seen_elem_outside _ _ _ _ Hs) by lia.
    reflexivity.
Qed.

(** ** [count], and the searches together *)

Lemma occurrences_nonneg v l : 0 ≤ occurrences v l.
Proof. induction l as [|x l IH]; simpl; [lia|]. destruct (T_eqb x v); lia. Qed.

Lemma occurrences_zero v l :
  occurrences v l = 0 ↔ ∀ (j : nat) x, l !! j = Some x → T_eqb x v = false.
Proof.
  induction l as [|y l IH]; simpl.
  - split; [intros _ j x Hj; discriminate|reflexivity].
  - pose proof (occurrences_nonneg v l) as Hnn. split.
    + intros Hz j x Hj. destruct (T_eqb y v) eqn:Hy; [lia|].
      destruct j as [|j]; simpl in Hj.
      * injection Hj as <-. exact Hy.
      * apply (proj1 IH ltac:(lia) j x Hj).
    + intros Hall. rewrite (Hall 0%nat y eq_refl).
      rewrite (proj2 IH); [reflexivity|]. intros j x Hj. apply (Hall (S j) x Hj).
Qed.

Lemma count_loop_spec v p m b (fuel : nat) :
  owns p m b → block_ok b →
  ∀ i amount, 0 ≤ i → Z.of_nat fuel = b_size b - i →
  count_loop fuel v i amount p m =
    Done (amount + occurrences v (drop (Z.to_nat i) (contents b))) p m.
Proof.
  intros Ho Hok. induction fuel as [|fuel IH]; intros i amount Hi Hfuel.
  - simpl. rewrite drop_ge by (rewrite (length_contents _ Hok); lia).
    simpl. rewrite Z.add_0_r. reflexivity.
  - cbn [count_loop]. rewrite (bind_Done _ _ _ _ _ _ _ (size_owns _ _ _ Ho)).
    rewrite (block_ok_size _ Hok).
    destruct (Z.ltb_spec i (b_size b)); [|lia].
    destruct (block_ok_slot b i Hok) as [x Hx]; [lia|].
    assert (Hget : get i p m = Done x p m).
    { apply (get_owns _ _ _ _ _ Ho); [rewrite (block_ok_size _ Hok); lia|exact Hx]. }
    rewrite (bind_Done _ _ _ _ _ _ _ Hget).
    rewrite IH by lia.
    assert (Hc : contents b !! Z.to_nat i = Some x) by (rewrite lookup_contents by lia; exact Hx).
    rewrite (drop_S _ _ _ Hc).
    replace (Z.to_nat (i + 1)) with (S (Z.to_nat i)) by lia.
    simpl. destruct (T_eqb x v); f_equal; lia.
Qed.

Lemma count_shown v p m :
  handle_ok p m → count v p m = Done (occurrences v (shown p m)) p m.
Proof.
  intros [->|(b & Ho & Hok)].
  - unfold count. rewrite (bind_Done _ _ _ _ _ _ _ (size_null m)). reflexivity.
  - pose proof Hok as (_ & Hsz & _).
    unfold count. rewrite (bind_Done _ _ _ _ _ _ _ (size_owns _ _ _ Ho)).
    rewrite (block_ok_size _ Hok).
    rewrite (count_loop_spec v p m b _ Ho Hok 0 0) by lia.
    rewrite (shown_owns _ _ _ Ho). reflexivity.
Qed.

(** X24. On a well-formed handle [count] returns the number of elements
    of the buffer that equal the value, and changes nothing. *)
Theorem count_is_occurrences v p m :
  handle_ok p m →
  count v p m = Done (occurrences v (shown p m)) p m ∧
  ∀ i, 0 ≤ i → seen_elem p m i = shown p m !! Z.to_nat i.
Proof.
  intros Hh. split; [apply (count_shown _ _ _ Hh)|].
  intros i Hi. apply (seen_elem_shown _ _ _ Hh Hi).
Qed.

Lemma matches_shown v p m i :
  handle_ok p m →
  matches v p m i ↔ 0 ≤ i ∧ ∃ x, shown p m !! Z.to_nat i = Some x ∧ T_eqb x v = true.
Proof.
  intros Hh. unfold matches. destruct (Z_lt_le_dec i 0) as [Hneg|Hnn].
  - destruct Hh as [->|(b & Ho & Hok)].
    + rewrite seen_elem_null. split; [intros (x & Hx & _); discriminate|lia].
    + rewrite (seen_elem_outside p m (b_size b) i (seen_size_ok _ _ _ Ho Hok)) by lia.
      split; [intros (x & Hx & _); discriminate|lia].
  - rewrite (seen_elem_shown _ _ _ Hh Hnn). split; [intros H; split; [lia|exact H]|].
    intros [_ H]. exact H.
Qed.

Lemma no_match_iff v p m :
  handle_ok p m → (∀ i, ¬ matches v p m i) ↔ occurrences v (shown p m) = 0.
Proof.
  intros Hh. rewrite occurrences_zero. split.
  - intros Hno j x Hj. destruct (T_eqb x v) eqn:Hx; [|reflexivity].
    exfalso. apply (Hno (Z.of_nat j)). apply (matches_shown _ _ _ _ Hh).
    split; [lia|]. exists x. rewrite Nat2Z.id. split; assumption.
  - intros Hall i Hm. apply (matches_shown _ _ _ _ Hh) in Hm as (_ & x & Hx & Hv).
    rewrite (Hall _ _ Hx) in Hv. discriminate.
Qed.

Lemma find_from_start v p m :
  handle_ok p m → ∃ r, find v 0 p m = Done r p m ∧ lowest_match v p m 0 r.
Proof.
  intros [->|(b & Ho & Hok)].
  - exists (-1). split.
    + unfold find. rewrite (bind_Done _ _ _ _ _ _ _ (size_null m)). reflexivity.
    + left. split; [reflexivity|]. intros i _. apply matches_null.
  - pose proof Hok as (_ & Hs & _).
    unfold find. rewrite (bind_Done _ _ _ _ _ _ _ (size_owns _ _ _ Ho)).
    rewrite (block_ok_size _ Hok).
    destruct (Z.eqb_spec (b_size b) 0); [lia|]. cbn [Z.ltb Z.compare orb].
    apply (find_loop_spec _ _ _ b); [assumption..|lia|lia].
Qed.

Lemma rfind_from_end v p m s :
  handle_ok p m → seen_size p m = Some s →
  ∃ r, rfind v (-1) p m = Done r p m ∧ highest_match v p m (s - 1) r.
Proof.
  intros [->|(b & Ho & Hok)] Hs.
  - rewrite seen_size_null in Hs. injection Hs as <-. exists (-1). split.
    + unfold rfind. rewrite (bind_Done _ _ _ _ _ _ _ (size_null m)). reflexivity.
    + left. split; [reflexivity|]. intros i _. apply matches_null.
  - rewrite (seen_size_ok _ _ _ Ho Hok) in Hs. injection Hs as <-.
    pose proof Hok as (_ & Hs & _).
    unfold rfind. rewrite (bind_Done _ _ _ _ _ _ _ (size_owns _ _ _ Ho)).
    rewrite (block_ok_size _ Hok). cbn [Z.ltb Z.compare].
    replace (b_size b + -1) with (b_size b - 1) by lia.
    destruct (Z.ltb_spec (b_size b - 1) 0); [lia|].
    destruct (Z.geb_spec (b_size b - 1) (b_size b)); [lia|]. cbn [orb].
    apply (rfind_loop_spec v p m b _ _ Ho Hok); lia.
Qed.

(** X25. The three searches agree on a well-formed handle: [find] from
    the first index and [rfind] from the last one return -1 exactly when
    [count] returns 0; otherwise both return an index of the buffer, and
    the one of [find] is not above the one of [rfind]. *)
Theorem find_rfind_count_agree v p m :
  handle_ok p m →
  ∃ f r c s, find v 0 p m = Done f p m ∧ rfind v (-1) p m = Done r p m ∧
    count v p m = Done c p m ∧ seen_size p m = Some s ∧
    0 ≤ c ∧ (c = 0 ↔ f = -1) ∧ (c = 0 ↔ r = -1) ∧
    (c ≠ 0 → 0 ≤ f ≤ r ∧ r < s).
Proof.
  intros Hh.
  assert (Hsz : ∃ s, seen_size p m = Some s ∧
                     ∀ i, matches v p m i → 0 ≤ i < s).
  { destruct Hh as [->|(b & Ho & Hok)].
    - exists 0. split; [apply seen_size_null|]. intros i Hm.
      exfalso. apply (matches_null _ _ _ Hm).
    - exists (b_size b). split; [apply (seen_size_ok _ _ _ Ho Hok)|].
      intros i Hm. apply (matches_owns _ _ _ _ _ Ho Hok) in Hm. tauto. }
  destruct Hsz as (s & Hs & Hrange).
  destruct (find_from_start v p m Hh) as (f & Hf & Hlow).
  destruct (rfind_from_end v p m s Hh Hs) as (r & Hr & Hhigh).
  exists f, r, (occurrences v (shown p m)), s.
  split; [exact Hf|]. split; [exact Hr|]. split; [apply (count_shown _ _ _ Hh)|].
  split; [exact Hs|]. split; [apply occurrences_nonneg|].
  pose proof (no_match_iff v p m Hh) as Hnm.
  assert (Hf' : occurrences v (shown p m) = 0 ↔ f = -1).
  { split.
    - intros Hz. destruct Hlow as [[-> _]|(_ & Hm & _)]; [reflexivity|].
      exfalso. apply (proj2 Hnm Hz f Hm).
    - intros ->. destruct Hlow as [[_ Hno]|(Hge & _)]; [|lia].
      apply Hnm. intros i Hm. apply (Hno i); [|exact Hm]. apply Hrange in Hm. lia. }
  assert (Hr' : occurrences v (shown p m) = 0 ↔ r = -1).
  { split.
    - intros Hz. destruct Hhigh as [[-> _]|(_ & Hm & _)]; [reflexivity|].
      exfalso. apply (proj2 Hnm Hz r Hm).
    - intros ->. destruct Hhigh as [[_ Hno]|(_ & Hm & _)].
      + apply Hnm. intros i Hm. apply (Hno i); [|exact Hm]. apply Hrange in Hm. lia.
      + apply Hrange in Hm. lia. }
  split; [exact Hf'|]. split; [exact Hr'|].
  intros Hc.
  destruct Hlow as [[-> _]|(Hf0 & Hfm & _)]; [exfalso; apply Hc, Hf'; reflexivity|].
  destruct Hhigh as [[-> _]|(Hrs & Hrm & Hrno)]; [exfalso; apply Hc, Hr'; reflexivity|].
  pose proof (Hrange _ Hfm). pose proof (Hrange _ Hrm).
  split; [|lia]. split; [lia|].
  destruct (Z_le_gt_dec f r) as [|Hgt]; [assumption|].
  exfalso. apply (Hrno f); [lia|exact Hfm].
Qed.

(** ** The invariant of the handles *)

Lemma sharer_ok p m b m' :
  owns p m b → block_ok b → 1 < b_refcount b →
  blocks m' !! (p - 16) = Some (with_refcount (b_refcount b - 1) b) →
  handle_ok p m'.
Proof.
  intros Ho Hok Hrc Hb'. right. exists (with_refcount (b_refcount b - 1) b). split.
  - split; [exact (proj1 Ho)|exact Hb'].
  - pose proof Hok as (Hr & _). apply block_ok_with_refcount; [exact Hok|lia].
Qed.

(** The blocks of [m] other than the one at base [k] are in [m'] as they
    were. *)
Lemma cow_frame p m b rc p1 m1 :
  owns p m b → block_ok b → (1 < b_refcount b → next_served m = true) →
  _copy_on_write p m = Done rc p1 m1 →
  others_kept (p - 16) m p1 m1.
Proof.
  intros Ho Hok Hsrv Hcow.
  destruct (block_ok_exclusive_or_shared _ Hok) as [Hrc|Hrc].
  - rewrite (_copy_on_write_exclusive _ _ _ Ho) in Hcow by lia.
    injection Hcow as _ <- <-. intros a ba Ha Hne. split; assumption.
  - rewrite (_copy_on_write_shared _ _ _ Ho Hok Hrc (Hsrv Hrc)) in Hcow.
    injection Hcow as _ <- <-. intros a ba Ha Hne.
    assert (heap_top (blocks m) ≠ a).
    { intros <-. rewrite heap_top_fresh in Ha. discriminate. }
    split; [|lia].
    rewrite lookup_put_ne by congruence. rewrite lookup_put_ne by assumption.
    rewrite blocks_pop. exact Ha.
Qed.

Lemma set_effect i x p m :
  handle_ok p m → next_served m = true →
  ∃ p' m', set i x p m = Done tt p' m' ∧ handle_ok p' m' ∧
    (∀ b, owns p m b → 1 < b_refcount b → handle_ok p m') ∧
    (∀ a ba, blocks m !! a = Some ba → a ≠ p - 16 → blocks m' !! a = Some ba).
Proof.
  intros Hh Hsrv.
  assert (Hsame : set i x p m = Done tt p m →
            ∃ p' m', set i x p m = Done tt p' m' ∧ handle_ok p' m' ∧
              (∀ b, owns p m b → 1 < b_refcount b → handle_ok p m') ∧
              (∀ a ba, blocks m !! a = Some ba → a ≠ p - 16 → blocks m' !! a = Some ba)).
  { intros Hr. exists p, m. split; [exact Hr|]. split; [exact Hh|].
    split; [intros _ _ _; exact Hh|]. intros a ba Ha _. exact Ha. }
  destruct Hh as [->|(b & Ho & Hok)].
  - apply Hsame, set_null.
  - pose proof Hok as (_ & Hsz & _).
    destruct (Z_lt_le_dec i 0) as [Hneg|Hnn];
      [|destruct (Z_lt_le_dec i (b_size b)) as [Hin|Hout]].
    + apply Hsame. apply (set_bad_index _ _ _ _ _ Ho Hok). lia.
    + destruct (cow_holds _ _ _ Ho Hok (λ _, Hsrv))
        as (rc & p1 & m1 & b1 & Hcow & Hh1 & Hsz1 & Hpre & _ & _ & Hsh).
      pose proof (cow_frame _ _ _ _ _ _ Ho Hok (λ _, Hsrv) Hcow) as Hframe.
      pose proof Hh1 as (Ho1 & Hok1 & Hrc1). pose proof Ho1 as [Hp1 Hb1].
      unfold ALLOC_PAD in Hb1.
      pose proof (block_ok_room _ Hok1) as Hroom.
      assert (Hlen : length (<[Z.to_nat i := x]> (b_slots b1)) = length (b_slots b1))
        by apply length_insert.
      pose proof (holds_with_slots _ _ _ _ Hh1 Hlen) as (Ho2 & Hok2 & _).
      eexists p1, _. split; [|split; [|split]].
      * unfold set. rewrite (bind_Done _ _ _ _ _ _ _ (size_owns _ _ _ Ho)).
        rewrite (block_ok_size _ Hok), bad_index_false by lia.
        rewrite (bind_Done _ _ _ _ _ _ _ Hcow).
        rewrite (bind_Done _ _ _ _ _ _ _ (this_ptr_eq p1 m1)).
        apply (store_elem_at p1 m1 b1 Hb1). lia.
      * right. eexists. split; [exact Ho2|exact Hok2].
      * intros b0 Ho0 Hrc0.
        assert (b0 = b) as -> by (destruct Ho as [_ Hb]; destruct Ho0 as [_ Hb0]; congruence).
        destruct (Hsh Hrc0) as (Hp1' & Hold & _).
        apply (sharer_ok _ _ _ _ Ho Hok Hrc0).
        pose proof (owns_fresh_ne _ _ _ Ho).
        rewrite lookup_put_ne by lia. exact Hold.
      * intros a ba Ha Hne. destruct (Hframe a ba Ha Hne) as [Hm1 Hne1].
        rewrite lookup_put_ne by congruence. exact Hm1.
    + apply Hsame. apply (set_bad_index _ _ _ _ _ Ho Hok). lia.
Qed.

Lemma resize_effect ez n p m :
  handle_ok p m → next_served m = true → n ≤ MAX_INT → overflow_reported n →
  ∃ r p' m', resize ez n p m = Done r p' m' ∧ handle_ok p' m' ∧
    (∀ b, owns p m b → 1 < b_refcount b → handle_ok p m') ∧
    (∀ a ba, blocks m !! a = Some ba → a ≠ p - 16 → blocks m' !! a = Some ba).
Proof.
  intros Hh Hsrv Hmax Hrep.
  assert (Hsame : ∀ r, resize ez n p m = Done r p m →
            ∃ r p' m', resize ez n p m = Done r p' m' ∧ handle_ok p' m' ∧
              (∀ b, owns p m b → 1 < b_refcount b → handle_ok p m') ∧
              (∀ a ba, blocks m !! a = Some ba → a ≠ p - 16 → blocks m' !! a = Some ba)).
  { intros r Hr. exists r, p, m. split; [exact Hr|]. split; [exact Hh|].
    split; [intros _ _ _; exact Hh|]. intros a ba Ha _. exact Ha. }
  destruct (Z_lt_le_dec n 0) as [Hneg|Hnn].
  { apply (Hsame _ (resize_negative ez n p m Hneg)). }
  destruct Hh as [->|(b & Ho & Hok)].
  - destruct (Z.eq_dec n 0) as [->|Hn0].
    { apply (Hsame _ (resize_same ez 0 0 m ltac:(lia) (seen_size_null m))). }
    destruct (Z_le_gt_dec (n * elem_bytes) (2 ^ 63)) as [Hbytes|Hbig].
    + destruct (resize_sized_null ez n m ltac:(lia) Hbytes Hsrv)
        as (p' & m' & Hrun & Hkept & Hres).
      rewrite <- (resize_null ez n m) in Hrun by lia.
      destruct Hres as (_ & _ & _ & b' & (Ho' & Hok' & _) & _).
      exists OK, p', m'. split; [exact Hrun|]. split; [right; exists b'; split; assumption|].
      split.
      * intros b Ho. pose proof (owns_nonnull _ _ _ Ho). discriminate.
      * intros a ba Ha _. apply (Hkept a ba Ha).
    + apply (Hsame ERR_OUT_OF_MEMORY). rewrite resize_null by lia.
      apply resize_sized_refused, alloc_size_checked_overflow; [lia|lia|exact Hrep].
  - pose proof Hok as (_ & Hsz & _).
    assert (Hb0 : ∀ b0, owns p m b0 → b0 = b).
    { intros b0 [_ Hb0]. destruct Ho as [_ Hb]. congruence. }
    destruct (Z.eq_dec n (b_size b)) as [->|Hne].
    { assert (H0 : 0 ≤ b_size b) by lia.
      apply (Hsame _ (resize_same ez (b_size b) p m H0 (seen_size_ok _ _ _ Ho Hok))). }
    destruct (Z.eq_dec n 0) as [->|Hn0].
    { eexists OK, 0, _. split; [apply (resize_zero_owns ez _ _ _ Ho Hok)|].
      split; [left; reflexivity|]. split.
      - intros b0 Ho0 Hrc0. rewrite (Hb0 _ Ho0) in Hrc0.
        destruct (Z.eqb_spec (b_refcount b) 1); [lia|].
        apply (sharer_ok _ _ _ _ Ho Hok Hrc0). apply lookup_put_eq.
      - intros a ba Ha Hne'. destruct (b_refcount b =? 1).
        + rewrite lookup_drop_ne by congruence. exact Ha.
        + rewrite lookup_put_ne by congruence. exact Ha. }
    destruct (Z_le_gt_dec (n * elem_bytes) (2 ^ 63)) as [Hbytes|Hbig].
    + destruct (resize_owns ez n p m b Ho Hok (λ _, Hsrv) ltac:(lia) Hne Hbytes)
        as (r & p' & m' & Hrun & Hkept & Hshared & Hres).
      destruct Hres as (_ & _ & _ & b' & (Ho' & Hok' & _) & _).
      exists r, p', m'. split; [exact Hrun|]. split; [right; exists b'; split; assumption|].
      split.
      * intros b0 Ho0 Hrc0. rewrite (Hb0 _ Ho0) in Hrc0.
        apply (sharer_ok _ _ _ _ Ho Hok Hrc0). apply (Hshared Hrc0).
      * intros a ba Ha Hne'. apply (Hkept a ba Ha Hne').
    + assert (Href : fst (_get_alloc_size_checked (wrap n)) = false)
        by (apply alloc_size_checked_overflow; [lia|lia|exact Hrep]).
      destruct (block_ok_exclusive_or_shared _ Hok) as [Hrc|Hrc].
      * apply (Hsame ERR_OUT_OF_MEMORY).
        rewrite (resize_exclusive ez n p m b (conj Ho (conj Hok Hrc))) by lia.
        apply resize_sized_refused, Href.
      * eexists ERR_OUT_OF_MEMORY, _, _. split; [|split; [|split]].
        -- rewrite (resize_shared ez n p m b Ho Hok Hrc Hsrv) by lia.
           apply resize_sized_refused, Href.
        -- right. eexists. destruct (clone_holds _ _ _ Ho Hok) as (Hoc & Hokc & _).
           split; [exact Hoc|exact Hokc].
        -- intros b0 Ho0 Hrc0. apply (sharer_ok _ _ _ _ Ho Hok Hrc). apply lookup_put_eq.
        -- intros a ba Ha Hne'.
           assert (heap_top (blocks m) ≠ a).
           { intros <-. rewrite heap_top_fresh in Ha. discriminate. }
           rewrite lookup_put_ne by congruence. rewrite lookup_put_ne by assumption.
           rewrite blocks_pop. exact Ha.
Qed.

Lemma insert_effect pos v p m L :
  handle_ok p m → seen_size p m = Some L → next_served m = true → fits (L + 1) →
  ∃ r p' m', insert pos v p m = Done r p' m' ∧ handle_ok p' m' ∧
    (∀ b, owns p m b → 1 < b_refcount b → handle_ok p m') ∧
    (∀ a ba, blocks m !! a = Some ba → a ≠ p - 16 → blocks m' !! a = Some ba).
Proof.
  intros Hh Hs Hsrv Hfits.
  assert (HL : 0 ≤ L).
  { destruct Hh as [->|(b & Ho & Hok)].
    - rewrite seen_size_null in Hs. injection Hs as <-. lia.
    - rewrite (seen_size_ok _ _ _ Ho Hok) in Hs. injection Hs as <-.
      destruct Hok as (_ & ? & _). lia. }
  assert (Hinv : pos < 0 ∨ L < pos →
            ∃ r p' m', insert pos v p m = Done r p' m' ∧ handle_ok p' m' ∧
              (∀ b, owns p m b → 1 < b_refcount b → handle_ok p m') ∧
              (∀ a ba, blocks m !! a = Some ba → a ≠ p - 16 → blocks m' !! a = Some ba)).
  { intros Hout. exists ERR_INVALID_PARAMETER, p, m.
    split; [|split; [exact Hh|split; [intros _ _ _; exact Hh|intros a ba Ha _; exact Ha]]].
    apply (insert_invalid pos v p m L (seen_size_Done _ _ _ Hs)); [|exact Hout].
    destruct Hfits as [? _]. lia. }
  destruct (Z_lt_le_dec pos 0) as [Hneg|Hnn]; [apply Hinv; lia|].
  destruct (Z_le_gt_dec pos L) as [Hin|Hout]; [|apply Hinv; lia].
  destruct Hh as [->|(b & Ho & Hok)].
  - rewrite seen_size_null in Hs. injection Hs as <-.
    assert (pos = 0) as -> by lia.
    destruct (insert_null v m Hsrv Hfits)
      as (p' & m' & b' & Hrun & Hkept & (Ho' & Hok' & _) & _).
    exists OK, p', m'. split; [exact Hrun|]. split; [right; exists b'; split; assumption|].
    split.
    + intros b Ho. pose proof (owns_nonnull _ _ _ Ho). discriminate.
    + intros a ba Ha _. apply (Hkept a ba Ha).
  - rewrite (seen_size_ok _ _ _ Ho Hok) in Hs. injection Hs as <-.
    destruct (insert_owns pos v p m b Ho Hok (λ _, Hsrv) Hfits ltac:(lia))
      as (p' & m' & b' & Hrun & Hkept & Hshared & (Ho' & Hok' & _) & _).
    exists OK, p', m'. split; [exact Hrun|]. split; [right; exists b'; split; assumption|].
    split.
    + intros b0 Ho0 Hrc0.
      assert (b0 = b) as -> by (destruct Ho as [_ Hb]; destruct Ho0 as [_ Hb0]; congruence).
      apply (sharer_ok _ _ _ _ Ho Hok Hrc0). apply (Hshared Hrc0).
    + intros a ba Ha Hne'. apply (Hkept a ba Ha Hne').
Qed.

Lemma mutation_effect mu p m L :
  handle_ok p m → seen_size p m = Some L → next_served m = true →
  mutation_fits L mu →
  ∃ p' m', mutate mu p m = Done tt p' m' ∧ handle_ok p' m' ∧
    (∀ b, owns p m b → 1 < b_refcount b → handle_ok p m') ∧
    (∀ a ba, blocks m !! a = Some ba → a ≠ p - 16 → blocks m' !! a = Some ba).
Proof.
  intros Hh Hs Hsrv Hfits. destruct mu as [i x|ez n|pos x]; simpl in *.
  - apply (set_effect i x p m Hh Hsrv).
  - destruct Hfits as [Hmax Hrep].
    destruct (resize_effect ez n p m Hh Hsrv Hmax Hrep)
      as (r & p' & m' & Hrun & Hrest).
    exists p', m'. rewrite (bind_Done _ _ _ _ _ _ _ Hrun). split; [reflexivity|exact Hrest].
  - destruct (insert_effect pos x p m L Hh Hs Hsrv Hfits)
      as (r & p' & m' & Hrun & Hrest).
    exists p', m'. rewrite (bind_Done _ _ _ _ _ _ _ Hrun). split; [reflexivity|exact Hrest].
Qed.

(** X26. The mutating operations keep the handles well formed.  After
    [set], [resize] or [insert] on a well-formed handle, with the
    allocator serving the next request and the lengths asked for in range,
    the handle is again empty or points to a live block with a positive
    reference count, a positive length and room for its bucket; and so is
    every other handle that shared the buffer before the call. *)
Theorem mutation_keeps_well_formed mu p m L :
  handle_ok p m → seen_size p m = Some L → next_served m = true →
  mutation_fits L mu →
  ∃ p' m', mutate mu p m = Done tt p' m' ∧ handle_ok p' m' ∧
    (∀ b, owns p m b → 1 < b_refcount b → handle_ok p m').
Proof.
  intros Hh Hs Hsrv Hfits.
  destruct (mutation_effect mu p m L Hh Hs Hsrv Hfits) as (p' & m' & Hrun & Hok' & Hsh & _).
  exists p', m'. auto.
Qed.

(** X27. The mutating operations touch no buffer but their own: after
    [set], [resize] or [insert] on a well-formed handle, with the
    allocator serving the next request and the lengths asked for in range,
    every block of the heap other than the one the handle pointed to is
    there as it was. *)
Theorem mutation_leaves_other_buffers mu p m L :
  handle_ok p m → seen_size p m = Some L → next_served m = true →
  mutation_fits L mu →
  ∃ p' m', mutate mu p m = Done tt p' m' ∧
    ∀ a ba, blocks m !! a = Some ba → a ≠ p - 16 → blocks m' !! a = Some ba.
Proof.
  intros Hh Hs Hsrv Hfits.
  destruct (mutation_effect mu p m L Hh Hs Hsrv Hfits) as (p' & m' & Hrun & _ & _ & Hfr).
  exists p', m'. auto.
Qed.

End Extras.

(** ** The claims on concrete handles *)

Ltac by_eval := vm_compute; first [reflexivity | done | lia].

Ltac abc_handle_ok :=
  right; eexists; split;
  [ split; [by_eval | reflexivity]
  | repeat split; by_eval ].

Lemma copy_then_mutate_isolated_witness :
  ∃ m, assign 17 0 (heap_abc 1 []) = Done tt 17 m ∧
    ∃ p' m', mutate (Mset 0 9) 17 m = Done tt p' m' ∧
             same_view 17 (heap_abc 1 []) 17 m'.
Proof.
  apply (copy_then_mutate_isolated 17 (heap_abc 1 []) 3 (Mset 0 9)).
  - abc_handle_ok.
  - reflexivity.
  - intros b [_ Hb]. vm_compute in Hb. injection Hb as <-. by_eval.
  - reflexivity.
  - exact I.
Defined.

Lemma copy_on_write_contract_witness :
  (17 = 0 → _copy_on_write 17 (heap_abc 2 []) = Done 0 17 (heap_abc 2 [])) ∧
  (∀ b, owns 17 (heap_abc 2 []) b → b_refcount b ≤ 1 →
     _copy_on_write 17 (heap_abc 2 []) = Done (b_refcount b) 17 (heap_abc 2 [])) ∧
  (∀ b, owns 17 (heap_abc 2 []) b → 1 < b_refcount b → next_served (heap_abc 2 []) = true →
     ∃ p' m' nb,
       _copy_on_write 17 (heap_abc 2 []) = Done 1 p' m' ∧
       blocks (heap_abc 2 []) !! (p' - 16) = None ∧
       owns p' m' nb ∧ b_refcount nb = 1 ∧ b_size nb = b_size b ∧
       contents nb = contents b ∧ same_view 17 (heap_abc 2 []) p' m' ∧
       blocks m' !! (17 - 16) = Some (with_refcount (b_refcount b - 1) b) ∧
       ∀ a, a ≠ 17 - 16 → a ≠ p' - 16 → blocks m' !! a = blocks (heap_abc 2 []) !! a).
Proof. apply (copy_on_write_contract 17 (heap_abc 2 [])). abc_handle_ok. Defined.

Lemma resize_reports_overflow_witness :
  ∃ p' m', resize false oversized_length 17 (heap_abc 1 []) = Done ERR_OUT_OF_MEMORY p' m' ∧
           same_view 17 (heap_abc 1 []) p' m'.
Proof.
  apply (resize_reports_overflow false oversized_length 17 (heap_abc 1 [])).
  - abc_handle_ok.
  - intros b _ _. reflexivity.
  - by_eval.
  - right. left. by_eval.
  - right. by_eval.
Defined.

Lemma resize_failure_atomic_witness :
  ∃ r p' m', resize false 5 17 (heap_abcd [Deny]) = Done r p' m' ∧
    (capacity_overflows 5 → r = ERR_OUT_OF_MEMORY) ∧
    (next_served (after_clone abcd (heap_abcd [Deny])) = false →
     _get_alloc_size 5 ≠ _get_alloc_size (b_size abcd) → r = ERR_OUT_OF_MEMORY) ∧
    (r = ERR_OUT_OF_MEMORY → b_size abcd < 5 ∨ trivially_destructible = true →
     same_view 17 (heap_abcd [Deny]) p' m').
Proof.
  apply (resize_failure_atomic false 5 17 (heap_abcd [Deny]) abcd).
  - split; [by_eval | reflexivity].
  - repeat split; by_eval.
  - intros H. exfalso. revert H. by_eval.
  - split; by_eval.
  - by_eval.
  - right. by_eval.
Defined.

Lemma resize_zero_negative_same_witness :
  (∃ m', resize false 0 17 (heap_abc 2 []) = Done OK 0 m' ∧
         _unref 17 17 (heap_abc 2 []) = Done tt 17 m' ∧
         is_empty 0 m' = Done true 0 m' ∧ size 0 m' = Done 0 0 m' ∧
         (17 = 0 → m' = heap_abc 2 []) ∧
         (∀ b, owns 17 (heap_abc 2 []) b →
            m' = if b_refcount b =? 1 then drop_block (17 - 16) (heap_abc 2 [])
                 else put_block (17 - 16) (with_refcount (b_refcount b - 1) b)
                        (heap_abc 2 []))) ∧
  (∀ n, n < 0 → resize false n 17 (heap_abc 2 []) =
                Done ERR_INVALID_PARAMETER 17 (heap_abc 2 [])) ∧
  (∀ n, seen_size 17 (heap_abc 2 []) = Some n →
        resize false n 17 (heap_abc 2 []) = Done OK 17 (heap_abc 2 [])).
Proof. apply (resize_zero_negative_same false 17 (heap_abc 2 [])). abc_handle_ok. Defined.

Lemma insert_contract_witness :
  (1 < 0 ∨ 3 < 1 → insert 1 99 17 (heap_abc 1 []) =
                   Done ERR_INVALID_PARAMETER 17 (heap_abc 1 [])) ∧
  (0 ≤ 1 ≤ 3 → all_served (heap_abc 1 []) = true → fits (3 + 1) →
     ∃ p' m', insert 1 99 17 (heap_abc 1 []) = Done OK p' m' ∧
       seen_size p' m' = Some (3 + 1) ∧
       (∀ i, 0 ≤ i < 1 → seen_elem p' m' i = seen_elem 17 (heap_abc 1 []) i) ∧
       seen_elem p' m' 1 = Some 99 ∧
       (∀ i, 1 ≤ i < 3 → seen_elem p' m' (i + 1) = seen_elem 17 (heap_abc 1 []) i)).
Proof.
  apply (insert_contract 1 99 17 (heap_abc 1 []) 3).
  - abc_handle_ok.
  - reflexivity.
Defined.

Lemma find_lowest_match_witness :
  (0 < 0 → find 12 0 17 (heap_abc 1 []) = Done (-1) 17 (heap_abc 1 [])) ∧
  (0 ≤ 0 → ∃ r, find 12 0 17 (heap_abc 1 []) = Done r 17 (heap_abc 1 []) ∧
                lowest_match 12 17 (heap_abc 1 []) 0 r).
Proof. apply (find_lowest_match 12 0 17 (heap_abc 1 [])). abc_handle_ok. Defined.

Lemma rfind_highest_match_witness :
  ∃ s r, seen_size 17 (heap_abc 1 []) = Some s ∧
         rfind 11 (-10) 17 (heap_abc 1 []) = Done r 17 (heap_abc 1 []) ∧
         highest_match 11 17 (heap_abc 1 []) (rfind_start s (-10)) r ∧
         (17 = 0 → r = -1).
Proof. apply (rfind_highest_match 11 (-10) 17 (heap_abc 1 [])). abc_handle_ok. Defined.

Lemma resize_keeps_prefix_witness :
  prefix_kept (Z.min (b_size (abc 1)) 5) 17 (heap_abc 1 [])
    (ptr_of (resize false 5 17 (heap_abc 1 [])))
    (heap_of (resize false 5 17 (heap_abc 1 []))).
Proof.
  apply (resize_keeps_prefix false 5 17 (heap_abc 1 []) (abc 1)).
  - split; [split; [by_eval | reflexivity] | split; [repeat split; by_eval | reflexivity]].
  - split; by_eval.
  - right. by_eval.
  - by_eval.
Defined.

(** *** Where the code departs from the claims as they are written *)

(** C3 as written fails: in a build without the checked branch, the byte
    size of [2 ^ 62 + 1] elements of four bytes wraps around to 4;
    [resize] asks the allocator for 4 + 16 bytes, which hold one element,
    stores the length and returns [OK]. *)
Lemma resize_wrapping_length_counterexample :
  capacity_overflows wrapping_length ∧
  resize false wrapping_length 0 (heap_empty []) =
    Done OK 17 (Mem {[ 1 := Block 1 wrapping_length [-1] ]} []).
Proof. split; [left; by_eval | by_eval]. Qed.

(** C4 as written fails: the capacity arithmetic overflows during this
    [resize] of a handle that holds [10, 11, 12, 13], and the call does
    not return [ERR_OUT_OF_MEMORY]: it returns [OK]. *)
Lemma resize_overflow_unreported_counterexample :
  holds 17 (heap_abcd []) abcd ∧
  capacity_overflows wrapping_length ∧
  ∃ p' m', resize false wrapping_length 17 (heap_abcd []) = Done OK p' m'.
Proof.
  split; [|split].
  - split; [split; [by_eval | reflexivity] | split; [repeat split; by_eval | reflexivity]].
  - left. by_eval.
  - eexists _, _. vm_compute. reflexivity.
Qed.

(** C7 as written fails: with [from = -1] every index is at or above
    [from], and index 2 of [10, 11, 12] holds 12, but [find] returns -1. *)
Lemma find_negative_from_counterexample :
  ¬ ∃ r, find 12 (-1) 17 (heap_abc 1 []) = Done r 17 (heap_abc 1 []) ∧
         lowest_match 12 17 (heap_abc 1 []) (-1) r.
Proof.
  intros (r & Hrun & Hlow). vm_compute in Hrun. injection Hrun as <-.
  destruct Hlow as [[_ Hnone]|(_ & (x & Hx & _) & _)].
  - apply (Hnone 2); [lia|]. exists 12. split; reflexivity.
  - vm_compute in Hx. discriminate.
Qed.

(** C8 as written fails: for [from = -10] on [10, 11, 12] the start
    clamped into [0, 2] is 0, where no 11 is found at or below; [rfind]
    starts at 2 instead and returns 1. *)
Lemma rfind_clamped_start_counterexample :
  ¬ ∃ s r, seen_size 17 (heap_abc 1 []) = Some s ∧
           rfind 11 (-10) 17 (heap_abc 1 []) = Done r 17 (heap_abc 1 []) ∧
           highest_match 11 17 (heap_abc 1 []) (rfind_start_clamped s (-10)) r.
Proof.
  intros (s & r & Hs & Hrun & Hhigh). vm_compute in Hs. injection Hs as <-.
  vm_compute in Hrun. injection Hrun as <-.
  destruct Hhigh as [[Hr _]|(Hle & _)].
  - discriminate.
  - vm_compute in Hle. apply Hle. reflexivity.
Qed.

(** C9 as written fails: this [resize] of a handle that holds its block
    [10, 11, 12] alone returns [OK], and the block it leaves has room for
    one element only: index 1, below both lengths, is lost. *)
Lemma resize_loses_prefix_counterexample :
  holds 17 (heap_abc 1 []) (abc 1) ∧
  0 < wrapping_length ∧
  resize false wrapping_length 17 (heap_abc 1 []) =
    Done OK 49 (Mem {[ 33 := Block 1 wrapping_length [10] ]} []) ∧
  ¬ prefix_kept (Z.min (b_size (abc 1)) wrapping_length) 17 (heap_abc 1 [])
      49 (Mem {[ 33 := Block 1 wrapping_length [10] ]} []).
Proof.
  split; [|split; [|split]].
  - split; [split; [by_eval | reflexivity] | split; [repeat split; by_eval | reflexivity]].
  - by_eval.
  - by_eval.
  - intros H. specialize (H 1 ltac:(by_eval)). vm_compute in H. discriminate.
Qed.

(** *** Failures of the allocator that are not reported

    Three runs that the amended C4 leaves out: a denied allocation for an
    empty handle is not noticed (the null test comes after the pointer is
    advanced) and the header write faults; a denied allocation for the
    clone faults likewise; and [insert] drops the result of [resize], so a
    denied reallocation makes it shift the elements within the old length,
    lose the last one and return [OK]. *)
Example resize_scratch_denied_faults :
  resize false 1 0 (heap_empty [Deny]) = Fault.
Proof. reflexivity. Qed.

Example copy_on_write_denied_faults :
  _copy_on_write 17 (heap_abc 2 [Deny]) = Fault.
Proof. reflexivity. Qed.

Example insert_denied_returns_OK :
  insert 0 9 17 (heap_abcd [Deny]) =
    Done OK 17 (Mem {[ 1 := Block 1 4 [9; 10; 11; 12] ]} []).
Proof. by_eval. Qed.

(** ** The further properties on concrete handles *)

Ltac abc_holds :=
  split; [split; [by_eval | reflexivity] | split; [repeat split; by_eval | reflexivity]].

Ltac abc_refcount_fits :=
  let b := fresh "b" in let Hb := fresh "Hb" in
  intros b [_ Hb]; vm_compute in Hb; injection Hb as <-; by_eval.

Lemma next_po2_least_power_of_two_witness :
  ∃ k, 0 ≤ k ≤ 63 ∧ next_po2 12 = 2 ^ k ∧ 12 ≤ 2 ^ k ∧
       ∀ j, 0 ≤ j → 12 ≤ 2 ^ j → k ≤ j.
Proof. apply (next_po2_least_power_of_two 12). lia. Defined.

Lemma next_po2_wraps_to_zero_witness : next_po2 (2 ^ 63 + 1) = 0.
Proof. apply (next_po2_wraps_to_zero (2 ^ 63 + 1)). lia. Defined.

Lemma alloc_size_checked_exact_witness :
  (fst (@_get_alloc_size_checked Z int32 gcc32 oversized_length) = true ↔
   oversized_length = 0 ∨ oversized_length * @elem_bytes Z int32 ≤ 2 ^ 63) ∧
  (fst (@_get_alloc_size_checked Z int32 gcc32 oversized_length) = true →
   oversized_length * @elem_bytes Z int32 ≤
     snd (@_get_alloc_size_checked Z int32 gcc32 oversized_length) ≤ 2 ^ 63).
Proof.
  apply (@alloc_size_checked_exact Z int32 gcc32 oversized_length).
  - reflexivity.
  - by_eval.
Defined.

Lemma alloc_size_checked_power_of_two_witness :
  _get_alloc_size_checked 3 = (true, 2 ^ Z.log2_up (3 * elem_bytes)).
Proof. apply (alloc_size_checked_power_of_two 3); by_eval. Defined.

Lemma is_empty_iff_size_zero_witness :
  ∃ s, size 17 (heap_abc 1 []) = Done s 17 (heap_abc 1 []) ∧ 0 ≤ s ∧
       is_empty 17 (heap_abc 1 []) = Done (s =? 0) 17 (heap_abc 1 []).
Proof. apply (is_empty_iff_size_zero 17 (heap_abc 1 [])). abc_handle_ok. Defined.

Lemma get_in_range_or_trap_witness :
  Z.of_nat (length (shown 17 (heap_abc 1 []))) = 3 ∧
  (0 ≤ 2 < 3 → ∃ x, get 2 17 (heap_abc 1 []) = Done x 17 (heap_abc 1 []) ∧
                    shown 17 (heap_abc 1 []) !! Z.to_nat 2 = Some x) ∧
  (2 < 0 ∨ 3 ≤ 2 → get 2 17 (heap_abc 1 []) = Fault).
Proof.
  apply (get_in_range_or_trap 2 17 (heap_abc 1 []) 3).
  - abc_handle_ok.
  - reflexivity.
Defined.

Lemma set_then_get_witness :
  (1 < 0 ∨ 3 ≤ 1 → set 1 99 17 (heap_abc 2 []) = Done tt 17 (heap_abc 2 [])) ∧
  (0 ≤ 1 < 3 →
     ∃ p' m' b', set 1 99 17 (heap_abc 2 []) = Done tt p' m' ∧ holds p' m' b' ∧
       seen_size p' m' = Some 3 ∧
       seen_elem p' m' 1 = Some 99 ∧
       ∀ j, j ≠ 1 → seen_elem p' m' j = seen_elem 17 (heap_abc 2 []) j).
Proof.
  apply (set_then_get 1 99 17 (heap_abc 2 []) 3).
  - abc_handle_ok.
  - reflexivity.
  - intros b _ _. reflexivity.
Defined.

Lemma copy_shares_storage_witness :
  ∃ m', assign 17 0 (heap_abc 1 []) = Done tt 17 m' ∧
    script m' = script (heap_abc 1 []) ∧
    same_view 17 (heap_abc 1 []) 17 m' ∧
    (17 = 0 → m' = heap_abc 1 []) ∧
    (∀ b, owns 17 (heap_abc 1 []) b →
       m' = put_block (17 - 16) (with_refcount (b_refcount b + 1) b) (heap_abc 1 [])).
Proof.
  apply (copy_shares_storage 17 (heap_abc 1 [])).
  - abc_handle_ok.
  - abc_refcount_fits.
Defined.

Lemma assign_releases_old_storage_witness :
  ∃ m', assign 49 17 (heap_two 1 2 []) = Done tt 49 m' ∧
    blocks m' !! (49 - 16) = Some (with_refcount (b_refcount (seven 2) + 1) (seven 2)) ∧
    blocks m' !! (17 - 16) =
      (if b_refcount (abc 1) =? 1 then None
       else Some (with_refcount (b_refcount (abc 1) - 1) (abc 1))) ∧
    (∀ a, a ≠ 17 - 16 → a ≠ 49 - 16 →
       blocks m' !! a = blocks (heap_two 1 2 []) !! a) ∧
    same_view 49 (heap_two 1 2 []) 49 m'.
Proof.
  apply (assign_releases_old_storage 17 49 (heap_two 1 2 []) (abc 1) (seven 2)).
  - split; [by_eval | reflexivity].
  - repeat split; by_eval.
  - split; [by_eval | reflexivity].
  - repeat split; by_eval.
  - by_eval.
  - lia.
Defined.


Lemma assign_from_dead_storage_witness :
  assign 17 0 (heap_abc 0 []) = Done tt 0 (heap_abc 0 []).
Proof.
  apply (assign_from_dead_storage 17 (heap_abc 0 []) (abc 0)).
  - lia.
  - reflexivity.
  - reflexivity.
Defined.

Lemma copy_then_destroy_restores_witness :
  ∃ m1, assign 17 0 (heap_abc 1 []) = Done tt 17 m1 ∧
        destroy 17 m1 = Done tt 17 (heap_abc 1 []).
Proof.
  apply (copy_then_destroy_restores 17 (heap_abc 1 [])).
  - abc_handle_ok.
  - abc_refcount_fits.
Defined.

Lemma last_destructor_frees_witness :
  (∀ j : nat, (j < 2)%nat →
     destroy_each j 17 (heap_abc 2 []) =
       Done tt 17
         (put_block (17 - 16) (with_refcount (Z.of_nat (2 - j)) (abc 2)) (heap_abc 2 []))) ∧
  destroy_each 2 17 (heap_abc 2 []) = Done tt 17 (drop_block (17 - 16) (heap_abc 2 [])).
Proof.
  apply (last_destructor_frees 17 (heap_abc 2 []) (abc 2) 2).
  - split; [by_eval | reflexivity].
  - repeat split; by_eval.
  - reflexivity.
Defined.

Lemma ptrw_unshares_witness :
  ∃ p' m', ptrw 17 (heap_abc 2 []) = Done p' p' m' ∧
    same_view 17 (heap_abc 2 []) p' m' ∧
    (17 = 0 → p' = 0 ∧ m' = heap_abc 2 []) ∧
    (17 ≠ 0 → ∃ b', holds p' m' b').
Proof.
  apply (ptrw_unshares 17 (heap_abc 2 [])).
  - abc_handle_ok.
  - intros b _ _. reflexivity.
Defined.

Lemma resize_builds_new_elements_witness :
  ∃ p' m', resize true 6 17 (heap_abc 1 []) = Done OK p' m' ∧
    seen_size p' m' = Some 6 ∧
    prefix_kept 3 17 (heap_abc 1 []) p' m' ∧
    ∀ i, 3 ≤ i < 6 →
      (trivially_constructible = false → seen_elem p' m' i = Some T_default) ∧
      (trivially_constructible = true → true = true → seen_elem p' m' i = Some T_zero).
Proof.
  apply (resize_builds_new_elements true 6 17 (heap_abc 1 []) 3).
  - abc_handle_ok.
  - reflexivity.
  - reflexivity.
  - lia.
  - split; by_eval.
Defined.

Lemma resize_within_bucket_witness :
  ∃ l', resize false 4 17 (heap_abc 1 [Deny]) =
          Done OK 17 (put_block (17 - 16) (Block 1 4 l') (heap_abc 1 [Deny])) ∧
        length l' = length (b_slots (abc 1)) ∧
        seen_size 17 (put_block (17 - 16) (Block 1 4 l') (heap_abc 1 [Deny])) = Some 4.
Proof.
  apply (resize_within_bucket false 4 17 (heap_abc 1 [Deny]) (abc 1)).
  - abc_holds.
  - lia.
  - by_eval.
  - split; by_eval.
  - by_eval.
Defined.

Lemma resize_empty_denied_faults_witness :
  resize false 3 0 (heap_empty [Deny]) = Fault.
Proof.
  apply (resize_empty_denied_faults false 3 (heap_empty [Deny])).
  - lia.
  - split; by_eval.
  - reflexivity.
  - reflexivity.
Defined.

Lemma copy_on_write_denied_faults_always_witness :
  _copy_on_write 17 (heap_abc 2 [Deny]) = Fault.
Proof.
  apply (copy_on_write_denied_faults_always 17 (heap_abc 2 [Deny]) (abc 2)).
  - split; [by_eval | reflexivity].
  - repeat split; by_eval.
  - by_eval.
  - reflexivity.
  - reflexivity.
Defined.

Lemma insert_denied_drops_last_witness :
  ∃ m', insert 1 99 17 (heap_abcd [Deny]) = Done OK 17 m' ∧
    seen_size 17 m' = Some (b_size abcd) ∧
    (∀ i, 0 ≤ i < 1 → seen_elem 17 m' i = seen_elem 17 (heap_abcd [Deny]) i) ∧
    seen_elem 17 m' 1 = Some 99 ∧
    (∀ i, 1 < i < b_size abcd →
       seen_elem 17 m' i = seen_elem 17 (heap_abcd [Deny]) (i - 1)).
Proof.
  apply (insert_denied_drops_last 1 99 17 (heap_abcd [Deny]) abcd).
  - abc_holds.
  - by_eval.
  - split; by_eval.
  - reflexivity.
  - by_eval.
Defined.

Lemma remove_at_contract_witness :
  (1 < 0 ∨ 3 ≤ 1 → remove_at 1 17 (heap_abc 2 []) = Done tt 17 (heap_abc 2 [])) ∧
  (0 ≤ 1 < 3 → all_served (heap_abc 2 []) = true →
     ∃ p' m', remove_at 1 17 (heap_abc 2 []) = Done tt p' m' ∧
       seen_size p' m' = Some (3 - 1) ∧
       (∀ i, 0 ≤ i < 1 → seen_elem p' m' i = seen_elem 17 (heap_abc 2 []) i) ∧
       (∀ i, 1 ≤ i < 3 - 1 → seen_elem p' m' i = seen_elem 17 (heap_abc 2 []) (i + 1))).
Proof.
  apply (remove_at_contract 1 17 (heap_abc 2 []) 3).
  - abc_handle_ok.
  - reflexivity.
Defined.

Lemma insert_then_remove_at_witness :
  ∃ p1 m1 p2 m2, insert 1 99 17 (heap_abcd []) = Done OK p1 m1 ∧
    remove_at 1 p1 m1 = Done tt p2 m2 ∧
    same_view 17 (heap_abcd []) p2 m2.
Proof.
  apply (insert_then_remove_at 1 99 17 (heap_abcd []) 4).
  - right. exists abcd. split; [split; [by_eval | reflexivity] | repeat split; by_eval].
  - reflexivity.
  - lia.
  - reflexivity.
  - split; by_eval.
Defined.

Lemma count_is_occurrences_witness :
  count 11 17 (heap_abc 1 []) =
    Done (occurrences 11 (shown 17 (heap_abc 1 []))) 17 (heap_abc 1 []) ∧
  ∀ i, 0 ≤ i → seen_elem 17 (heap_abc 1 []) i = shown 17 (heap_abc 1 []) !! Z.to_nat i.
Proof. apply (count_is_occurrences 11 17 (heap_abc 1 [])). abc_handle_ok. Defined.

Lemma find_rfind_count_agree_witness :
  ∃ f r c s, find 11 0 17 (heap_abc 1 []) = Done f 17 (heap_abc 1 []) ∧
    rfind 11 (-1) 17 (heap_abc 1 []) = Done r 17 (heap_abc 1 []) ∧
    count 11 17 (heap_abc 1 []) = Done c 17 (heap_abc 1 []) ∧
    seen_size 17 (heap_abc 1 []) = Some s ∧
    0 ≤ c ∧ (c = 0 ↔ f = -1) ∧ (c = 0 ↔ r = -1) ∧
    (c ≠ 0 → 0 ≤ f ≤ r ∧ r < s).
Proof. apply (find_rfind_count_agree 11 17 (heap_abc 1 [])). abc_handle_ok. Defined.

Lemma mutation_keeps_well_formed_witness :
  ∃ p' m', mutate (Minsert 1 99) 17 (heap_abc 2 []) = Done tt p' m' ∧
    handle_ok p' m' ∧
    (∀ b, owns 17 (heap_abc 2 []) b → 1 < b_refcount b → handle_ok 17 m').
Proof.
  apply (mutation_keeps_well_formed (Minsert 1 99) 17 (heap_abc 2 []) 3).
  - abc_handle_ok.
  - reflexivity.
  - reflexivity.
  - split; by_eval.
Defined.

Lemma mutation_leaves_other_buffers_witness :
  ∃ p' m', mutate (Mresize false 9) 17 (heap_two 1 2 []) = Done tt p' m' ∧
    ∀ a ba, blocks (heap_two 1 2 []) !! a = Some ba → a ≠ 17 - 16 →
            blocks m' !! a = Some ba.
Proof.
  apply (mutation_leaves_other_buffers (Mresize false 9) 17 (heap_two 1 2 []) 3).
  - right. exists (abc 1). split; [split; [by_eval | reflexivity] | repeat split; by_eval].
  - reflexivity.
  - reflexivity.
  - split; [by_eval | right; by_eval].
Defined.

Lemma grow_then_shrink_restores_witness :
  ∃ p1 m1 p2 m2, resize true 9 17 (heap_abc 2 []) = Done OK p1 m1 ∧
    resize false 3 p1 m1 = Done OK p2 m2 ∧
    same_view 17 (heap_abc 2 []) p2 m2.
Proof.
  apply (grow_then_shrink_restores true false 9 17 (heap_abc 2 []) 3).
  - abc_handle_ok.
  - reflexivity.
  - reflexivity.
  - lia.
  - split; by_eval.
Defined.
